(** * New-game character resolution (crawl-ref/source/newgame.cc)

    A shallow embedding of the resolution engine of newgame.cc: the
    species/job/weapon resolution steps with their reservoir draws, the
    prompting loop around them, the reroll loop of [_choose_char] and the
    weapon sub-stage.  Code that talks to the random source or to the UI is
    written as a program tree ([Prog]) whose nodes are the calls the source
    makes ([one_chance_in], [coinflip], [random2], an event pump) and whose
    leaves are a return value or a halt.  Two readings of a tree are given:
    [run], which takes every answer from an explicit world (a random tape
    and an event script), and [pr], the probability of an outcome when the
    random calls follow their contracts. *)

From Stdlib Require Import List String Ascii ZArith QArith Bool Arith Lia.
Import ListNotations.
Local Close Scope Q_scope.
Local Open Scope string_scope.
Local Open Scope nat_scope.
Local Open Scope list_scope.

(** ** Enumerations

    species-type.h, job-type.h, item-prop-enum.h and game-type.h are not
    part of this file.  Each enumeration lists the enumerators newgame.cc
    names; the remaining enumerators of the header are [*_OTHER n]. *)

Inductive species_type : Type :=
| SP_HUMAN | SP_DEEP_ELF | SP_DEEP_DWARF | SP_HILL_ORC
| SP_HALFLING | SP_KOBOLD | SP_SPRIGGAN
| SP_OGRE | SP_TROLL
| SP_NAGA | SP_CENTAUR | SP_MERFOLK | SP_MINOTAUR
| SP_TENGU | SP_BASE_DRACONIAN | SP_GARGOYLE | SP_FORMICID
| SP_BARACHI | SP_GNOLL
| SP_VINE_STALKER
| SP_DEMIGOD | SP_DEMONSPAWN
| SP_MUMMY | SP_GHOUL | SP_VAMPIRE
| SP_FELID | SP_OCTOPODE
| SP_UNKNOWN | SP_RANDOM | SP_VIABLE
| SP_OTHER (n : nat).

Inductive job_type : Type :=
| JOB_FIGHTER | JOB_GLADIATOR | JOB_MONK | JOB_HUNTER | JOB_ASSASSIN
| JOB_ARTIFICER | JOB_WANDERER
| JOB_BERSERKER | JOB_ABYSSAL_KNIGHT | JOB_CHAOS_KNIGHT
| JOB_SKALD | JOB_TRANSMUTER | JOB_WARPER | JOB_ARCANE_MARKSMAN
| JOB_ENCHANTER
| JOB_WIZARD | JOB_CONJURER | JOB_SUMMONER | JOB_NECROMANCER
| JOB_FIRE_ELEMENTALIST | JOB_ICE_ELEMENTALIST
| JOB_AIR_ELEMENTALIST | JOB_EARTH_ELEMENTALIST | JOB_VENOM_MAGE
| JOB_UNKNOWN | JOB_RANDOM | JOB_VIABLE
| JOB_OTHER (n : nat).

Inductive weapon_type : Type :=
| WPN_THROWN | WPN_HUNTING_SLING | WPN_SHORTBOW | WPN_HAND_CROSSBOW
| WPN_SHORT_SWORD | WPN_MACE | WPN_HAND_AXE | WPN_SPEAR | WPN_FALCHION
| WPN_QUARTERSTAFF | WPN_UNARMED
| WPN_RAPIER | WPN_FLAIL | WPN_WAR_AXE | WPN_TRIDENT | WPN_LONG_SWORD
| WPN_UNKNOWN | WPN_RANDOM | WPN_VIABLE
| WPN_OTHER (n : nat).

Inductive game_type : Type :=
| GAME_TYPE_NORMAL | GAME_TYPE_TUTORIAL | GAME_TYPE_HINTS | GAME_TYPE_SPRINT
| NUM_GAME_TYPE
| GAME_TYPE_OTHER (n : nat).

(** char_choice_restriction (ng-restr.h): the three restriction levels. *)
Inductive char_choice_restriction : Type :=
| CC_BANNED | CC_RESTRICTED | CC_UNRESTRICTED.

(** size_type (size-type.h), as its rank: smaller bodies have smaller
    ranks.  Only the comparison [size <= SIZE_SMALL] is made here. *)
Definition size_type := Z.

Definition species_eq_dec (a b : species_type) : {a = b} + {a <> b}.
Proof. decide equality; apply Nat.eq_dec. Defined.

Definition job_eq_dec (a b : job_type) : {a = b} + {a <> b}.
Proof. decide equality; apply Nat.eq_dec. Defined.

Definition weapon_eq_dec (a b : weapon_type) : {a = b} + {a <> b}.
Proof. decide equality; apply Nat.eq_dec. Defined.

Definition game_type_eq_dec (a b : game_type) : {a = b} + {a <> b}.
Proof. decide equality; apply Nat.eq_dec. Defined.

Definition cc_eq_dec (a b : char_choice_restriction) : {a = b} + {a <> b}.
Proof. decide equality. Defined.

Definition species_eqb (a b : species_type) : bool :=
  if species_eq_dec a b then true else false.
Definition job_eqb (a b : job_type) : bool :=
  if job_eq_dec a b then true else false.
Definition weapon_eqb (a b : weapon_type) : bool :=
  if weapon_eq_dec a b then true else false.
Definition game_type_eqb (a b : game_type) : bool :=
  if game_type_eq_dec a b then true else false.
Definition cc_eqb (a b : char_choice_restriction) : bool :=
  if cc_eq_dec a b then true else false.

(** ** newgame_def

    The fields of newgame_def (newgame-def.h) that newgame.cc reads or
    writes.  The constructor and [clear_character] are in newgame.cc. *)

Record newgame_def : Type := mk_newgame_def {
  name : string;
  type : game_type;
  filename : string;
  map : string;
  species : species_type;
  job : job_type;
  weapon : weapon_type;
  fully_random : bool;
  allowed_combos : list string;
  allowed_species : list species_type;
  allowed_jobs : list job_type;
  allowed_weapons : list weapon_type
}.

(** newgame_def::newgame_def() *)
Definition newgame_def_init : newgame_def :=
  {| name := EmptyString; type := GAME_TYPE_NORMAL;
     filename := EmptyString; map := EmptyString;
     species := SP_UNKNOWN; job := JOB_UNKNOWN; weapon := WPN_UNKNOWN;
     fully_random := false;
     allowed_combos := []; allowed_species := []; allowed_jobs := [];
     allowed_weapons := [] |}.

(** Field assignments [ng.f = v]. *)
Definition set_name (ng : newgame_def) (v : string) : newgame_def :=
  mk_newgame_def v (type ng) (filename ng) (map ng) (species ng) (job ng)
    (weapon ng) (fully_random ng) (allowed_combos ng) (allowed_species ng)
    (allowed_jobs ng) (allowed_weapons ng).
Definition set_type (ng : newgame_def) (v : game_type) : newgame_def :=
  mk_newgame_def (name ng) v (filename ng) (map ng) (species ng) (job ng)
    (weapon ng) (fully_random ng) (allowed_combos ng) (allowed_species ng)
    (allowed_jobs ng) (allowed_weapons ng).
Definition set_species (ng : newgame_def) (v : species_type) : newgame_def :=
  mk_newgame_def (name ng) (type ng) (filename ng) (map ng) v (job ng)
    (weapon ng) (fully_random ng) (allowed_combos ng) (allowed_species ng)
    (allowed_jobs ng) (allowed_weapons ng).
Definition set_job (ng : newgame_def) (v : job_type) : newgame_def :=
  mk_newgame_def (name ng) (type ng) (filename ng) (map ng) (species ng) v
    (weapon ng) (fully_random ng) (allowed_combos ng) (allowed_species ng)
    (allowed_jobs ng) (allowed_weapons ng).
Definition set_weapon (ng : newgame_def) (v : weapon_type) : newgame_def :=
  mk_newgame_def (name ng) (type ng) (filename ng) (map ng) (species ng)
    (job ng) v (fully_random ng) (allowed_combos ng) (allowed_species ng)
    (allowed_jobs ng) (allowed_weapons ng).
Definition set_fully_random (ng : newgame_def) (v : bool) : newgame_def :=
  mk_newgame_def (name ng) (type ng) (filename ng) (map ng) (species ng)
    (job ng) (weapon ng) v (allowed_combos ng) (allowed_species ng)
    (allowed_jobs ng) (allowed_weapons ng).

(** [allowed_jobs.clear(); allowed_species.clear(); allowed_weapons.clear()] *)
Definition clear_allowed (ng : newgame_def) : newgame_def :=
  mk_newgame_def (name ng) (type ng) (filename ng) (map ng) (species ng)
    (job ng) (weapon ng) (fully_random ng) (allowed_combos ng) [] [] [].

(** newgame_def::clear_character() *)
Definition clear_character (ng : newgame_def) : newgame_def :=
  set_weapon (set_job (set_species ng SP_UNKNOWN) JOB_UNKNOWN) WPN_UNKNOWN.

(** enum MenuOptions *)
Definition M_QUIT : Z := -1.
Definition M_ABORT : Z := -2.
Definition M_APTITUDES : Z := -3.
Definition M_HELP : Z := -4.
Definition M_VIABLE : Z := -5.
Definition M_RANDOM : Z := -6.
Definition M_VIABLE_CHAR : Z := -7.
Definition M_RANDOM_CHAR : Z := -8.
Definition M_DEFAULT_CHOICE : Z := -9.

(** enum MenuChoices *)
Inductive MenuChoices : Type := C_SPECIES | C_JOB.

(** ** Programs

    What the UI layer hands to a widget while the event loop is pumped: a
    key press, the activation of a menu button (its id), or an event that
    is not a key press. *)
Inductive ui_event : Type :=
| EvKey (keyn : Z)
| EvActivate (id : Z)
| EvOther.

(** The ways the process stops without returning to the caller. *)
Inductive halt : Type :=
| HEnd (exit_code : Z) (msg : string)  (* end(exit_code, false, msg) *)
| HGameEnded                           (* game_ended(game_exit::abort) *)
| HAssert (what : string)              (* a failed ASSERT *)
| HOutOfRange (what : string)          (* an index or substr past the end *)
| HOutOfFuel.                          (* the loop bound of the model *)

(** A program is the tree of calls it makes to the random source and to
    the UI, with a continuation for every answer. *)
Inductive Prog (A : Type) : Type :=
| Ret (a : A)
| OneChanceIn (n : nat) (k : bool -> Prog A)   (* one_chance_in(n) *)
| Coinflip (k : bool -> Prog A)                (* coinflip() *)
| Random2 (n : nat) (k : nat -> Prog A)        (* random2(n) *)
| PumpEvents (k : ui_event -> Prog A)          (* ui::pump_events() *)
| SeenHups (k : bool -> Prog A)                (* crawl_state.seen_hups *)
| Halt (h : halt).

Arguments Ret {A} a.
Arguments OneChanceIn {A} n k.
Arguments Coinflip {A} k.
Arguments Random2 {A} n k.
Arguments PumpEvents {A} k.
Arguments SeenHups {A} k.
Arguments Halt {A} h.

Fixpoint bind {A B : Type} (m : Prog A) (f : A -> Prog B) : Prog B :=
  match m with
  | Ret a => f a
  | OneChanceIn n k => OneChanceIn n (fun b => bind (k b) f)
  | Coinflip k => Coinflip (fun b => bind (k b) f)
  | Random2 n k => Random2 n (fun i => bind (k i) f)
  | PumpEvents k => PumpEvents (fun e => bind (k e) f)
  | SeenHups k => SeenHups (fun b => bind (k b) f)
  | Halt h => Halt h
  end.

Declare Scope prog_scope.
Delimit Scope prog_scope with prog.
Notation "x <- m ;; k" := (bind m (fun x => k))
  (at level 61, m at next level, right associativity) : prog_scope.
Notation "' pat <- m ;; k" := (bind m (fun x => match x with pat => k end))
  (at level 61, pat pattern, m at next level, right associativity) : prog_scope.
Local Open Scope prog_scope.

Definition one_chance_in (n : nat) : Prog bool := OneChanceIn n Ret.
Definition coinflip : Prog bool := Coinflip Ret.
Definition random2 (n : nat) : Prog nat := Random2 n Ret.
Definition pump_events : Prog ui_event := PumpEvents Ret.
Definition seen_hups : Prog bool := SeenHups Ret.
Definition fail {A : Type} (h : halt) : Prog A := Halt h.

(** How a program ends: it returns, it stops, or (in [pr] only) it is
    waiting at the UI. *)
Inductive outcome (A : Type) : Type :=
| Returned (a : A)
| Stopped (h : halt)
| AwaitsInput.

Arguments Returned {A} a.
Arguments Stopped {A} h.
Arguments AwaitsInput {A}.

(** *** Reading a program against a world

    The world answers every call: [tape] is the raw output of the random
    generator, [events] is what the user does, and [hangup n] tells whether
    a hangup has been seen by the time [n] events have been delivered. *)
Record world : Type := mk_world {
  tape : nat -> nat;
  tape_pos : nat;
  events : nat -> ui_event;
  events_pos : nat;
  hangup : nat -> bool
}.

Definition next_raw (w : world) : nat := tape w (tape_pos w).
Definition skip_raw (w : world) : world :=
  mk_world (tape w) (S (tape_pos w)) (events w) (events_pos w) (hangup w).
Definition next_event (w : world) : ui_event := events w (events_pos w).
Definition skip_event (w : world) : world :=
  mk_world (tape w) (tape_pos w) (events w) (S (events_pos w)) (hangup w).

(** Modelled from the spec: random.h is not part of this file.  [random2(n)]
    is a draw from [0, n) (and 0 when [n <= 1]); [one_chance_in(n)] is true
    with probability 1/n, here when the draw from [0, n) is 0; [coinflip()]
    is an unbiased bit, here the parity of the raw draw. *)
Definition random2_of (n raw : nat) : nat :=
  if n <=? 1 then 0 else raw mod n.
Definition one_chance_in_of (n raw : nat) : bool := random2_of n raw =? 0.
Definition coinflip_of (raw : nat) : bool := Nat.odd raw.

Fixpoint run {A : Type} (p : Prog A) (w : world) : outcome A * world :=
  match p with
  | Ret a => (Returned a, w)
  | OneChanceIn n k => run (k (one_chance_in_of n (next_raw w))) (skip_raw w)
  | Coinflip k => run (k (coinflip_of (next_raw w))) (skip_raw w)
  | Random2 n k => run (k (random2_of n (next_raw w))) (skip_raw w)
  | PumpEvents k => run (k (next_event w)) (skip_event w)
  | SeenHups k => run (k (hangup w (events_pos w))) w
  | Halt h => (Stopped h, w)
  end.

(** *** The probability of an outcome *)

(** The weight 1/n (and 1 for [n = 0], where [random2] can only yield 0). *)
Definition one_in (n : nat) : Q := 1 # Pos.of_nat n.

Definition sumQ (l : list Q) : Q := fold_right Qplus 0%Q l.

Definition indicator (b : bool) : Q := if b then 1%Q else 0%Q.

(** Modelled from the spec: the weights are the contracts of the calls of
    random.h, which is not part of this file.  [pr p E] is the probability
    that [p] ends in an outcome satisfying [E] when [one_chance_in(n)] is
    true with probability 1/n, [coinflip()] with probability 1/2, and
    [random2(n)] takes every value below [n] with probability 1/n, all
    draws independent.  A program that reaches the UI counts as
    [AwaitsInput]. *)
Fixpoint pr {A : Type} (p : Prog A) (E : outcome A -> bool) : Q :=
  match p with
  | Ret a => indicator (E (Returned a))
  | OneChanceIn n k =>
      (one_in n * pr (k true) E + (1 - one_in n) * pr (k false) E)%Q
  | Coinflip k => ((1 # 2) * pr (k true) E + (1 # 2) * pr (k false) E)%Q
  | Random2 n k =>
      (one_in n * sumQ (List.map (fun i => pr (k i) E) (seq 0 (Nat.max n 1))))%Q
  | PumpEvents _ => indicator (E AwaitsInput)
  | SeenHups _ => indicator (E AwaitsInput)
  | Halt h => indicator (E (Stopped h))
  end.

(** ** Collaborators

    Everything below is declared outside newgame.cc and is taken as given:
    the numbering of the enumerations, the compatibility rules (ng-restr.h,
    jobs.h, species.h), and the string, key and hints helpers. *)
Class Enums : Type := {
  NUM_SPECIES : nat;
  NUM_JOBS : nat;
  species_type_of_int : Z -> species_type;  (* static_cast<species_type>(i) *)
  job_type_of_int : Z -> job_type;          (* job_type(i) *)
  weapon_type_of_int : Z -> weapon_type     (* static_cast<weapon_type>(i) *)
}.

Class Rules : Type := {
  job_allowed : species_type -> job_type -> char_choice_restriction;
  species_allowed : job_type -> species_type -> char_choice_restriction;
  weapon_restriction : weapon_type -> newgame_def -> char_choice_restriction;
  job_has_weapon_choice : job_type -> bool;
  job_gets_ranged_weapons : job_type -> bool;
  job_gets_good_weapons : job_type -> bool;
  species_size_torso : species_type -> size_type; (* species_size(sp, PSIZE_TORSO) *)
  SIZE_SMALL : size_type
}.

Class Platform : Type := {
  species_name : species_type -> string;
  get_job_name : job_type -> string;
  get_species_by_abbrev : string -> species_type;
  get_job_by_abbrev : string -> job_type;
  str_to_job : string -> job_type;
  str_to_weapon : string -> weapon_type;
  split_string : string -> string -> list string;
  trim_string : string -> string;
  key_is_escape : Z -> bool;
  toalower : Z -> Z;
  char_is_signed : bool;       (* whether plain char is a signed type *)
  CASE_ESCAPE : Z -> bool;     (* the case labels of the CASE_ESCAPE macro *)
  CK_ENTER : Z;
  CK_BKSP : Z;
  CK_MOUSE_CMD : Z;
  CONTROL_Q : Z;               (* CONTROL('Q') *)
  pick_hints : newgame_def -> Prog newgame_def
}.

(** ** The uniform draw shared by the resolution steps

    The loop that [_resolve_species], [_resolve_job] and [_resolve_weapon]
    each write out:
<<
    int good_choices = 0;
    for (candidate c : cands)
        if (pred(c) && one_chance_in(++good_choices))
            body(c);
>>
    [&&] evaluates [one_chance_in(++good_choices)] only for a candidate that
    satisfies [pred].  The result is the final [good_choices] and the state
    the bodies have left. *)
Fixpoint reservoir {C St : Type} (pred : C -> bool) (body : C -> St -> Prog St)
    (cands : list C) (good_choices : nat) (s : St) : Prog (nat * St) :=
  match cands with
  | [] => Ret (good_choices, s)
  | c :: rest =>
      if pred c then
        hit <- one_chance_in (S good_choices) ;;
        s' <- (if hit then body c s else Ret s) ;;
        reservoir pred body rest (S good_choices) s'
      else reservoir pred body rest good_choices s
  end.

(** A loop body that is a plain assignment. *)
Definition assigning {C St : Type} (f : C -> St -> St) : C -> St -> Prog St :=
  fun c s => Ret (f c s).

(** [species_order] and the job lists of [jobs_order] (the menu position and
    width of a group are left out). *)
Definition species_order : list species_type :=
  [ SP_HUMAN; SP_DEEP_ELF; SP_DEEP_DWARF; SP_HILL_ORC;
    SP_HALFLING; SP_KOBOLD; SP_SPRIGGAN;
    SP_OGRE; SP_TROLL;
    SP_NAGA; SP_CENTAUR; SP_MERFOLK; SP_MINOTAUR;
    SP_TENGU; SP_BASE_DRACONIAN; SP_GARGOYLE; SP_FORMICID;
    SP_BARACHI; SP_GNOLL;
    SP_VINE_STALKER;
    SP_DEMIGOD; SP_DEMONSPAWN;
    SP_MUMMY; SP_GHOUL; SP_VAMPIRE;
    SP_FELID; SP_OCTOPODE ].

Record job_group : Type := mk_job_group {
  group_name : string;
  jobs : list job_type
}.

Definition jobs_order : list job_group :=
  [ mk_job_group "Warrior"
      [JOB_FIGHTER; JOB_GLADIATOR; JOB_MONK; JOB_HUNTER; JOB_ASSASSIN];
    mk_job_group "Adventurer"
      [JOB_ARTIFICER; JOB_WANDERER];
    mk_job_group "Zealot"
      [JOB_BERSERKER; JOB_ABYSSAL_KNIGHT; JOB_CHAOS_KNIGHT];
    mk_job_group "Warrior-mage"
      [JOB_SKALD; JOB_TRANSMUTER; JOB_WARPER; JOB_ARCANE_MARKSMAN;
       JOB_ENCHANTER];
    mk_job_group "Mage"
      [JOB_WIZARD; JOB_CONJURER; JOB_SUMMONER; JOB_NECROMANCER;
       JOB_FIRE_ELEMENTALIST; JOB_ICE_ELEMENTALIST;
       JOB_AIR_ELEMENTALIST; JOB_EARTH_ELEMENTALIST; JOB_VENOM_MAGE] ].

Definition is_starting_species (sp : species_type) : bool :=
  existsb (species_eqb sp) species_order.

Definition is_starting_job (j : job_type) : bool :=
  existsb (fun group => existsb (fun job_ => job_eqb j job_) (jobs group))
          jobs_order.

Definition _is_random_species (sp : species_type) : bool :=
  species_eqb sp SP_RANDOM || species_eqb sp SP_VIABLE.

Definition _is_random_job (j : job_type) : bool :=
  job_eqb j JOB_RANDOM || job_eqb j JOB_VIABLE.

Definition _is_random_choice (choice : newgame_def) : bool :=
  _is_random_species (species choice) && _is_random_job (job choice).

Definition _is_random_viable_choice (choice : newgame_def) : bool :=
  _is_random_choice choice
  && (job_eqb (job choice) JOB_VIABLE || species_eqb (species choice) SP_VIABLE).

Definition _char_defined (ng : newgame_def) : bool :=
  negb (species_eqb (species ng) SP_UNKNOWN)
  && negb (job_eqb (job ng) JOB_UNKNOWN).

Definition choose_tutorial_character (ng_choice : newgame_def) : newgame_def :=
  set_weapon (set_job (set_species ng_choice SP_HUMAN) JOB_FIGHTER) WPN_FLAIL.

Section Resolution.
Context {EN : Enums} {RU : Rules} {PL : Platform}.

Definition _char_description (ng : newgame_def) : string :=
  if _is_random_viable_choice ng then "Recommended character"
  else if _is_random_choice ng then "Random character"
  else if _is_random_job (job ng) then
    let j := if job_eqb (job ng) JOB_RANDOM then "Random " else "Recommended " in
    String.append j (species_name (species ng))
  else if _is_random_species (species ng) then
    let s := if species_eqb (species ng) SP_RANDOM
             then "Random " else "Recommended " in
    String.append s (get_job_name (job ng))
  else String.append (species_name (species ng))
         (String.append " " (get_job_name (job ng))).

(** Modelled from the spec: [is_good_combination] is declared in ng-restr.h
    and its body is not part of this file.  The spec's two pools are "all
    values with RestrictionLevel != BANNED" and, for a recommended draw,
    "RestrictionLevel == UNRESTRICTED", against the field that is fixed:
    with [species_first] the species is the fixed field and the level is
    [job_allowed(species, job)], the one the background menu shows;
    otherwise it is [species_allowed(job, species)], the one the species
    menu shows. *)
Definition is_good_combination (spc : species_type) (j : job_type)
    (species_first good : bool) : bool :=
  let restrict := if species_first then job_allowed spc j
                  else species_allowed j spc in
  if negb good then negb (cc_eqb restrict CC_BANNED)
  else cc_eqb restrict CC_UNRESTRICTED.

(** Modelled from the spec: the enumerators' values are in ng-restr.h.  The
    post-resolution check [!job_allowed(...)] is the spec's "RestrictionLevel
    != BANNED" assertion, so [CC_BANNED] is the enumerator that converts to
    false. *)
Definition cc_to_bool (r : char_choice_restriction) : bool :=
  negb (cc_eqb r CC_BANNED).

(** [do { ng.species = RANDOM_ELEMENT(species_order); }
     while (!is_starting_species(ng.species));]
    RANDOM_ELEMENT(x) is [x[random2(ARRAYSZ(x))]]. *)
Fixpoint random_species_loop (fuel : nat) (ng : newgame_def)
    : Prog newgame_def :=
  match fuel with
  | 0 => fail HOutOfFuel
  | S fuel' =>
      i <- random2 (List.length species_order) ;;
      let ng := set_species ng (nth i species_order SP_UNKNOWN) in
      if negb (is_starting_species (species ng))
      then random_species_loop fuel' ng
      else Ret ng
  end.

(** [case SP_RANDOM:] of [_resolve_species], also reached by falling
    through from [case SP_VIABLE:]. *)
Definition species_case_random (fuel : nat) (ng : newgame_def)
    : Prog newgame_def :=
  if job_eqb (job ng) JOB_UNKNOWN then random_species_loop fuel ng
  else
    '(good_choices, ng) <-
       reservoir (fun sp => is_good_combination sp (job ng) false false)
                 (assigning (fun sp ng => set_species ng sp))
                 species_order 0 ng ;;
    if good_choices =? 0
    then fail (HEnd 1 "Failed to find legal species.")
    else Ret ng.

Definition _resolve_species (fuel : nat) (ng ng_choice : newgame_def)
    : Prog newgame_def :=
  (* Don't overwrite existing species. *)
  if negb (species_eqb (species ng) SP_UNKNOWN) then Ret ng
  else
    match species ng_choice with
    | SP_UNKNOWN => Ret (set_species ng SP_UNKNOWN)
    | SP_VIABLE =>
        '(good_choices, ng) <-
           reservoir (fun sp => is_good_combination sp (job ng) false true)
                     (assigning (fun sp ng => set_species ng sp))
                     species_order 0 ng ;;
        if negb (good_choices =? 0) then Ret ng
        else species_case_random fuel ng   (* intentional fall-through *)
    | SP_RANDOM => species_case_random fuel ng
    | sp => Ret (set_species ng sp)
    end.

(** The candidates of [for (int i = 0; i < NUM_JOBS; i++) job_type(i)]. *)
Definition job_candidates : list job_type :=
  List.map (fun i => job_type_of_int (Z.of_nat i)) (seq 0 NUM_JOBS).

(** [do { ng.job = job_type(random2(NUM_JOBS)); }
     while (!is_starting_job(ng.job));] *)
Fixpoint random_job_loop (fuel : nat) (ng : newgame_def) : Prog newgame_def :=
  match fuel with
  | 0 => fail HOutOfFuel
  | S fuel' =>
      i <- random2 NUM_JOBS ;;
      let ng := set_job ng (job_type_of_int (Z.of_nat i)) in
      if negb (is_starting_job (job ng))
      then random_job_loop fuel' ng
      else Ret ng
  end.

(** [case JOB_RANDOM:] of [_resolve_job]. *)
Definition job_case_random (fuel : nat) (ng : newgame_def)
    : Prog newgame_def :=
  if species_eqb (species ng) SP_UNKNOWN then random_job_loop fuel ng
  else
    '(good_choices, ng) <-
       reservoir (fun j => is_good_combination (species ng) j true false)
                 (fun j ng =>
                    if is_starting_job j then Ret (set_job ng j)
                    else fail (HAssert "is_starting_job(job)"))
                 job_candidates 0 ng ;;
    if good_choices =? 0
    then fail (HEnd 1 "Failed to find legal background.")
    else Ret ng.

Definition _resolve_job (fuel : nat) (ng ng_choice : newgame_def)
    : Prog newgame_def :=
  if negb (job_eqb (job ng) JOB_UNKNOWN) then Ret ng
  else
    match job ng_choice with
    | JOB_UNKNOWN => Ret (set_job ng JOB_UNKNOWN)
    | JOB_VIABLE =>
        '(good_choices, ng) <-
           reservoir (fun j => is_good_combination (species ng) j true true)
                     (assigning (fun j ng => set_job ng j))
                     job_candidates 0 ng ;;
        if negb (good_choices =? 0) then Ret ng
        else job_case_random fuel ng       (* intentional fall-through *)
    | JOB_RANDOM => job_case_random fuel ng
    | j => Ret (set_job ng j)
    end.

(** The condition [spfirst || !jobfirst && coinflip()] of
    [_resolve_species_job]: [coinflip()] is called only when neither flag
    is set. *)
Definition species_goes_first (ng_choice : newgame_def) : Prog bool :=
  let spfirst := negb (species_eqb (species ng_choice) SP_VIABLE)
                 && job_eqb (job ng_choice) JOB_VIABLE in
  let jobfirst := species_eqb (species ng_choice) SP_VIABLE
                  && negb (job_eqb (job ng_choice) JOB_VIABLE) in
  if spfirst then Ret true
  else if negb jobfirst then coinflip
  else Ret false.

(** The two branches of [_resolve_species_job]. *)
Definition species_then_job (fuel : nat) (ng ng_choice : newgame_def)
    : Prog newgame_def :=
  ng <- _resolve_species fuel ng ng_choice ;;
  _resolve_job fuel ng ng_choice.

Definition job_then_species (fuel : nat) (ng ng_choice : newgame_def)
    : Prog newgame_def :=
  ng <- _resolve_job fuel ng ng_choice ;;
  _resolve_species fuel ng ng_choice.

Definition _resolve_species_job (fuel : nat) (ng ng_choice : newgame_def)
    : Prog newgame_def :=
  b <- species_goes_first ng_choice ;;
  if b then species_then_job fuel ng ng_choice
  else job_then_species fuel ng ng_choice.

End Resolution.

(** ** Prompting for species and background *)

Section Prompting.
Context {EN : Enums} {RU : Rules} {PL : Platform}.

(** Set ng_choice to defaults without overwriting name and game type. *)
Definition _set_default_choice (ng ng_choice defaults : newgame_def)
    : newgame_def * newgame_def :=
  (* Reset ng so _resolve_species_job will work properly. *)
  let ng := clear_character ng in
  let name_ := name ng_choice in
  let type_ := type ng_choice in
  let ng_choice := defaults in
  (ng, set_type (set_name ng_choice name_) type_).

Definition _mark_fully_random (ng ng_choice : newgame_def) (viable : bool)
    : newgame_def * newgame_def :=
  (* Reset ng so _resolve_species_job will work properly. *)
  let ng := clear_character ng in
  let ng_choice := set_fully_random ng_choice true in
  if viable
  then (ng, set_job (set_species ng_choice SP_VIABLE) JOB_VIABLE)
  else (ng, set_job (set_species ng_choice SP_RANDOM) JOB_RANDOM).

(** The members of UINewGameMenu that its handlers write. *)
Record UINewGameMenu : Type := mk_menu {
  m_ng : newgame_def;
  m_ng_choice : newgame_def;
  done : bool;
  end_game : bool;
  cancel : bool
}.

(** UINewGameMenu::menu_item_activated.  [show_help] draws a screen and
    changes nothing here. *)
Definition menu_item_activated (m_choice_type : MenuChoices)
    (m_defaults : newgame_def) (id : Z) (m : UINewGameMenu) : UINewGameMenu :=
  let random_char (viable : bool) :=
    let '(ng, c) := _mark_fully_random (m_ng m) (m_ng_choice m) viable in
    mk_menu ng c true (end_game m) (cancel m) in
  if (id =? M_VIABLE_CHAR)%Z then random_char true
  else if (id =? M_RANDOM_CHAR)%Z then random_char false
  else if (id =? M_DEFAULT_CHOICE)%Z then
    if _char_defined m_defaults then
      let '(ng, c) := _set_default_choice (m_ng m) (m_ng_choice m) m_defaults in
      mk_menu ng c true (end_game m) (cancel m)
    else m  (* ignore default because we don't have previous start options *)
  else if (id =? M_ABORT)%Z then
    mk_menu (set_job (set_species (m_ng m) SP_UNKNOWN) JOB_UNKNOWN)
            (set_job (set_species (m_ng_choice m) SP_UNKNOWN) JOB_UNKNOWN)
            true (end_game m) (cancel m)
  else if (id =? M_HELP)%Z then m
  else if (id =? M_APTITUDES)%Z then m
  else if (id =? M_VIABLE)%Z then
    mk_menu (m_ng m)
            (match m_choice_type with
             | C_JOB => set_job (m_ng_choice m) JOB_VIABLE
             | C_SPECIES => set_species (m_ng_choice m) SP_VIABLE
             end) true (end_game m) (cancel m)
  else if (id =? M_RANDOM)%Z then
    mk_menu (m_ng m)
            (match m_choice_type with
             | C_JOB => set_job (m_ng_choice m) JOB_RANDOM
             | C_SPECIES => set_species (m_ng_choice m) SP_RANDOM
             end) true (end_game m) (cancel m)
  else
    (* we have a selection *)
    match m_choice_type with
    | C_JOB =>
        let j := job_type_of_int id in
        if species_eqb (species (m_ng m)) SP_UNKNOWN
           || negb (cc_eqb (job_allowed (species (m_ng m)) j) CC_BANNED)
        then mk_menu (m_ng m) (set_job (m_ng_choice m) j) true
                     (end_game m) (cancel m)
        else m
    | C_SPECIES =>
        let sp := species_type_of_int id in
        if job_eqb (job (m_ng m)) JOB_UNKNOWN
           || negb (cc_eqb (species_allowed (job (m_ng m)) sp) CC_BANNED)
        then mk_menu (m_ng m) (set_species (m_ng_choice m) sp) true
                     (end_game m) (cancel m)
        else m
    end.

(** UINewGameMenu::on_event for a key press.  The case labels of a switch
    are distinct, so testing them in order is the switch. *)
Definition on_event (m_choice_type : MenuChoices) (keyn : Z)
    (m : UINewGameMenu) : UINewGameMenu :=
  if (keyn =? CK_ENTER)%Z then m
  else if (keyn =? 88)%Z (* 'X' *) || (keyn =? CONTROL_Q)%Z then
    mk_menu (m_ng m) (m_ng_choice m) true true (cancel m)
  else if CASE_ESCAPE keyn || (keyn =? CK_MOUSE_CMD)%Z then
    mk_menu (m_ng m) (m_ng_choice m) true (end_game m) true
  else if (keyn =? CK_BKSP)%Z then
    mk_menu (m_ng m)
            (match m_choice_type with
             | C_JOB => set_job (m_ng_choice m) JOB_UNKNOWN
             | C_SPECIES => set_species (m_ng_choice m) SP_UNKNOWN
             end) true (end_game m) (cancel m)
  else m.

(** [while (!newgame_ui->done) ui::pump_events();] *)
Fixpoint newgame_ui_loop (fuel : nat) (choice_type : MenuChoices)
    (defaults : newgame_def) (m : UINewGameMenu) : Prog UINewGameMenu :=
  if done m then Ret m
  else
    match fuel with
    | 0 => fail HOutOfFuel
    | S fuel' =>
        ev <- pump_events ;;
        newgame_ui_loop fuel' choice_type defaults
          match ev with
          | EvKey keyn => on_event choice_type keyn m
          | EvActivate id => menu_item_activated choice_type defaults id m
          | EvOther => m
          end
    end.

(** Prompt for job or species menu.  Saves the choice to ng_choice, doesn't
    resolve random choices. *)
Definition _prompt_choice (fuel : nat) (choice_type : MenuChoices)
    (ng ng_choice defaults : newgame_def) : Prog (newgame_def * newgame_def) :=
  m <- newgame_ui_loop fuel choice_type defaults
         (mk_menu ng ng_choice false false false) ;;
  if end_game m then fail (HEnd 0 EmptyString)
  else
    stop <- (if cancel m then Ret true else seen_hups) ;;
    if stop then fail HGameEnded
    else Ret (m_ng m, m_ng_choice m).

(** The [while] of [_choose_species_job]. *)
Fixpoint choose_species_job_loop (fuel0 fuel : nat)
    (ng ng_choice defaults : newgame_def) : Prog (newgame_def * newgame_def) :=
  if species_eqb (species ng_choice) SP_UNKNOWN
     || job_eqb (job ng_choice) JOB_UNKNOWN
  then
    match fuel with
    | 0 => fail HOutOfFuel
    | S fuel' =>
        '(ng, ng_choice) <-
           (if species_eqb (species ng_choice) SP_UNKNOWN
            then _prompt_choice fuel0 C_SPECIES ng ng_choice defaults
            else Ret (ng, ng_choice)) ;;
        ng <- _resolve_species_job fuel0 ng ng_choice ;;
        '(ng, ng_choice) <-
           (if job_eqb (job ng_choice) JOB_UNKNOWN
            then _prompt_choice fuel0 C_JOB ng ng_choice defaults
            else Ret (ng, ng_choice)) ;;
        ng <- _resolve_species_job fuel0 ng ng_choice ;;
        choose_species_job_loop fuel0 fuel' ng ng_choice defaults
    end
  else Ret (ng, ng_choice).

(** The check that ends [_choose_species_job]. *)
Definition check_job_allowed (ng ng_choice : newgame_def)
    : Prog (newgame_def * newgame_def) :=
  if negb (cc_to_bool (job_allowed (species ng) (job ng))) then
    (* Either an invalid combination was passed in through options,
       or we messed up. *)
    fail (HEnd 1 (String.append "Incompatible species and background ("
                    (String.append (_char_description ng) ") selected.")))
  else Ret (ng, ng_choice).

Definition _choose_species_job (fuel : nat)
    (ng ng_choice defaults : newgame_def) : Prog (newgame_def * newgame_def) :=
  ng <- _resolve_species_job fuel ng ng_choice ;;
  '(ng, ng_choice) <- choose_species_job_loop fuel fuel ng ng_choice defaults ;;
  check_job_allowed ng ng_choice.

End Prompting.

(** ** The weapon sub-stage *)

Section Weapons.
Context {EN : Enums} {RU : Rules} {PL : Platform}.

(** [typedef pair<weapon_type, char_choice_restriction> weapon_choice;] *)
Definition weapon_choice : Type := (weapon_type * char_choice_restriction)%type.

Definition _fixup_weapon (wp : weapon_type) (weapons : list weapon_choice)
    : weapon_type :=
  if weapon_eqb wp WPN_UNKNOWN || weapon_eqb wp WPN_RANDOM
     || weapon_eqb wp WPN_VIABLE
  then wp
  else if existsb (fun choice => weapon_eqb wp (fst choice)) weapons then wp
  else WPN_UNKNOWN.

Definition _starting_weapon_upgrade (wp : weapon_type) (j : job_type)
    (sp : species_type) : weapon_type :=
  let fighter := job_eqb j JOB_FIGHTER in
  let size := species_size_torso sp in
  match wp with
  | WPN_SHORT_SWORD => WPN_RAPIER
  | WPN_MACE => WPN_FLAIL
  | WPN_HAND_AXE => WPN_WAR_AXE
  | WPN_SPEAR =>
      (* Small fighters can't use tridents with a shield. *)
      if fighter && (size <=? SIZE_SMALL)%Z then wp else WPN_TRIDENT
  | WPN_FALCHION => WPN_LONG_SWORD
  | _ => wp
  end.

(** The body of both [for] loops of [_get_weapons]: keep [wp] unless it is
    banned. *)
Definition push_unless_banned (ng : newgame_def) (wp : weapon_type)
    (weapons : list weapon_choice) : list weapon_choice :=
  let second := weapon_restriction wp ng in
  if negb (cc_eqb second CC_BANNED) then weapons ++ [(wp, second)]
  else weapons.

Definition _get_weapons (ng : newgame_def) : list weapon_choice :=
  if job_gets_ranged_weapons (job ng) then
    let startwep := [WPN_THROWN; WPN_HUNTING_SLING; WPN_SHORTBOW;
                     WPN_HAND_CROSSBOW] in
    fold_left (fun weapons wp => push_unless_banned ng wp weapons) startwep []
  else
    let startwep := [WPN_SHORT_SWORD; WPN_MACE; WPN_HAND_AXE; WPN_SPEAR;
                     WPN_FALCHION; WPN_QUARTERSTAFF; WPN_UNARMED] in
    fold_left
      (fun weapons wp =>
         let first := if job_gets_good_weapons (job ng)
                      then _starting_weapon_upgrade wp (job ng) (species ng)
                      else wp in
         push_unless_banned ng first weapons)
      startwep [].

(** [v[random2(v.size())]]: the element drawn; an index past the end is
    outside the vector. *)
Definition random_element {T : Type} (what : string) (v : list T) : Prog T :=
  i <- random2 (List.length v) ;;
  match nth_error v i with
  | Some x => Ret x
  | None => fail (HOutOfRange what)
  end.

(** [case WPN_RANDOM:] of [_resolve_weapon]. *)
Definition weapon_case_random (ng : newgame_def) (weapons : list weapon_choice)
    : Prog newgame_def :=
  choice <- random_element "weapons" weapons ;;
  Ret (set_weapon ng (fst choice)).

(** [switch (weapon)] of [_resolve_weapon]. *)
Definition resolve_weapon_switch (weapon_ : weapon_type)
    (ng ng_choice : newgame_def) (weapons : list weapon_choice)
    : Prog newgame_def :=
  match weapon_ with
  | WPN_VIABLE =>
      '(good_choices, ng) <-
         reservoir (fun choice => cc_eqb (snd choice) CC_UNRESTRICTED)
                   (assigning (fun choice ng => set_weapon ng (fst choice)))
                   weapons 0 ng ;;
      if negb (good_choices =? 0) then Ret ng
      else weapon_case_random ng weapons   (* intentional fall-through *)
  | WPN_RANDOM => weapon_case_random ng weapons
  | _ =>
      (* _fixup_weapon will return WPN_UNKNOWN, allowing the player
         to select the weapon, if the weapon option is incompatible. *)
      Ret (set_weapon ng (_fixup_weapon (weapon ng_choice) weapons))
  end.

Definition _resolve_weapon (ng ng_choice : newgame_def)
    (weapons : list weapon_choice) : Prog newgame_def :=
  weapon_ <-
    (if negb (List.length (allowed_weapons ng_choice) =? 0)
     then random_element "allowed_weapons" (allowed_weapons ng_choice)
     else Ret (weapon ng_choice)) ;;
  resolve_weapon_switch weapon_ ng ng_choice weapons.

(** The event loop of [_prompt_weapon].  [ui::run_layout(popup, done)] is
    in ui.cc; it pumps events until [done] is set or a hangup has been
    seen, the loop [_choose_name] writes out by hand.  A key press goes
    through the popup's event filter, a button activation through
    [menu_item_activated].  The result is [ret] and ng_choice. *)
Fixpoint prompt_weapon_loop (fuel : nat) (defweapon : weapon_type)
    (ng_choice : newgame_def) : Prog (bool * newgame_def) :=
  match fuel with
  | 0 => fail HOutOfFuel
  | S fuel' =>
      hup <- seen_hups ;;
      if hup then Ret (false, ng_choice)
      else
        ev <- pump_events ;;
        match ev with
        | EvKey key =>
            if (key =? 88)%Z (* 'X' *) || (key =? CONTROL_Q)%Z
            then fail (HEnd 0 EmptyString)
            else if (key =? 32)%Z (* ' ' *) || CASE_ESCAPE key
                    || (key =? CK_MOUSE_CMD)%Z
            then Ret (false, ng_choice)
            else prompt_weapon_loop fuel' defweapon ng_choice
        | EvActivate id =>
            if (id =? M_ABORT)%Z then Ret (false, ng_choice)
            else if (id =? M_APTITUDES)%Z
            then prompt_weapon_loop fuel' defweapon ng_choice
            else if (id =? M_HELP)%Z
            then prompt_weapon_loop fuel' defweapon ng_choice
            else if (id =? M_DEFAULT_CHOICE)%Z then
              if negb (weapon_eqb defweapon WPN_UNKNOWN)
              then Ret (true, set_weapon ng_choice defweapon)
              else prompt_weapon_loop fuel' defweapon ng_choice
            else if (id =? M_VIABLE)%Z
            then Ret (true, set_weapon ng_choice WPN_VIABLE)
            else if (id =? M_RANDOM)%Z
            then Ret (true, set_weapon ng_choice WPN_RANDOM)
            else Ret (true, set_weapon ng_choice (weapon_type_of_int id))
        | EvOther => prompt_weapon_loop fuel' defweapon ng_choice
        end
  end.

(** Returns false if user escapes. *)
Definition _prompt_weapon (fuel : nat) (ng ng_choice defaults : newgame_def)
    (weapons : list weapon_choice) : Prog (bool * newgame_def) :=
  let defweapon := _fixup_weapon (weapon defaults) weapons in
  prompt_weapon_loop fuel defweapon ng_choice.

(** Returns false if aborted, else an actual weapon choice is written to
    ng.weapon.  The result is the return value, ng and ng_choice. *)
Definition _choose_weapon (fuel : nat) (ng ng_choice defaults : newgame_def)
    : Prog (bool * newgame_def * newgame_def) :=
  (* No weapon use at all. The actual item will be removed later. *)
  if species_eqb (species ng) SP_FELID then Ret (true, ng, ng_choice)
  else if negb (job_has_weapon_choice (job ng)) then Ret (true, ng, ng_choice)
  else
    let weapons := _get_weapons ng in
    if List.length weapons =? 0 then fail (HAssert "!weapons.empty()")
    else if List.length weapons =? 1 then
      let first := fst (nth 0 weapons (WPN_UNKNOWN, CC_BANNED)) in
      Ret (true, set_weapon ng first, set_weapon ng_choice first)
    else
      ng <- _resolve_weapon ng ng_choice weapons ;;
      if weapon_eqb (weapon ng) WPN_UNKNOWN then
        '(ret, ng_choice) <- _prompt_weapon fuel ng ng_choice defaults weapons ;;
        if negb ret then Ret (false, ng, ng_choice)
        else
          ng <- _resolve_weapon ng ng_choice weapons ;;
          Ret (true, ng, ng_choice)
      else Ret (true, ng, ng_choice).

End Weapons.

(** ** The reroll loop *)

Section Reroll.
Context {EN : Enums} {RU : Rules} {PL : Platform}.

(** [char c; ... c = ev.key.keysym.sym;]: the int [keysym.sym] is stored
    in a char, which keeps its low 8 bits; read back, the char is a value
    of -128..127 where char is signed and of 0..255 where it is not. *)
Definition char_of_int (keyn : Z) : Z :=
  let low := Z.land keyn 255 in
  if char_is_signed && (128 <=? low)%Z then (low - 256)%Z else low.

(** The [ui::run_layout(popup, done)] of [_reroll_random]: the handler
    stores the first key pressed in the char [c] and sets [done].  [None]
    is the exit on a hangup, with [c] never written. *)
Fixpoint reroll_key_loop (fuel : nat) : Prog (option Z) :=
  match fuel with
  | 0 => fail HOutOfFuel
  | S fuel' =>
      hup <- seen_hups ;;
      if hup then Ret None
      else
        ev <- pump_events ;;
        match ev with
        | EvKey keyn => Ret (Some (char_of_int keyn))
        | _ => reroll_key_loop fuel'
        end
  end.

(** For completely random combinations (!, #, or Options.game.fully_random)
    reroll characters until the player accepts one of them or quits.
    True is the request to reroll. *)
Definition _reroll_random (fuel : nat) (ng : newgame_def) : Prog bool :=
  key <- reroll_key_loop fuel ;;
  match key with
  | None => fail HGameEnded     (* crawl_state.seen_hups *)
  | Some c =>
      quit <- (if key_is_escape c || (toalower c =? 113)%Z (* 'q' *)
               then Ret true else seen_hups) ;;
      if quit then fail HGameEnded
      else Ret ((toalower c =? 110)%Z (* 'n' *) || (c =? 9)%Z (* '\t' *)
                || (c =? 33)%Z (* '!' *) || (c =? 35)%Z (* '#' *))
  end.

(** [s.substr(pos)]: out of range when [pos] is past the end. *)
Definition substr_from (s : string) (pos : nat) : Prog string :=
  if String.length s <? pos then fail (HOutOfRange "basic_string::substr")
  else Ret (substring pos (String.length s - pos) s).

(** The species search of the combo block: [sp] is the last value the loop
    variable took, and the flag tells whether the loop left by [break]. *)
Fixpoint combo_species_scan (character : string) (ids : list nat)
    (sp : species_type) : species_type * bool :=
  match ids with
  | [] => (sp, false)
  | i :: rest =>
      let sp := species_type_of_int (Z.of_nat i) in
      if (String.length (species_name sp) <=? String.length character)
         && String.eqb (substring 0 (String.length (species_name sp)) character)
                       (species_name sp)
      then (sp, true)
      else combo_species_scan character rest sp
  end.

(** [if (choice.allowed_combos.size()) { ... }] *)
Definition choose_from_combos (choice : newgame_def) : Prog newgame_def :=
  let choice := set_weapon (set_job (set_species choice SP_UNKNOWN) JOB_UNKNOWN)
                           WPN_UNKNOWN in
  combo <- random_element "allowed_combos" (allowed_combos choice) ;;
  let parts := split_string "." combo in
  match parts with
  | [] => Ret choice
  | part0 :: more =>
      let character := trim_string part0 in
      choice <-
        (if String.length character =? 4 then
           Ret (set_job
                  (set_species choice
                     (get_species_by_abbrev (substring 0 2 character)))
                  (get_job_by_abbrev (substring 2 2 character)))
         else
           let '(sp, found) :=
             combo_species_scan character (seq 0 NUM_SPECIES) SP_UNKNOWN in
           let choice := if found then set_species choice sp else choice in
           if negb (species_eqb sp SP_UNKNOWN) then
             temp <- substr_from character (String.length (species_name sp)) ;;
             Ret (set_job choice (str_to_job (trim_string temp)))
           else Ret choice) ;;
      match more with
      | [] => Ret choice
      | part1 :: _ =>
          Ret (set_weapon choice (str_to_weapon (trim_string part1)))
      end
  end.

(** The [else] branch: one draw from each non-empty allow-list. *)
Definition choose_from_allowed (choice : newgame_def) : Prog newgame_def :=
  choice <-
    (if negb (List.length (allowed_species choice) =? 0) then
       sp <- random_element "allowed_species" (allowed_species choice) ;;
       Ret (set_species choice sp)
     else Ret choice) ;;
  choice <-
    (if negb (List.length (allowed_jobs choice) =? 0) then
       j <- random_element "allowed_jobs" (allowed_jobs choice) ;;
       Ret (set_job choice j)
     else Ret choice) ;;
  if negb (List.length (allowed_weapons choice) =? 0) then
    wp <- random_element "allowed_weapons" (allowed_weapons choice) ;;
    Ret (set_weapon choice wp)
  else Ret choice.

(** What one pass through the body of [while (true)] in [_choose_char]
    leaves: the function returns, or the loop goes round again with the
    given ng, choice and defaults. *)
Inductive attempt_result : Type :=
| AttemptDone (ng choice : newgame_def)                (* return *)
| AttemptRerolled (ng choice defaults : newgame_def)   (* continue *)
| AttemptChooseAgain (ng choice defaults : newgame_def).

(** The body from [if (choice.fully_random && _reroll_random(ng))] to its
    end: the confirmation prompt, then the weapon sub-stage. *)
Definition confirm_and_arm (fuel : nat) (ng_reset : newgame_def)
    (ng choice defaults : newgame_def) : Prog attempt_result :=
  reroll <- (if fully_random choice then _reroll_random fuel ng
             else Ret false) ;;
  if reroll then
    (* ng = ng_reset; continue; *)
    Ret (AttemptRerolled ng_reset choice defaults)
  else
    '(chosen, ng, choice) <- _choose_weapon fuel ng choice defaults ;;
    if chosen then
      (* We're done! *)
      Ret (AttemptDone ng choice)
    else
      (* Else choose again, name and type stays same.
         defaults = choice; ng = ng_reset; choice = ng_reset; *)
      Ret (AttemptChooseAgain ng_reset ng_reset choice).

Definition choose_char_attempt (fuel : nat) (ng_reset : newgame_def)
    (ng choice defaults : newgame_def) : Prog attempt_result :=
  choice <-
    (if negb (List.length (allowed_combos choice) =? 0)
     then choose_from_combos choice
     else choose_from_allowed choice) ;;
  '(ng, choice) <- _choose_species_job fuel ng choice defaults ;;
  confirm_and_arm fuel ng_reset ng choice defaults.

Fixpoint choose_char_loop (fuel0 fuel : nat) (ng_reset : newgame_def)
    (ng choice defaults : newgame_def) : Prog (newgame_def * newgame_def) :=
  match fuel with
  | 0 => fail HOutOfFuel
  | S fuel' =>
      r <- choose_char_attempt fuel0 ng_reset ng choice defaults ;;
      match r with
      | AttemptDone ng choice => Ret (ng, choice)
      | AttemptRerolled ng choice defaults
      | AttemptChooseAgain ng choice defaults =>
          choose_char_loop fuel0 fuel' ng_reset ng choice defaults
      end
  end.

(** [_choose_char], built without DGAMELAUNCH and TOURNEY.  [defaults] is
    passed by value; the result is ng and choice. *)
Definition _choose_char (fuel : nat) (ng choice defaults : newgame_def)
    : Prog (newgame_def * newgame_def) :=
  let ng_reset := ng in
  choice <-
    (if game_type_eqb (type ng) GAME_TYPE_TUTORIAL then
       Ret (clear_allowed (choose_tutorial_character choice))
     else if game_type_eqb (type ng) GAME_TYPE_HINTS then
       choice <- pick_hints choice ;;
       Ret (clear_allowed choice)
     else Ret choice) ;;
  choose_char_loop fuel fuel ng_reset ng choice defaults.

End Reroll.

(** ** The species and background menus

    The value of an enumerator as an int, the conversion C++ makes when a
    species_type or job_type is passed as the [int id] of a menu item.
    The values are in the headers of the enumerations. *)
Class EnumValues : Type := {
  species_to_int : species_type -> Z;
  job_to_int : job_type -> Z;
  game_type_to_int : game_type -> Z
}.

(** enum MenuItemStatuses *)
Inductive MenuItemStatuses : Type :=
| ITEM_STATUS_UNKNOWN | ITEM_STATUS_RESTRICTED | ITEM_STATUS_ALLOWED.

(** coord_def(x, y) *)
Definition coord_def : Type := (Z * Z)%type.

Definition coord_eqb (a b : coord_def) : bool :=
  (fst a =? fst b)%Z && (snd a =? snd b)%Z.

(** What the construction of a menu hands to [m_main_items], in call
    order: [_add_group_title] adds a label, [_add_group_item] a button and,
    with [focus], makes it the initial focus.  [letter] counts the
    increments of the menu_letter since 'a' (menu.h); the colours follow
    from [item_status] and are left out, as is the description looked up
    in the database. *)
Inductive menu_entry : Type :=
| GroupTitle (title : string) (position : coord_def)
| GroupItem (letter : nat) (id : Z) (item_status : MenuItemStatuses)
            (item_name : string) (focus : bool) (position : coord_def).

(** struct species_group (newgame.h) with the fields the table gives. *)
Record species_group : Type := mk_species_group {
  sg_name : string;
  sg_position : coord_def;
  sg_width : Z;
  species_list : list species_type
}.

Definition species_groups : list species_group :=
  [ mk_species_group "Simple" (0, 0)%Z 50
      [ SP_HILL_ORC; SP_MINOTAUR; SP_MERFOLK; SP_GARGOYLE;
        SP_BASE_DRACONIAN; SP_HALFLING; SP_TROLL; SP_GHOUL ];
    mk_species_group "Intermediate" (1, 0)%Z 20
      [ SP_HUMAN; SP_KOBOLD; SP_DEMONSPAWN; SP_CENTAUR; SP_SPRIGGAN;
        SP_TENGU; SP_DEEP_ELF; SP_OGRE; SP_DEEP_DWARF; SP_GNOLL ];
    mk_species_group "Advanced" (2, 0)%Z 20
      [ SP_VINE_STALKER; SP_VAMPIRE; SP_DEMIGOD; SP_FORMICID; SP_NAGA;
        SP_OCTOPODE; SP_FELID; SP_BARACHI; SP_MUMMY ] ].

(** The position and width [jobs_order] gives its groups, in order. *)
Definition jobs_order_layout : list (coord_def * Z) :=
  [ ((0, 0), 20); ((0, 7), 20); ((1, 0), 25); ((1, 5), 26); ((2, 0), 22) ]%Z.

Section Menus.
Context {EN : Enums} {EV : EnumValues} {RU : Rules} {PL : Platform}.

(** The [for] loop of [job_group::attach]: the items added, and the letter
    after the last one.  [pos] is the position of the previous item. *)
Fixpoint job_group_items (ng defaults : newgame_def) (jobs_ : list job_type)
    (letter : nat) (pos : coord_def) : list menu_entry * nat :=
  match jobs_ with
  | [] => ([], letter)
  | job_ :: rest =>
      if job_eqb job_ JOB_UNKNOWN then ([], letter)               (* break *)
      else if negb (species_eqb (species ng) SP_UNKNOWN)
              && cc_eqb (job_allowed (species ng) job_) CC_BANNED
      then job_group_items ng defaults rest letter pos          (* continue *)
      else
        let item_status :=
          if species_eqb (species ng) SP_UNKNOWN then ITEM_STATUS_UNKNOWN
          else if cc_eqb (job_allowed (species ng) job_) CC_RESTRICTED
          then ITEM_STATUS_RESTRICTED
          else ITEM_STATUS_ALLOWED in
        let is_active_item := job_eqb (job defaults) job_ in
        let pos := (fst pos, snd pos + 1)%Z in
        let '(items, letter') :=
          job_group_items ng defaults rest (S letter) pos in
        (GroupItem letter (job_to_int job_) item_status (get_job_name job_)
                   (is_active_item || coord_eqb pos (0, 1)%Z) pos :: items,
         letter')
  end.

(** job_group::attach *)
Definition job_group_attach (ng defaults : newgame_def) (group : job_group)
    (position : coord_def) (letter : nat) : list menu_entry * nat :=
  let '(items, letter) :=
    job_group_items ng defaults (jobs group) letter position in
  (GroupTitle (group_name group) position :: items, letter).

(** The [for] loop of [species_group::attach]. *)
Fixpoint species_group_items (ng defaults : newgame_def)
    (species_list_ : list species_type) (letter : nat) (pos : coord_def)
    : list menu_entry * nat :=
  match species_list_ with
  | [] => ([], letter)
  | this_species :: rest =>
      if species_eqb this_species SP_UNKNOWN then ([], letter)    (* break *)
      else if job_eqb (job ng) JOB_UNKNOWN
              && negb (is_starting_species this_species)
      then species_group_items ng defaults rest letter pos      (* continue *)
      else if negb (job_eqb (job ng) JOB_UNKNOWN)
              && cc_eqb (species_allowed (job ng) this_species) CC_BANNED
      then species_group_items ng defaults rest letter pos      (* continue *)
      else
        let item_status :=
          if job_eqb (job ng) JOB_UNKNOWN then ITEM_STATUS_UNKNOWN
          else if cc_eqb (species_allowed (job ng) this_species) CC_RESTRICTED
          then ITEM_STATUS_RESTRICTED
          else ITEM_STATUS_ALLOWED in
        let is_active_item := species_eqb (species defaults) this_species in
        let pos := (fst pos, snd pos + 1)%Z in
        let '(items, letter') :=
          species_group_items ng defaults rest (S letter) pos in
        (GroupItem letter (species_to_int this_species) item_status
                   (species_name this_species)
                   (is_active_item || coord_eqb pos (0, 1)%Z) pos :: items,
         letter')
  end.

(** species_group::attach *)
Definition species_group_attach (ng defaults : newgame_def)
    (group : species_group) (letter : nat) : list menu_entry * nat :=
  let '(items, letter) :=
    species_group_items ng defaults (species_list group) letter
      (sg_position group) in
  (GroupTitle (sg_name group) (sg_position group) :: items, letter).

(** The loop of [_construct_species_menu] over the groups that follow. *)
Fixpoint construct_species_groups (ng defaults : newgame_def)
    (groups : list species_group) (letter : nat) : list menu_entry :=
  match groups with
  | [] => []
  | group :: rest =>
      if job_eqb (job ng) JOB_UNKNOWN
         || existsb (fun sp => negb (cc_eqb (species_allowed (job ng) sp)
                                            CC_BANNED))
                    (species_list group)
      then
        let '(entries, letter) := species_group_attach ng defaults group letter in
        entries ++ construct_species_groups ng defaults rest letter
      else construct_species_groups ng defaults rest letter
  end.

(** Add entries for any species groups with at least one playable
    species. *)
Definition _construct_species_menu (ng defaults : newgame_def)
    : list menu_entry :=
  construct_species_groups ng defaults species_groups 0.

(** The loop of [_construct_backgrounds_menu], each group with its
    position. *)
Fixpoint construct_job_groups (ng defaults : newgame_def)
    (groups : list (job_group * (coord_def * Z))) (letter : nat)
    : list menu_entry :=
  match groups with
  | [] => []
  | (group, (position, _)) :: rest =>
      if species_eqb (species ng) SP_UNKNOWN
         || existsb (fun j => negb (cc_eqb (job_allowed (species ng) j)
                                           CC_BANNED))
                    (jobs group)
      then
        let '(entries, letter) :=
          job_group_attach ng defaults group position letter in
        entries ++ construct_job_groups ng defaults rest letter
      else construct_job_groups ng defaults rest letter
  end.

(** Add entries for any job groups with at least one playable
    background. *)
Definition _construct_backgrounds_menu (ng defaults : newgame_def)
    : list menu_entry :=
  construct_job_groups ng defaults (combine jobs_order jobs_order_layout) 0.

(** A button of [m_sub_items]: [_add_choice_menu_option(x, y, text, letter,
    id, desc)], the hotkey as its character code. *)
Record menu_option : Type := mk_menu_option {
  opt_x : Z; opt_y : Z;
  opt_text : string;
  opt_letter : Z;
  opt_id : Z;
  opt_desc : string
}.

(** UINewGameMenu::_add_choice_menu_options *)
Definition _add_choice_menu_options (choice_type : MenuChoices)
    (ng defaults : newgame_def) : list menu_option :=
  let choice_name := match choice_type with
                     | C_JOB => "background" | C_SPECIES => "species" end in
  let other_choice_name := match choice_type with
                           | C_JOB => "species" | C_SPECIES => "background"
                           end in
  let other_known :=
    match choice_type with
    | C_SPECIES => negb (job_eqb (job ng) JOB_UNKNOWN)
    | C_JOB => negb (species_eqb (species ng) SP_UNKNOWN)
    end in
  let text := match choice_type with
              | C_SPECIES => "+ - Recommended species"
              | C_JOB => "+ - Recommended background"
              end in
  (* If the player has species chosen, use VIABLE, otherwise use RANDOM *)
  let id := if other_known then M_VIABLE else M_RANDOM in
  let desc := String.append "Picks a random recommended "
                (String.append other_choice_name
                   (String.append " based on your current "
                      (String.append choice_name " choice."))) in
  [ mk_menu_option 0 0 text 43 (* '+' *) id desc;
    mk_menu_option 0 1 "# - Recommended character" 35 (* '#' *) M_VIABLE_CHAR
      "Shuffles through random recommended character combinations until you accept one.";
    mk_menu_option 0 2 "% - List aptitudes" 37 (* '%' *) M_APTITUDES
      "Lists the numerical skill train aptitudes for all races.";
    mk_menu_option 0 3 "? - Help" 63 (* '?' *) M_HELP
      "Opens the help screen.";
    mk_menu_option 1 0 (String.append "    * - Random " choice_name)
      42 (* '*' *) M_RANDOM
      (String.append "Picks a random " (String.append choice_name "."));
    mk_menu_option 1 1 "    ! - Random character" 33 (* '!' *) M_RANDOM_CHAR
      "Shuffles through random character combinations until you accept one.";
    (if other_known then
       mk_menu_option 1 2 (String.append "Space - Change " other_choice_name)
         32 (* ' ' *) M_ABORT
         (String.append "Lets you change your "
            (String.append other_choice_name " choice."))
     else
       mk_menu_option 1 2
         (String.append "Space - Pick "
            (String.append other_choice_name " first"))
         32 (* ' ' *) M_ABORT
         (String.append "Lets you pick your "
            (String.append other_choice_name " first."))) ]
  ++ (if _char_defined defaults then
        [ mk_menu_option 1 3
            (String.append "  Tab - " (_char_description defaults))
            9 (* '\t' *) M_DEFAULT_CHOICE
            "Play a new game with your previous choice." ]
      else []).

End Menus.

(** ** The map of a sprint or tutorial game

    The fields of map_def (maps.h) that newgame.cc reads; [desc_or_name]
    is the result of the method of that name. *)
Record map_def : Type := mk_map_def {
  map_name : string;       (* name *)
  order : Z;
  desc_or_name : string
}.

(** [ng.map = v] *)
Definition set_map (ng : newgame_def) (v : string) : newgame_def :=
  mk_newgame_def (name ng) (type ng) (filename ng) v (species ng) (job ng)
    (weapon ng) (fully_random ng) (allowed_combos ng) (allowed_species ng)
    (allowed_jobs ng) (allowed_weapons ng).

(** [s.empty()] *)
Definition string_empty (s : string) : bool :=
  match s with EmptyString => true | String _ _ => false end.

(** What maps.h, state.h and the standard library provide: the name of a
    game type, the maps tagged with it, the map pinned for this session
    ([crawl_state.sprint_map]) and [std::sort] with a comparison. *)
Class Levels : Type := {
  gametype_to_str : game_type -> string;
  find_maps_for_tag : string -> list map_def;
  sprint_map : string;
  std_sort : (map_def -> map_def -> bool) -> list map_def -> list map_def
}.

(** Compare two maps by their ORDER: header, falling back to desc or name
    if equal.  [<] on std::string is the lexicographic order of the
    character codes. *)
Definition _cmp_map_by_order (m1 m2 : map_def) : bool :=
  (order m1 <? order m2)%Z
  || (order m1 =? order m2)%Z
     && String.ltb (desc_or_name m1) (desc_or_name m2).

Section GameModeMap.
Context {EN : Enums} {EV : EnumValues} {RU : Rules} {PL : Platform}
        {LV : Levels}.

(** The [ui::run_layout(popup, done)] of [_prompt_gamemode_map], as in
    [prompt_weapon_loop]; [maps] is the sorted vector.  The result is
    [cancel], ng and ng_choice. *)
Fixpoint prompt_gamemode_map_loop (fuel : nat) (defaults : newgame_def)
    (maps : list map_def) (ng ng_choice : newgame_def)
    : Prog (bool * newgame_def * newgame_def) :=
  match fuel with
  | 0 => fail HOutOfFuel
  | S fuel' =>
      hup <- seen_hups ;;
      if hup then Ret (false, ng, ng_choice)
      else
        ev <- pump_events ;;
        match ev with
        | EvKey keyn =>
            if (keyn =? 88)%Z (* 'X' *) || (keyn =? CONTROL_Q)%Z
            then fail (HEnd 0 EmptyString)
            else if CASE_ESCAPE keyn then Ret (true, ng, ng_choice)
            else if (keyn =? 32)%Z (* ' ' *) then Ret (false, ng, ng_choice)
            else prompt_gamemode_map_loop fuel' defaults maps ng ng_choice
        | EvActivate id =>
            if (id =? M_ABORT)%Z then Ret (false, ng, ng_choice)
            else if (id =? M_APTITUDES)%Z
            then prompt_gamemode_map_loop fuel' defaults maps ng ng_choice
            else if (id =? M_HELP)%Z
            then prompt_gamemode_map_loop fuel' defaults maps ng ng_choice
            else if (id =? M_DEFAULT_CHOICE)%Z then
              let '(ng, ng_choice) :=
                _set_default_choice ng ng_choice defaults in
              Ret (false, ng, ng_choice)
            else if (id =? M_RANDOM)%Z
            then Ret (false, ng, set_map ng_choice EmptyString)
            else
              (* We got an item selection: maps.at(id) *)
              if (id <? 0)%Z then fail (HOutOfRange "vector::at")
              else
                match nth_error maps (Z.to_nat id) with
                | Some m => Ret (false, ng, set_map ng_choice (map_name m))
                | None => fail (HOutOfRange "vector::at")
                end
        | EvOther => prompt_gamemode_map_loop fuel' defaults maps ng ng_choice
        end
  end.

Definition _prompt_gamemode_map (fuel : nat) (ng ng_choice defaults : newgame_def)
    (maps : list map_def) : Prog (newgame_def * newgame_def) :=
  let maps := std_sort _cmp_map_by_order maps in
  '(cancel, ng, ng_choice) <-
     prompt_gamemode_map_loop fuel defaults maps ng ng_choice ;;
  stop <- (if cancel then Ret true else seen_hups) ;;
  if stop then fail HGameEnded
  else Ret (ng, ng_choice).

Definition _resolve_gamemode_map (ng ng_choice : newgame_def)
    (maps : list map_def) : Prog newgame_def :=
  if String.eqb (map ng_choice) "random" || string_empty (map ng_choice) then
    m <- random_element "maps" maps ;;
    Ret (set_map ng (map_name m))
  else Ret (set_map ng (map ng_choice)).

(** [end(1, true, "No %s maps found.", ...)] is kept as its exit code and
    message. *)
Definition _choose_gamemode_map (fuel : nat) (ng ng_choice defaults : newgame_def)
    : Prog (newgame_def * newgame_def) :=
  (* Sprint, otherwise Tutorial. *)
  let is_sprint := game_type_eqb (type ng_choice) GAME_TYPE_SPRINT in
  let type_name := gametype_to_str (type ng_choice) in
  let maps := find_maps_for_tag type_name in
  if List.length maps =? 0 then
    fail (HEnd 1 (String.append "No " (String.append type_name " maps found.")))
  else
    '(ng, ng_choice) <-
       (if string_empty (map ng_choice) then
          if is_sprint
             && (game_type_to_int (type ng_choice)
                 =? (if negb (string_empty sprint_map) then 1 else 0))%Z
          then Ret (ng, set_map ng_choice sprint_map)
          else if 1 <? List.length maps
          then _prompt_gamemode_map fuel ng ng_choice defaults maps
          else Ret (ng, set_map ng_choice
                          (map_name (nth 0 maps (mk_map_def EmptyString 0
                                                   EmptyString))))
        else Ret (ng, ng_choice)) ;;
    ng <- _resolve_gamemode_map ng ng_choice maps ;;
    Ret (ng, ng_choice).

End GameModeMap.

(** ** The player's name and [choose_game]

    What item-name.h, files.h, ng-input.h and cio.h provide: a random
    name, the file of a save and whether it exists, the test of a name,
    and the line reader that edits the buffer [buf] ([putkey] returns -1
    while the line is being edited, else the key that ended it). *)
Class Names : Type := {
  make_name : Prog string;
  get_save_filename : string -> string;
  save_exists : string -> bool;
  is_good_name : string -> bool -> bool;
  line_reader : Type;
  new_line_reader : line_reader;        (* on [buf] with [buf[0] = '\0'] *)
  putkey : line_reader -> Z -> line_reader * Z;
  reader_buf : line_reader -> string
}.

(** [ng.filename = v] *)
Definition set_filename (ng : newgame_def) (v : string) : newgame_def :=
  mk_newgame_def (name ng) (type ng) v (map ng) (species ng) (job ng)
    (weapon ng) (fully_random ng) (allowed_combos ng) (allowed_species ng)
    (allowed_jobs ng) (allowed_weapons ng).

Section PlayerName.
Context {EN : Enums} {EV : EnumValues} {RU : Rules} {PL : Platform}
        {LV : Levels} {NM : Names}.

(** [for (int i = 0; i < 100; ++i)] of [_random_name], with [n] passes
    left. *)
Fixpoint random_name_tries (n : nat) : Prog string :=
  match n with
  | 0 => Ret EmptyString
  | S n' =>
      name_ <- make_name ;;
      let filename_ := get_save_filename name_ in
      if negb (save_exists filename_) then Ret name_
      else random_name_tries n'
  end.

(** Attempt to generate a random name for a character that doesn't collide
    with an existing save name. *)
Definition _random_name : Prog string := random_name_tries 100.

(** The locals of [_choose_name] that its handler writes, with ng and
    choice. *)
Record name_prompt : Type := mk_name_prompt {
  np_reader : line_reader;
  np_done : bool;
  np_overwrite_prompt : bool;
  np_good_name : bool;
  np_cancel : bool;
  np_ng : newgame_def;
  np_choice : newgame_def
}.

(** The handler of [prompt_ui] for a key press. *)
Definition choose_name_key (key : Z) (s : name_prompt) : Prog name_prompt :=
  if negb (np_overwrite_prompt s) then
    let '(reader, key) := putkey (np_reader s) key in
    let good_name := is_good_name (reader_buf reader) true in
    if negb (key =? -1)%Z then
      if key_is_escape key then
        Ret (mk_name_prompt reader true (np_overwrite_prompt s) good_name true
               (np_ng s) (np_choice s))
      else
        let name_ := trim_string (reader_buf reader) in
        name_ <- (if string_empty name_ then _random_name else Ret name_) ;;
        let choice := set_name (np_choice s) name_ in
        if good_name then
          let ng := set_filename (set_name (np_ng s) (name choice))
                                 (get_save_filename (name choice)) in
          let overwrite_prompt := save_exists (filename ng) in
          Ret (mk_name_prompt reader
                 (if negb overwrite_prompt then true else np_done s)
                 overwrite_prompt good_name (np_cancel s) ng choice)
        else
          Ret (mk_name_prompt reader (np_done s) (np_overwrite_prompt s)
                 good_name (np_cancel s) (np_ng s) choice)
    else
      Ret (mk_name_prompt reader (np_done s) (np_overwrite_prompt s) good_name
             (np_cancel s) (np_ng s) (np_choice s))
  else
    Ret (mk_name_prompt (np_reader s)
           (if (key =? 89)%Z (* 'Y' *) then true else np_done s)
           false (np_good_name s) (np_cancel s) (np_ng s) (np_choice s)).

(** [while (!done && !crawl_state.seen_hups) { ...; ui::pump_events(); }] *)
Fixpoint choose_name_loop (fuel : nat) (s : name_prompt) : Prog name_prompt :=
  if np_done s then Ret s
  else
    match fuel with
    | 0 => fail HOutOfFuel
    | S fuel' =>
        hup <- seen_hups ;;
        if hup then Ret s
        else
          ev <- pump_events ;;
          s <- match ev with
               | EvKey key => choose_name_key key s
               | _ => Ret s
               end ;;
          choose_name_loop fuel' s
    end.

Definition _choose_name (fuel : nat) (ng choice : newgame_def)
    : Prog (newgame_def * newgame_def) :=
  s <- choose_name_loop fuel
         (mk_name_prompt new_line_reader false false true false ng choice) ;;
  stop <- (if np_cancel s then Ret true else seen_hups) ;;
  if stop then fail HGameEnded
  else Ret (np_ng s, np_choice s).

(** Read a choice of game into ng.  [dgamelaunch] tells whether the build
    defines DGAMELAUNCH (TOURNEY is not defined); the options file written
    at the end holds the request that is returned.  The result is the
    return value, ng and choice. *)
Definition choose_game (dgamelaunch : bool) (fuel : nat)
    (ng choice defaults : newgame_def)
    : Prog (bool * newgame_def * newgame_def) :=
  let ng := set_map (set_type (set_name ng (name choice)) (type choice))
                    (map choice) in
  '(ng, choice) <-
     (if game_type_eqb (type ng) GAME_TYPE_SPRINT
         || game_type_eqb (type ng) GAME_TYPE_TUTORIAL
      then _choose_gamemode_map fuel ng choice defaults
      else Ret (ng, choice)) ;;
  '(ng, choice) <- _choose_char fuel ng choice defaults ;;
  (* Set these again, since _mark_fully_random may reset ng. *)
  let ng := set_type (set_name ng (name choice)) (type choice) in
  '(ng, choice) <-
     (if negb dgamelaunch && string_empty (name choice)
      then _choose_name fuel ng choice
      else Ret (ng, choice)) ;;
  if string_empty (name ng) then fail (HEnd 1 "No player name specified.")
  else if negb (is_good_name (name ng) false
                && cc_to_bool (job_allowed (species ng) (job ng))
                && negb (game_type_eqb (type ng) NUM_GAME_TYPE))
  then fail (HAssert "is_good_name(ng.name, false) && job_allowed(ng.species, ng.job) && ng.type != NUM_GAME_TYPE")
  else Ret (false, ng, choice).

End PlayerName.

(** ** Vocabulary of the statements *)

(** A count as a rational. *)
Definition natQ (n : nat) : Q := inject_Z (Z.of_nat n).

(** How many of the candidates [sel], each assigned to state [s], end in an
    outcome of [E] that reports [n]. *)
Definition landing {C St : Type} (f : C -> St -> St)
    (E : outcome (nat * St) -> bool) (n : nat) (s : St) (sel : list C) : Q :=
  sumQ (List.map (fun c => indicator (E (Returned (n, f c s)))) sel).

(** The event "the program returned a value satisfying [P]". *)
Definition returns {A : Type} (P : A -> bool) : outcome A -> bool :=
  fun o => match o with Returned a => P a | _ => false end.

(** The program [p] leaves in the field [get] of what it returns the key of
    a candidate drawn uniformly from [cands]: the field lies in any set
    [target] with probability (number of candidates with their key in
    [target]) / (number of candidates); so, when no two candidates have
    the same key, each candidate is the one selected with probability
    exactly 1 / (number of candidates). *)
Definition draws_uniformly {A C K : Type} (key : C -> K) (get : A -> K)
    (cands : list C) (p : Prog A) : Prop :=
  (forall target : K -> bool,
     (pr p (returns (fun a => target (get a)))
      == natQ (List.length (filter (fun c => target (key c)) cands))
         / natQ (List.length cands))%Q)
  /\ (NoDup (List.map key cands) ->
      forall (c : C) (is_c : K -> bool),
        In c cands -> (forall x, is_c x = true <-> x = key c) ->
        (pr p (returns (fun a => is_c (get a)))
         == 1 / natQ (List.length cands))%Q).

(** Every value the program can return satisfies [P]. *)
Fixpoint leaves {A : Type} (P : A -> Prop) (p : Prog A) : Prop :=
  match p with
  | Ret a => P a
  | OneChanceIn _ k => forall b, leaves P (k b)
  | Coinflip k => forall b, leaves P (k b)
  | Random2 _ k => forall i, leaves P (k i)
  | PumpEvents k => forall e, leaves P (k e)
  | SeenHups k => forall b, leaves P (k b)
  | Halt _ => True
  end.

(** The outcome with [g] applied to a returned value. *)
Definition outcome_map {A B : Type} (g : A -> B) (o : outcome A) : outcome B :=
  match o with
  | Returned a => Returned (g a)
  | Stopped h => Stopped h
  | AwaitsInput => AwaitsInput
  end.

(** The first call a program makes. *)
Inductive call_kind : Type :=
| KRet | KOneChanceIn (n : nat) | KCoinflip | KRandom2 (n : nat)
| KPumpEvents | KSeenHups | KHalt.

Definition first_call {A : Type} (p : Prog A) : call_kind :=
  match p with
  | Ret _ => KRet
  | OneChanceIn n _ => KOneChanceIn n
  | Coinflip _ => KCoinflip
  | Random2 n _ => KRandom2 n
  | PumpEvents _ => KPumpEvents
  | SeenHups _ => KSeenHups
  | Halt _ => KHalt
  end.

(** The two fields [_resolve_species_job] resolves. *)
Inductive field : Type := FSpecies | FJob.

Definition other_field (f : field) : field :=
  match f with FSpecies => FJob | FJob => FSpecies end.

(** The request asks for a recommended value of the field. *)
Definition carries_viable (ng_choice : newgame_def) (f : field) : bool :=
  match f with
  | FSpecies => species_eqb (species ng_choice) SP_VIABLE
  | FJob => job_eqb (job ng_choice) JOB_VIABLE
  end.

Section Vocabulary.
Context {EN : Enums} {RU : Rules} {PL : Platform}.

(** The two resolution steps with the step of [first] run first. *)
Definition in_order (first : field) (fuel : nat) (ng ng_choice : newgame_def)
    : Prog newgame_def :=
  match first with
  | FSpecies => species_then_job fuel ng ng_choice
  | FJob => job_then_species fuel ng ng_choice
  end.

(** For the request [ng_choice], [_resolve_species_job] always runs the step
    of field [f] second. *)
Definition resolved_last (ng_choice : newgame_def) (f : field) : Prop :=
  forall fuel ng,
    _resolve_species_job fuel ng ng_choice
    = in_order (other_field f) fuel ng ng_choice.

(** The state of the loop of [_choose_char] at the start of a pass: ng,
    choice and defaults. *)
Definition loop_state : Type := (newgame_def * newgame_def * newgame_def)%type.

(** One pass that ends in the [continue] after [_reroll_random]: the state
    at the start of the next pass. *)
Definition rejected (fuel : nat) (ng_reset : newgame_def) (st : loop_state)
    (w : world) : option (loop_state * world) :=
  let '(ng, choice, defaults) := st in
  match run (choose_char_attempt fuel ng_reset ng choice defaults) w with
  | (Returned (AttemptRerolled ng' choice' defaults'), w') =>
      Some ((ng', choice', defaults'), w')
  | _ => None
  end.

(** The state at the start of pass [N + 1] when each of the first [N] passes
    was rejected. *)
Fixpoint after_rejections (N : nat) (fuel : nat) (ng_reset : newgame_def)
    (st : loop_state) (w : world) : option (loop_state * world) :=
  match N with
  | 0 => Some (st, w)
  | S N' =>
      match rejected fuel ng_reset st w with
      | Some (st', w') => after_rejections N' fuel ng_reset st' w'
      | None => None
      end
  end.

(** The job that [job_type(random2(NUM_JOBS))] yields from the raw value at
    tape position [p]. *)
Definition job_drawn_at (w : world) (p : nat) : job_type :=
  job_type_of_int (Z.of_nat (random2_of NUM_JOBS (tape w p))).

End Vocabulary.

(** The request has no allow-list. *)
Definition no_allow_lists (choice : newgame_def) : Prop :=
  allowed_combos choice = [] /\ allowed_species choice = []
  /\ allowed_jobs choice = [] /\ allowed_weapons choice = [].

(** ** Sample collaborators

    Concrete enumerations, rules and platform helpers on which the code
    can be run: two rule books (one that recommends everything, one that
    bans everything) and a user who is described by an event script. *)
Module Sample.

Definition all_jobs : list job_type :=
  flat_map jobs jobs_order.

Definition all_weapons : list weapon_type :=
  [ WPN_THROWN; WPN_HUNTING_SLING; WPN_SHORTBOW; WPN_HAND_CROSSBOW;
    WPN_SHORT_SWORD; WPN_MACE; WPN_HAND_AXE; WPN_SPEAR; WPN_FALCHION;
    WPN_QUARTERSTAFF; WPN_UNARMED;
    WPN_RAPIER; WPN_FLAIL; WPN_WAR_AXE; WPN_TRIDENT; WPN_LONG_SWORD ].

Definition enums : Enums :=
  {| NUM_SPECIES := 27;
     NUM_JOBS := 24;
     species_type_of_int := fun i =>
       if (i <? 0)%Z then SP_OTHER 0
       else nth (Z.to_nat i) species_order (SP_OTHER (Z.to_nat i));
     job_type_of_int := fun i =>
       if (i <? 0)%Z then JOB_OTHER 0
       else nth (Z.to_nat i) all_jobs (JOB_OTHER (Z.to_nat i));
     weapon_type_of_int := fun i =>
       if (i <? 0)%Z then WPN_OTHER 0
       else nth (Z.to_nat i) all_weapons (WPN_OTHER (Z.to_nat i)) |}.

(** A numbering with 25 jobs whose job 0 is not a starting job. *)
Definition sparse_enums : Enums :=
  {| NUM_SPECIES := 27;
     NUM_JOBS := 25;
     species_type_of_int := species_type_of_int (Enums := enums);
     job_type_of_int := fun i =>
       if (i <=? 0)%Z then JOB_OTHER 0
       else nth (Z.to_nat (i - 1)) all_jobs (JOB_OTHER (Z.to_nat i));
     weapon_type_of_int := weapon_type_of_int (Enums := enums) |}.

(** Every combination is recommended; only fighters and gladiators choose a
    weapon, and a fighter may only take a flail. *)
Definition permissive : Rules :=
  {| job_allowed := fun _ _ => CC_UNRESTRICTED;
     species_allowed := fun _ _ => CC_UNRESTRICTED;
     weapon_restriction := fun wp ng =>
       if job_eqb (job ng) JOB_FIGHTER
       then (if weapon_eqb wp WPN_FLAIL then CC_UNRESTRICTED else CC_BANNED)
       else CC_RESTRICTED;
     job_has_weapon_choice := fun j =>
       job_eqb j JOB_FIGHTER || job_eqb j JOB_GLADIATOR;
     job_gets_ranged_weapons := fun _ => false;
     job_gets_good_weapons := fun j => job_eqb j JOB_FIGHTER;
     species_size_torso := fun _ => 3%Z;
     SIZE_SMALL := 2%Z |}.

(** Every combination is banned. *)
Definition forbidding : Rules :=
  {| job_allowed := fun _ _ => CC_BANNED;
     species_allowed := fun _ _ => CC_BANNED;
     weapon_restriction := fun _ _ => CC_BANNED;
     job_has_weapon_choice := fun _ => true;
     job_gets_ranged_weapons := fun _ => false;
     job_gets_good_weapons := fun _ => false;
     species_size_torso := fun _ => 3%Z;
     SIZE_SMALL := 2%Z |}.

(** Every combination is playable and none is recommended. *)
Definition discouraging : Rules :=
  {| job_allowed := fun _ _ => CC_RESTRICTED;
     species_allowed := fun _ _ => CC_RESTRICTED;
     weapon_restriction := fun _ _ => CC_RESTRICTED;
     job_has_weapon_choice := fun _ => true;
     job_gets_ranged_weapons := fun _ => true;
     job_gets_good_weapons := fun _ => false;
     species_size_torso := fun _ => 3%Z;
     SIZE_SMALL := 2%Z |}.

(** Only humans and kobolds are recommended; nothing else is playable. *)
Definition two_species : Rules :=
  {| job_allowed := fun _ _ => CC_UNRESTRICTED;
     species_allowed := fun _ sp =>
       if species_eqb sp SP_HUMAN || species_eqb sp SP_KOBOLD
       then CC_UNRESTRICTED else CC_BANNED;
     weapon_restriction := fun _ _ => CC_RESTRICTED;
     job_has_weapon_choice := fun _ => false;
     job_gets_ranged_weapons := fun _ => false;
     job_gets_good_weapons := fun _ => false;
     species_size_torso := fun _ => 3%Z;
     SIZE_SMALL := 2%Z |}.

Definition platform : Platform :=
  {| species_name := fun _ => "species";
     get_job_name := fun _ => "background";
     get_species_by_abbrev := fun _ => SP_UNKNOWN;
     get_job_by_abbrev := fun _ => JOB_UNKNOWN;
     str_to_job := fun _ => JOB_UNKNOWN;
     str_to_weapon := fun _ => WPN_UNKNOWN;
     split_string := fun _ s => [s];
     trim_string := fun s => s;
     key_is_escape := fun k => (k =? 27)%Z;
     toalower := fun k =>
       if ((65 <=? k) && (k <=? 90))%Z then (k + 32)%Z else k;
     char_is_signed := true;
     CASE_ESCAPE := fun k => (k =? 27)%Z;
     CK_ENTER := 13%Z;
     CK_BKSP := 8%Z;
     CK_MOUSE_CMD := (-1009)%Z;
     CONTROL_Q := 17%Z;
     pick_hints := fun choice => Ret choice |}.

(** A world whose generator always yields 0, whose user performs the given
    events and then only produces non-key events, and with no hangup. *)
Definition scripted (script : list ui_event) : world :=
  mk_world (fun _ => 0) 0 (fun n => nth n script EvOther) 0 (fun _ => false).

(** A world whose generator yields the given raw values and then 0, with a
    silent user. *)
Definition drawing (raws : list nat) : world :=
  mk_world (fun n => nth n raws 0) 0 (fun _ => EvOther) 0 (fun _ => false).

End Sample.

(** ** Further vocabulary *)

(** The program makes no call to the UI: it pumps no event and does not
    read the hangup flag. *)
Fixpoint asks_nobody {A : Type} (p : Prog A) : Prop :=
  match p with
  | Ret _ => True
  | OneChanceIn _ k => forall b, asks_nobody (k b)
  | Coinflip k => forall b, asks_nobody (k b)
  | Random2 _ k => forall i, asks_nobody (k i)
  | PumpEvents _ => False
  | SeenHups _ => False
  | Halt _ => True
  end.

(** The program makes no call to the random source. *)
Fixpoint draws_nothing {A : Type} (p : Prog A) : Prop :=
  match p with
  | Ret _ => True
  | OneChanceIn _ _ => False
  | Coinflip _ => False
  | Random2 _ _ => False
  | PumpEvents k => forall e, draws_nothing (k e)
  | SeenHups k => forall b, draws_nothing (k b)
  | Halt _ => True
  end.

(** Two worlds with the same random tape, read from the same position. *)
Definition same_tape (w w' : world) : Prop :=
  tape w = tape w' /\ tape_pos w = tape_pos w'.

(** Two worlds with the same user: the same events, read from the same
    position, and the same hangups. *)
Definition same_user (w w' : world) : Prop :=
  events w = events w' /\ events_pos w = events_pos w'
  /\ hangup w = hangup w'.

(** The world after [n] more events have been delivered. *)
Definition skip_events (n : nat) (w : world) : world :=
  mk_world (tape w) (tape_pos w) (events w) (events_pos w + n) (hangup w).

(** The user's next [n] events are not key presses, and no hangup is seen
    before the event after them has been delivered. *)
Definition idles_for (n : nat) (w : world) : Prop :=
  (forall i, i <= n -> hangup w (events_pos w + i) = false)
  /\ (forall i, i < n -> forall k, events w (events_pos w + i) <> EvKey k).

Section MoreVocabulary.
Context {EN : Enums} {RU : Rules} {PL : Platform}.

(** What the species/background menu can leave in ng and in the request
    when it closes without quitting: the four groups of actions that set
    [done] in [menu_item_activated] and [on_event]. *)
Definition menu_exit (choice_type : MenuChoices)
    (ng ng_choice defaults ng' ng_choice' : newgame_def) : Prop :=
  (exists viable, (ng', ng_choice') = _mark_fully_random ng ng_choice viable)
  \/ (_char_defined defaults = true
      /\ (ng', ng_choice') = _set_default_choice ng ng_choice defaults)
  \/ (ng' = set_job (set_species ng SP_UNKNOWN) JOB_UNKNOWN
      /\ ng_choice' = set_job (set_species ng_choice SP_UNKNOWN) JOB_UNKNOWN)
  \/ (ng' = ng
      /\ match choice_type with
         | C_JOB =>
             exists j, ng_choice' = set_job ng_choice j
               /\ (j = JOB_VIABLE \/ j = JOB_RANDOM \/ j = JOB_UNKNOWN
                   \/ species ng = SP_UNKNOWN
                   \/ job_allowed (species ng) j <> CC_BANNED)
         | C_SPECIES =>
             exists sp, ng_choice' = set_species ng_choice sp
               /\ (sp = SP_VIABLE \/ sp = SP_RANDOM \/ sp = SP_UNKNOWN
                   \/ job ng = JOB_UNKNOWN
                   \/ species_allowed (job ng) sp <> CC_BANNED)
         end).

(** The weapons [_get_weapons] considers for ng, in the order of its
    tables: the four ranged weapons for a job with ranged weapons, else
    the seven melee entries, upgraded for a job with good weapons. *)
Definition starting_weapons (ng : newgame_def) : list weapon_type :=
  if job_gets_ranged_weapons (job ng) then
    [WPN_THROWN; WPN_HUNTING_SLING; WPN_SHORTBOW; WPN_HAND_CROSSBOW]
  else
    List.map
      (fun wp => if job_gets_good_weapons (job ng)
                 then _starting_weapon_upgrade wp (job ng) (species ng)
                 else wp)
      [WPN_SHORT_SWORD; WPN_MACE; WPN_HAND_AXE; WPN_SPEAR; WPN_FALCHION;
       WPN_QUARTERSTAFF; WPN_UNARMED].

(** The test of the species search of the combo block: [character] begins
    with the name of [sp]. *)
Definition begins_with_name (character : string) (sp : species_type) : bool :=
  (String.length (species_name sp) <=? String.length character)
  && String.eqb (substring 0 (String.length (species_name sp)) character)
                (species_name sp).

(** What the combo block leaves in the request once the species search has
    ended with the loop variable at [sp]: the job is read from [character]
    with as many characters cut off as the name of [sp] has, and the weapon
    from the second part of the combo, if there is one. *)
Definition combo_request (choice : newgame_def) (character : string)
    (sp : species_type) (more : list string) : newgame_def :=
  let choice :=
    set_job choice
      (str_to_job
         (trim_string
            (substring (String.length (species_name sp))
               (String.length character - String.length (species_name sp))
               character))) in
  match more with
  | [] => choice
  | part1 :: _ => set_weapon choice (str_to_weapon (trim_string part1))
  end.

End MoreVocabulary.

(** The ids and the letters of the items of a menu, in the order in which
    they were added. *)
Definition item_ids (entries : list menu_entry) : list Z :=
  flat_map (fun e => match e with
                     | GroupItem _ id _ _ _ _ => [id]
                     | GroupTitle _ _ => []
                     end) entries.

Definition item_letters (entries : list menu_entry) : list nat :=
  flat_map (fun e => match e with
                     | GroupItem letter _ _ _ _ _ => [letter]
                     | GroupTitle _ _ => []
                     end) entries.

Section MenuVocabulary.
Context {EN : Enums} {EV : EnumValues} {RU : Rules} {PL : Platform}.

(** The background is playable for ng: no species is fixed, or the
    background is not banned for it.  A species is playable when it is a
    starting species, if no background is fixed, and else when it is not
    banned for the background. *)
Definition job_shown (ng : newgame_def) (j : job_type) : bool :=
  species_eqb (species ng) SP_UNKNOWN
  || negb (cc_eqb (job_allowed (species ng) j) CC_BANNED).

Definition species_shown (ng : newgame_def) (sp : species_type) : bool :=
  if job_eqb (job ng) JOB_UNKNOWN then is_starting_species sp
  else negb (cc_eqb (species_allowed (job ng) sp) CC_BANNED).

(** The status with which a restriction level is shown. *)
Definition status_of (known : bool) (level : char_choice_restriction)
    : MenuItemStatuses :=
  if negb known then ITEM_STATUS_UNKNOWN
  else match level with
       | CC_RESTRICTED => ITEM_STATUS_RESTRICTED
       | _ => ITEM_STATUS_ALLOWED
       end.

End MenuVocabulary.

(** ** More sample collaborators *)
Module Fixtures.

(** The position of [x] in [l]. *)
Fixpoint index_of {T : Type} (eqb : T -> T -> bool) (x : T) (l : list T)
    : nat :=
  match l with
  | [] => 0
  | y :: rest => if eqb x y then 0 else S (index_of eqb x rest)
  end.

(** The values that go with [Sample.enums]: species and jobs numbered in
    table order. *)
Definition values : EnumValues :=
  {| species_to_int := fun sp =>
       Z.of_nat (index_of species_eqb sp species_order);
     job_to_int := fun j => Z.of_nat (index_of job_eqb j Sample.all_jobs);
     game_type_to_int := fun t =>
       match t with
       | GAME_TYPE_NORMAL => 1
       | GAME_TYPE_TUTORIAL => 2
       | GAME_TYPE_SPRINT => 4
       | GAME_TYPE_HINTS => 5
       | NUM_GAME_TYPE => 9
       | GAME_TYPE_OTHER n => 10 + Z.of_nat n
       end%Z |}.

End Fixtures.

(** The cell of [m_main_items] to which an entry was added. *)
Definition entry_position (e : menu_entry) : coord_def :=
  match e with
  | GroupTitle _ position => position
  | GroupItem _ _ _ _ _ position => position
  end.

(** The cells a group can take: its title at [position], and one cell
    below it in the same column for each of its [n] members. *)
Definition in_box (position : coord_def) (n : nat) (cell : coord_def) : Prop :=
  fst cell = fst position
  /\ (snd position <= snd cell <= snd position + Z.of_nat n)%Z.

(** The boxes of two groups have no cell in common. *)
Definition boxes_apart (a b : coord_def * nat) : bool :=
  negb (fst (fst a) =? fst (fst b))%Z
  || (snd (fst a) + Z.of_nat (snd a) <? snd (fst b))%Z
  || (snd (fst b) + Z.of_nat (snd b) <? snd (fst a))%Z.

(** The box lies in a menu of the given width and height. *)
Definition box_fits (width height : Z) (a : coord_def * nat) : bool :=
  (0 <=? fst (fst a))%Z && (fst (fst a) <? width)%Z
  && (0 <=? snd (fst a))%Z
  && (snd (fst a) + Z.of_nat (snd a) <? height)%Z.

(** The box of a group of [jobs_order] (with its position) and of a group
    of [species_groups]. *)
Definition job_group_box (g : job_group * (coord_def * Z)) : coord_def * nat :=
  (fst (snd g), List.length (jobs (fst g))).

Definition species_group_box (g : species_group) : coord_def * nat :=
  (sg_position g, List.length (species_list g)).

(** The same levels with another map pinned for the session. *)
Definition with_sprint_map (LV : Levels) (pinned : string) : Levels :=
  {| gametype_to_str := gametype_to_str (Levels := LV);
     find_maps_for_tag := find_maps_for_tag (Levels := LV);
     sprint_map := pinned;
     std_sort := std_sort (Levels := LV) |}.

Module MapFixtures.

(** An insertion sort, one way to meet the contract of std::sort. *)
Fixpoint insert_by {T : Type} (cmp : T -> T -> bool) (x : T) (l : list T)
    : list T :=
  match l with
  | [] => [x]
  | y :: rest => if cmp x y then x :: l else y :: insert_by cmp x rest
  end.

Definition sort_by {T : Type} (cmp : T -> T -> bool) (l : list T) : list T :=
  fold_right (insert_by cmp) [] l.

Definition lessons : list map_def :=
  [ mk_map_def "tutorial_lesson2" 2 "Lesson 2: Monsters and Combat";
    mk_map_def "tutorial_lesson1" 1 "Lesson 1: Movement and Exploration" ].

(** Two lessons for the tutorial, one sprint map, no map for any other
    game type, and a pinned sprint map. *)
Definition levels : Levels :=
  {| gametype_to_str := fun t =>
       match t with
       | GAME_TYPE_TUTORIAL => "tutorial"
       | GAME_TYPE_SPRINT => "sprint"
       | _ => "game"
       end;
     find_maps_for_tag := fun tag =>
       if String.eqb tag "tutorial" then lessons
       else if String.eqb tag "sprint"
       then [mk_map_def "sprint_mu" 1 "Sprint I: Red Sonja"]
       else [];
     sprint_map := "arena_sprint";
     std_sort := sort_by |}.

End MapFixtures.

Section NameVocabulary.
Context {PL : Platform} {NM : Names}.

(** What the handler of the name prompt keeps true of its state, for the
    ng and choice with which [_choose_name] was called: ng differs from
    [ng0] by name and filename only, the request from [choice0] by its
    name only, and once a name has been taken (the overwrite question is
    open, or the prompt is done without having been cancelled) ng holds
    the name of the request and the file of its save. *)
Definition name_prompt_inv (ng0 choice0 : newgame_def) (s : name_prompt)
    : Prop :=
  np_ng s = set_filename (set_name ng0 (name (np_ng s))) (filename (np_ng s))
  /\ np_choice s = set_name choice0 (name (np_choice s))
  /\ (np_overwrite_prompt s = true
      \/ (np_done s = true /\ np_cancel s = false) ->
      name (np_ng s) = name (np_choice s)
      /\ filename (np_ng s) = get_save_filename (name (np_choice s))).

End NameVocabulary.

Module NameFixtures.

(** A line reader that is its buffer: Enter and Escape end the line, every
    other key is appended.  Names ending in "x" are taken by a save, and
    only the empty name is refused when a blank is not allowed. *)
Definition names : Names :=
  {| make_name := Ret "Zed";
     get_save_filename := fun nm => String.append nm ".cs";
     save_exists := fun f => String.eqb f "Max.cs";
     is_good_name := fun nm blank_ok =>
       if string_empty nm then blank_ok else true;
     line_reader := string;
     new_line_reader := EmptyString;
     putkey := fun buf key =>
       if (key =? 13)%Z || (key =? 27)%Z then (buf, key)
       else (String.append buf
               (String (ascii_of_nat (Z.to_nat key)) EmptyString),
             (-1)%Z);
     reader_buf := fun buf => buf |}.

End NameFixtures.


(** * Properties *)

(** ** Reading bound programs *)

Lemma run_bind {A B : Type} (m : Prog A) (f : A -> Prog B) (w : world) :
  run (bind m f) w =
  match run m w with
  | (Returned a, w') => run (f a) w'
  | (Stopped h, w') => (Stopped h, w')
  | (AwaitsInput, w') => (AwaitsInput, w')
  end.
Proof.
  revert w; induction m as [a|n k IH|k IH|n k IH|k IH|k IH|h];
    intro w; cbn [bind run]; auto.
Qed.

Lemma run_ret {A : Type} (a : A) (w : world) : run (Ret a) w = (Returned a, w).
Proof. reflexivity. Qed.

Lemma run_bind_returned {A B : Type} (m : Prog A) (f : A -> Prog B)
    (w w' : world) (a : A) :
  run m w = (Returned a, w') -> run (bind m f) w = run (f a) w'.
Proof. intro E; rewrite run_bind, E; reflexivity. Qed.

Lemma run_bind_stopped {A B : Type} (m : Prog A) (f : A -> Prog B)
    (w w' : world) (h : halt) :
  run m w = (Stopped h, w') -> run (bind m f) w = (Stopped h, w').
Proof. intro E; rewrite run_bind, E; reflexivity. Qed.

(** [run] never reports [AwaitsInput]: the world answers every prompt. *)
Lemma run_answers {A : Type} (p : Prog A) (w : world) :
  fst (run p w) <> AwaitsInput.
Proof.
  revert w; induction p as [a|n k IH|k IH|n k IH|k IH|k IH|h];
    intro w; cbn [run]; auto; cbn; discriminate.
Qed.

(** From a returning run of [bind m f] back to the run of [m]. *)
Lemma run_bind_inv {A B : Type} (m : Prog A) (f : A -> Prog B)
    (w w' : world) (b : B) :
  run (bind m f) w = (Returned b, w') ->
  exists a w1, run m w = (Returned a, w1) /\ run (f a) w1 = (Returned b, w').
Proof.
  rewrite run_bind.
  destruct (run m w) as [[a|h|] w1]; intro E; try discriminate.
  exists a, w1; auto.
Qed.

(** ** Equality tests *)

Lemma species_eqb_eq (a b : species_type) : species_eqb a b = true <-> a = b.
Proof. unfold species_eqb; destruct (species_eq_dec a b); split; congruence. Qed.

Lemma species_eqb_neq (a b : species_type) : species_eqb a b = false <-> a <> b.
Proof. unfold species_eqb; destruct (species_eq_dec a b); split; congruence. Qed.

Lemma job_eqb_eq (a b : job_type) : job_eqb a b = true <-> a = b.
Proof. unfold job_eqb; destruct (job_eq_dec a b); split; congruence. Qed.

Lemma job_eqb_neq (a b : job_type) : job_eqb a b = false <-> a <> b.
Proof. unfold job_eqb; destruct (job_eq_dec a b); split; congruence. Qed.

Lemma weapon_eqb_eq (a b : weapon_type) : weapon_eqb a b = true <-> a = b.
Proof. unfold weapon_eqb; destruct (weapon_eq_dec a b); split; congruence. Qed.

Lemma cc_eqb_eq (a b : char_choice_restriction) : cc_eqb a b = true <-> a = b.
Proof. unfold cc_eqb; destruct (cc_eq_dec a b); split; congruence. Qed.

Lemma cc_eqb_neq (a b : char_choice_restriction) : cc_eqb a b = false <-> a <> b.
Proof. unfold cc_eqb; destruct (cc_eq_dec a b); split; congruence. Qed.

(** ** The probability reading *)

Lemma one_in_S (k : nat) : (one_in (S k) * natQ (S k) == 1)%Q.
Proof.
  unfold one_in, natQ, Qeq, Qmult; cbn [Qnum Qden].
  rewrite Pos.mul_1_r, Z.mul_1_r, Z.mul_1_l, Z.mul_1_l.
  rewrite <- positive_nat_Z, Nat2Pos.id by discriminate. reflexivity.
Qed.

Lemma natQ_S (k : nat) : (natQ (S k) == natQ k + 1)%Q.
Proof.
  unfold natQ.
  rewrite Nat2Z.inj_succ, <- Z.add_1_r, inject_Z_plus. reflexivity.
Qed.

Lemma natQ_pos (n : nat) : 1 <= n -> ~ (natQ n == 0)%Q.
Proof.
  intros Hn E. unfold natQ, Qeq in E. cbn in E. lia.
Qed.

Lemma sumQ_indicator {C : Type} (t : C -> bool) (l : list C) :
  (sumQ (List.map (fun c => indicator (t c)) l)
   == natQ (List.length (filter t l)))%Q.
Proof.
  induction l as [|c l IH]; cbn [List.map sumQ fold_right filter].
  - reflexivity.
  - fold (sumQ (List.map (fun c => indicator (t c)) l)). rewrite IH.
    destruct (t c); cbn [indicator List.length].
    + rewrite natQ_S. ring.
    + ring.
Qed.

Lemma sumQ_ones {A : Type} (g : A -> Q) (l : list A) :
  (forall a, g a == 1)%Q -> (sumQ (List.map g l) == natQ (List.length l))%Q.
Proof.
  intro Hg. induction l as [|a l IH]; cbn [List.map sumQ fold_right List.length].
  - reflexivity.
  - fold (sumQ (List.map g l)). rewrite IH, Hg, natQ_S. ring.
Qed.

Lemma one_in_max (n : nat) : (one_in n * natQ (Nat.max n 1) == 1)%Q.
Proof.
  destruct n as [|n].
  - reflexivity.
  - replace (Nat.max (S n) 1) with (S n) by lia. apply one_in_S.
Qed.

(** The outcomes of a program carry total weight 1. *)
Lemma pr_total {A : Type} (p : Prog A) : (pr p (fun _ => true) == 1)%Q.
Proof.
  induction p as [a|n k IH|k IH|n k IH|k IH|k IH|h]; cbn [pr indicator];
    try reflexivity.
  - rewrite (IH true), (IH false). ring.
  - rewrite (IH true), (IH false). reflexivity.
  - rewrite (sumQ_ones (fun i => pr (k i) (fun _ => true)) _ IH).
    rewrite length_seq. apply one_in_max.
Qed.

(** ** The reservoir draw *)

(** No candidate satisfies the predicate: the loop makes no draw, runs no
    body and leaves [good_choices] at its start value. *)
Lemma reservoir_none {C St : Type} (pred : C -> bool)
    (body : C -> St -> Prog St) (cands : list C) (k : nat) (s : St) :
  List.length (filter pred cands) = 0 ->
  reservoir pred body cands k s = Ret (k, s).
Proof.
  revert k s; induction cands as [|c rest IH]; intros k s HM; cbn in *; auto.
  destruct (pred c); cbn in *; [discriminate | auto].
Qed.

Section ReservoirDraw.
Context {C St : Type}.
Variable pred : C -> bool.
Variable f : C -> St -> St.
Hypothesis overwrite : forall c c' s, f c (f c' s) = f c s.

Lemma landing_overwrite E n c s sel :
  landing f E n (f c s) sel = landing f E n s sel.
Proof.
  unfold landing. f_equal. apply map_ext. intro c'. now rewrite overwrite.
Qed.

Lemma landing_cons E n c s sel :
  landing f E n s (c :: sel) =
  (indicator (E (Returned (n, f c s))) + landing f E n s sel)%Q.
Proof. reflexivity. Qed.

(** The invariant of the loop: with [k] satisfying candidates already seen
    and [M] still to come, the state the loop started from survives with
    weight k/(k+M) and each candidate to come is assigned with weight
    1/(k+M). *)
Lemma reservoir_mixture (E : outcome (nat * St) -> bool) (cands : list C) :
  forall (k : nat) (s : St),
  let M := List.length (filter pred cands) in
  (pr (reservoir pred (assigning f) cands k s) E * natQ (k + M)%nat ==
   natQ k * indicator (E (Returned ((k + M)%nat, s)))
   + landing f E (k + M)%nat s (filter pred cands))%Q.
Proof.
  induction cands as [|c rest IH]; intros k s; cbn zeta.
  - cbn. rewrite Nat.add_0_r. unfold landing; cbn. ring.
  - cbn [filter reservoir]. destruct (pred c) eqn:Hc.
    + cbn [List.length]. rewrite Nat.add_succ_r.
      unfold one_chance_in; cbn [bind pr].
      change (bind (assigning f c s)
                (fun s' => reservoir pred (assigning f) rest (S k) s'))
        with (reservoir pred (assigning f) rest (S k) (f c s)).
      pose proof (IH (S k) (f c s)) as H1.
      pose proof (IH (S k) s) as H2. cbn zeta in H1, H2.
      cbn [Nat.add] in H1, H2.
      rewrite landing_overwrite in H1.
      rewrite landing_cons.
      pose proof (one_in_S k) as Ha. pose proof (natQ_S k) as Hk.
      set (N := natQ (S (k + List.length (filter pred rest)))) in *.
      set (P1 := pr (reservoir pred (assigning f) rest (S k) (f c s)) E) in *.
      set (P2 := pr (reservoir pred (assigning f) rest (S k) s) E) in *.
      set (L := landing _ _ _ _ _) in *.
      set (x := indicator (E (Returned (_, f c s)))) in *.
      set (y := indicator (E (Returned (_, s)))) in *.
      set (a := one_in (S k)) in *.
      transitivity (a * (P1 * N) + (1 - a) * (P2 * N))%Q; [ring|].
      rewrite H1, H2. rewrite Hk in *.
      transitivity ((a * (natQ k + 1)) * x + (1 - a) * L + a * L
                    + (natQ k + 1) * y - (a * (natQ k + 1)) * y)%Q; [ring|].
      rewrite Ha. ring.
    + apply IH.
Qed.

(** Started with [good_choices = 0]: the chance of ending in [E] is the
    share of satisfying candidates whose assignment lies in [E]. *)
Lemma reservoir_share (E : outcome (nat * St) -> bool) (cands : list C)
    (s : St) :
  let M := List.length (filter pred cands) in
  1 <= M ->
  (pr (reservoir pred (assigning f) cands 0 s) E
   == landing f E M s (filter pred cands) / natQ M)%Q.
Proof.
  intros M HM. pose proof (reservoir_mixture E cands 0 s) as H.
  cbn zeta in H. cbn [Nat.add] in H. fold M in H.
  apply (Qmult_inj_r _ _ (natQ M)); [now apply natQ_pos|].
  rewrite H. change (natQ 0) with 0%Q. field. now apply natQ_pos.
Qed.

End ReservoirDraw.

Lemma filter_single {C : Type} (t : C -> bool) (c : C) (l : list C) :
  NoDup l -> In c l -> (forall x, t x = true <-> x = c) ->
  List.length (filter t l) = 1.
Proof.
  intros Hnd Hin Ht.
  assert (Hout : forall l', ~ In c l' -> filter t l' = []).
  { induction l' as [|x l' IH]; intro Hn; cbn; auto.
    destruct (t x) eqn:Hx.
    - apply Ht in Hx. subst x. exfalso. apply Hn. now left.
    - apply IH. intro H. apply Hn. now right. }
  induction Hnd as [|x l Hx Hnd IH]; [destruct Hin|].
  cbn [filter]. destruct Hin as [->|Hin].
  - rewrite (proj2 (Ht c) eq_refl). cbn. now rewrite (Hout l Hx).
  - destruct (t x) eqn:Htx.
    + apply Ht in Htx. subst x. contradiction.
    + now apply IH.
Qed.

(** ** Runs of the reservoir draw *)

Lemma first_chance_hits (raw : nat) : one_chance_in_of 1 raw = true.
Proof. reflexivity. Qed.

Lemma random2_of_lt (n raw : nat) : 1 <= n -> random2_of n raw < n.
Proof.
  intro H. unfold random2_of. destruct (n <=? 1) eqn:E.
  - lia.
  - apply Nat.mod_upper_bound. lia.
Qed.

Lemma filter_none {A : Type} (p : A -> bool) (l : list A) :
  (forall x, In x l -> p x = false) -> filter p l = [].
Proof.
  induction l as [|a l IH]; intro H; cbn; auto.
  rewrite (H a (or_introl eq_refl)). apply IH. intros x Hx. apply H. now right.
Qed.

Lemma filter_some {A : Type} (p : A -> bool) (l : list A) (x : A) :
  In x l -> p x = true -> 1 <= List.length (filter p l).
Proof.
  intros Hin Hp. assert (H : In x (filter p l)) by (apply filter_In; auto).
  destruct (filter p l); [destruct H | cbn; lia].
Qed.

Section ReservoirRun.
Context {C St : Type}.
Variables (pred ok : C -> bool) (f : C -> St -> St) (h : halt).
Hypothesis overwrite : forall c c' s, f c (f c' s) = f c s.

(** A run of the loop whose body asserts [ok c] before it assigns: it
    reports the number of satisfying candidates and leaves the assignment
    of one of them (always, when it started from [good_choices = 0] and a
    candidate satisfies the predicate), or it stops at the assertion. *)
Lemma reservoir_run (cands : list C) :
  forall (k : nat) (s : St) (w : world),
  let body := fun c s => if ok c then Ret (f c s) else fail h in
  let M := List.length (filter pred cands) in
  (exists s' w',
     run (reservoir pred body cands k s) w = (Returned (k + M, s'), w')
     /\ ((s' = s /\ (k = 0 -> M = 0))
         \/ exists c, In c (filter pred cands) /\ ok c = true /\ s' = f c s))
  \/ (exists w' c,
        run (reservoir pred body cands k s) w = (Stopped h, w')
        /\ In c (filter pred cands) /\ ok c = false).
Proof.
  induction cands as [|c rest IH]; intros k s w; cbn zeta.
  - left. exists s, w. cbn. rewrite Nat.add_0_r. auto.
  - cbn [filter reservoir]. destruct (pred c) eqn:Hc.
    + unfold one_chance_in. cbn [bind run List.length].
      rewrite Nat.add_succ_r.
      destruct (one_chance_in_of (S k) (next_raw w)) eqn:Hhit.
      * destruct (ok c) eqn:Hok.
        -- cbn [bind].
           destruct (IH (S k) (f c s) (skip_raw w))
             as [(s' & w' & Hr & Hs)|(w' & c' & Hr & Hin & Hc')].
           ++ left. exists s', w'. split; [exact Hr|]. right.
              destruct Hs as [[-> _]|(c' & Hin & Hok' & ->)].
              ** exists c. cbn. auto.
              ** exists c'. rewrite overwrite. cbn. auto.
           ++ right. exists w', c'. cbn. auto.
        -- right. exists (skip_raw w), c. cbn. auto.
      * assert (Hk : k <> 0).
        { intros ->. now rewrite first_chance_hits in Hhit. }
        cbn [bind].
        destruct (IH (S k) s (skip_raw w))
          as [(s' & w' & Hr & Hs)|(w' & c' & Hr & Hin & Hc')].
        -- left. exists s', w'. split; [exact Hr|].
           destruct Hs as [[-> _]|(c' & Hin & Hok' & ->)].
           ++ left. split; [reflexivity|]. intro; contradiction.
           ++ right. exists c'. cbn. auto.
        -- right. exists w', c'. cbn. auto.
    + destruct (IH k s w)
        as [(s' & w' & Hr & Hs)|(w' & c' & Hr & Hin & Hc')].
      * left. exists s', w'. auto.
      * right. exists w', c'. auto.
Qed.


End ReservoirRun.


(** ** Draws followed by a return *)

Lemma pr_bind_leaves {A B : Type} (P : A -> Prop) (g : A -> B)
    (m : Prog A) (f : A -> Prog B) (E : outcome B -> bool) :
  leaves P m -> (forall a, P a -> f a = Ret (g a)) ->
  pr (bind m f) E = pr m (fun o => E (outcome_map g o)).
Proof.
  intros Hl Hf.
  induction m as [a|n k IH|k IH|n k IH|k IH|k IH|h]; cbn [bind pr leaves] in *.
  - rewrite (Hf a Hl). reflexivity.
  - now rewrite (IH true (Hl true)), (IH false (Hl false)).
  - now rewrite (IH true (Hl true)), (IH false (Hl false)).
  - f_equal. f_equal. apply map_ext. intro i. now apply IH.
  - reflexivity.
  - reflexivity.
  - reflexivity.
Qed.

Lemma reservoir_leaves {C St : Type} (pred : C -> bool) (f : C -> St -> St)
    (cands : list C) :
  forall (k : nat) (s : St),
  leaves (fun r => fst r = k + List.length (filter pred cands))
         (reservoir pred (assigning f) cands k s).
Proof.
  induction cands as [|c rest IH]; intros k s; cbn [reservoir filter].
  - cbn. lia.
  - destruct (pred c).
    + unfold one_chance_in. cbn [bind leaves List.length]. intro b.
      rewrite Nat.add_succ_r.
      destruct b; cbn [bind assigning]; apply (IH (S k)).
    + apply IH.
Qed.

Lemma draw_then_return {C St : Type} (pred : C -> bool) (f : C -> St -> St)
    (cands : list C) (s : St) (k : nat * St -> Prog St) (E : St -> bool) :
  (forall c c' s, f c (f c' s) = f c s) ->
  1 <= List.length (filter pred cands) ->
  (forall n s', 1 <= n -> k (n, s') = Ret s') ->
  (pr (bind (reservoir pred (assigning f) cands 0 s) k) (returns E)
   == natQ (List.length (filter (fun c => E (f c s)) (filter pred cands)))
      / natQ (List.length (filter pred cands)))%Q.
Proof.
  intros Hov HM Hk.
  rewrite (pr_bind_leaves
             (fun r => fst r = List.length (filter pred cands)) snd).
  - rewrite (reservoir_share pred f Hov _ cands s HM). unfold landing.
    cbn [outcome_map returns snd]. now rewrite sumQ_indicator.
  - apply (reservoir_leaves pred f cands 0 s).
  - intros [n s'] Hn. cbn [fst snd] in *. apply Hk. lia.
Qed.

Lemma filter_map_length {C K : Type} (key : C -> K) (t : K -> bool)
    (l : list C) :
  List.length (filter (fun c => t (key c)) l)
  = List.length (filter t (List.map key l)).
Proof.
  induction l as [|c l IH]; cbn [filter List.map]; [reflexivity|].
  destruct (t (key c)); cbn [List.length]; now rewrite IH.
Qed.

(** The share of every target set gives the share of every candidate. *)
Lemma draws_uniformly_of_shares {A C K : Type} (key : C -> K) (get : A -> K)
    (cands : list C) (p : Prog A) :
  (forall target : K -> bool,
     (pr p (returns (fun a => target (get a)))
      == natQ (List.length (filter (fun c => target (key c)) cands))
         / natQ (List.length cands))%Q) ->
  draws_uniformly key get cands p.
Proof.
  intro H. split; [exact H|].
  intros Hnd c is_c Hin His. rewrite (H is_c).
  rewrite filter_map_length.
  rewrite (filter_single is_c (key c) (List.map key cands) Hnd);
    [reflexivity|now apply in_map|exact His].
Qed.

(** A loop whose body asserts a condition that every satisfying candidate
    meets is the loop with the plain assignment. *)
Lemma reservoir_guard_pr {C St B : Type} (pred ok : C -> bool)
    (f : C -> St -> St) (h : halt) (cands : list C) :
  (forall c, In c cands -> pred c = true -> ok c = true) ->
  forall (k : nat) (s : St) (kont : nat * St -> Prog B)
         (E : outcome B -> bool),
  pr (bind (reservoir pred (fun c s => if ok c then Ret (f c s) else fail h)
              cands k s) kont) E
  = pr (bind (reservoir pred (assigning f) cands k s) kont) E.
Proof.
  induction cands as [|c rest IH]; intros Hok k s kont E;
    cbn [reservoir]; [reflexivity|].
  assert (Hrest : forall c', In c' rest -> pred c' = true -> ok c' = true)
    by (intros c' Hin; apply Hok; now right).
  destruct (pred c) eqn:Hc.
  - rewrite (Hok c (or_introl eq_refl) Hc).
    unfold one_chance_in, assigning. cbn [bind pr].
    now rewrite !(IH Hrest).
  - now apply IH.
Qed.

(** ** Single-field resolution *)

Section FieldSteps.
Context {EN : Enums} {RU : Rules}.

Lemma resolve_species_known (fuel : nat) (ng ng_choice : newgame_def) :
  species ng <> SP_UNKNOWN -> _resolve_species fuel ng ng_choice = Ret ng.
Proof.
  intro H. unfold _resolve_species.
  now rewrite (proj2 (species_eqb_neq _ _) H).
Qed.

Lemma resolve_job_known (fuel : nat) (ng ng_choice : newgame_def) :
  job ng <> JOB_UNKNOWN -> _resolve_job fuel ng ng_choice = Ret ng.
Proof.
  intro H. unfold _resolve_job.
  now rewrite (proj2 (job_eqb_neq _ _) H).
Qed.

End FieldSteps.

Lemma set_species_same (ng : newgame_def) : set_species ng (species ng) = ng.
Proof. now destruct ng. Qed.

Lemma set_job_same (ng : newgame_def) : set_job ng (job ng) = ng.
Proof. now destruct ng. Qed.

(** A returning run of the loop leaves the state it was given or the
    assignment of a candidate. *)
Lemma reservoir_run_state {C St : Type} (pred ok : C -> bool)
    (f : C -> St -> St) (h : halt) (cands : list C) (s : St) (w : world)
    (n : nat) (s' : St) (w' : world) :
  (forall c c' s, f c (f c' s) = f c s) ->
  run (reservoir pred (fun c s => if ok c then Ret (f c s) else fail h)
         cands 0 s) w = (Returned (n, s'), w') ->
  s' = s \/ exists c, s' = f c s.
Proof.
  intros Hov H.
  destruct (reservoir_run pred ok f h Hov cands 0 s w)
    as [(s1 & w1 & Hr & Hs)|(w1 & c & Hr & _)].
  - rewrite Hr in H. inversion H; subst.
    destruct Hs as [[-> _]|(c & _ & _ & ->)]; eauto.
  - rewrite Hr in H. discriminate.
Qed.

Section Frame.
Context {EN : Enums} {RU : Rules}.

Lemma random_species_loop_frame (fuel : nat) :
  forall (ng : newgame_def) (w : world) (ng1 : newgame_def) (w1 : world),
  run (random_species_loop fuel ng) w = (Returned ng1, w1) ->
  ng1 = set_species ng (species ng1).
Proof.
  induction fuel as [|fuel IH]; intros ng w ng1 w1 H;
    cbn [random_species_loop] in H.
  - discriminate.
  - unfold random2 in H. cbn [bind run] in H.
    destruct (negb _) in H.
    + apply IH in H. rewrite H at 1. reflexivity.
    + cbn [run] in H. inversion H. reflexivity.
Qed.

Lemma random_job_loop_frame (fuel : nat) :
  forall (ng : newgame_def) (w : world) (ng1 : newgame_def) (w1 : world),
  run (random_job_loop fuel ng) w = (Returned ng1, w1) ->
  ng1 = set_job ng (job ng1).
Proof.
  induction fuel as [|fuel IH]; intros ng w ng1 w1 H;
    cbn [random_job_loop] in H.
  - discriminate.
  - unfold random2 in H. cbn [bind run] in H.
    destruct (negb _) in H.
    + apply IH in H. rewrite H at 1. reflexivity.
    + cbn [run] in H. inversion H. reflexivity.
Qed.

Lemma species_case_random_frame (fuel : nat) (ng : newgame_def) (w : world)
    (ng1 : newgame_def) (w1 : world) :
  run (species_case_random fuel ng) w = (Returned ng1, w1) ->
  ng1 = set_species ng (species ng1).
Proof.
  unfold species_case_random. destruct (job_eqb (job ng) JOB_UNKNOWN).
  - apply random_species_loop_frame.
  - intro H. apply run_bind_inv in H.
    destruct H as ([n s'] & w0 & Hr & H).
    apply (reservoir_run_state _ (fun _ => true) (fun sp ng => set_species ng sp)
             HOutOfFuel) in Hr; [|reflexivity].
    destruct (n =? 0); cbn [run fail] in H; [discriminate|].
    inversion H; subst.
    destruct Hr as [->|[c ->]]; [symmetry; apply set_species_same|reflexivity].
Qed.

Lemma job_case_random_frame (fuel : nat) (ng : newgame_def) (w : world)
    (ng1 : newgame_def) (w1 : world) :
  run (job_case_random fuel ng) w = (Returned ng1, w1) ->
  ng1 = set_job ng (job ng1).
Proof.
  unfold job_case_random. destruct (species_eqb (species ng) SP_UNKNOWN).
  - apply random_job_loop_frame.
  - intro H. apply run_bind_inv in H.
    destruct H as ([n s'] & w0 & Hr & H).
    apply (reservoir_run_state _ is_starting_job (fun j ng => set_job ng j)
             (HAssert "is_starting_job(job)")) in Hr; [|reflexivity].
    destruct (n =? 0); cbn [run fail] in H; [discriminate|].
    inversion H; subst.
    destruct Hr as [->|[c ->]]; [symmetry; apply set_job_same|reflexivity].
Qed.

(** [_resolve_species] writes no field but ng.species. *)
Lemma resolve_species_frame (fuel : nat) (ng ng_choice : newgame_def)
    (w : world) (ng1 : newgame_def) (w1 : world) :
  run (_resolve_species fuel ng ng_choice) w = (Returned ng1, w1) ->
  ng1 = set_species ng (species ng1).
Proof.
  unfold _resolve_species.
  destruct (negb (species_eqb (species ng) SP_UNKNOWN)).
  - rewrite run_ret. intro H. injection H as <- _.
    symmetry. apply set_species_same.
  - destruct (species ng_choice);
      try (rewrite run_ret; intro H; injection H as <- _; reflexivity).
    + apply species_case_random_frame.
    + intro H. apply run_bind_inv in H.
      destruct H as ([n s'] & w0 & Hr & H).
      apply (reservoir_run_state _ (fun _ => true)
               (fun sp ng => set_species ng sp) HOutOfFuel) in Hr;
        [|reflexivity].
      destruct (negb (n =? 0)).
      * cbn [run] in H. inversion H; subst.
        destruct Hr as [->|[c ->]];
          [symmetry; apply set_species_same|reflexivity].
      * apply species_case_random_frame in H.
        destruct Hr as [->|[c ->]]; [exact H|].
        rewrite H at 1. reflexivity.
Qed.

(** [_resolve_job] writes no field but ng.job. *)
Lemma resolve_job_frame (fuel : nat) (ng ng_choice : newgame_def)
    (w : world) (ng1 : newgame_def) (w1 : world) :
  run (_resolve_job fuel ng ng_choice) w = (Returned ng1, w1) ->
  ng1 = set_job ng (job ng1).
Proof.
  unfold _resolve_job.
  destruct (negb (job_eqb (job ng) JOB_UNKNOWN)).
  - rewrite run_ret. intro H. injection H as <- _.
    symmetry. apply set_job_same.
  - destruct (job ng_choice);
      try (rewrite run_ret; intro H; injection H as <- _; reflexivity).
    + apply job_case_random_frame.
    + intro H. apply run_bind_inv in H.
      destruct H as ([n s'] & w0 & Hr & H).
      apply (reservoir_run_state _ (fun _ => true)
               (fun j ng => set_job ng j) HOutOfFuel) in Hr;
        [|reflexivity].
      destruct (negb (n =? 0)).
      * cbn [run] in H. inversion H; subst.
        destruct Hr as [->|[c ->]];
          [symmetry; apply set_job_same|reflexivity].
      * apply job_case_random_frame in H.
        destruct Hr as [->|[c ->]]; [exact H|].
        rewrite H at 1. reflexivity.
Qed.

End Frame.

Section KnownFields.
Context {EN : Enums} {RU : Rules}.

(** C6. A resolution step never reassigns a known field.  When ng.species
    is not SP_UNKNOWN, [_resolve_species] is the program that returns ng
    as it is, whatever the request and without any draw; likewise
    [_resolve_job] when ng.job is not JOB_UNKNOWN.  So running the step a
    second time, under any request, after a first run has left the field
    concrete, ends with the record and the world the first run ended
    with.  And a step writes its own field only: whatever
    [_resolve_species] returns differs from ng in ng.species at most, and
    whatever [_resolve_job] returns in ng.job at most. *)
Theorem resolve_never_reassigns (fuel : nat) (ng ng_choice : newgame_def) :
  (species ng <> SP_UNKNOWN -> _resolve_species fuel ng ng_choice = Ret ng)
  /\ (job ng <> JOB_UNKNOWN -> _resolve_job fuel ng ng_choice = Ret ng)
  /\ (forall w ng1 w1,
        run (_resolve_species fuel ng ng_choice) w = (Returned ng1, w1) ->
        species ng1 <> SP_UNKNOWN ->
        forall fuel' ng_choice',
          run (ng1 <- _resolve_species fuel ng ng_choice ;;
               _resolve_species fuel' ng1 ng_choice') w
          = (Returned ng1, w1))
  /\ (forall w ng1 w1,
        run (_resolve_job fuel ng ng_choice) w = (Returned ng1, w1) ->
        job ng1 <> JOB_UNKNOWN ->
        forall fuel' ng_choice',
          run (ng1 <- _resolve_job fuel ng ng_choice ;;
               _resolve_job fuel' ng1 ng_choice') w
          = (Returned ng1, w1))
  /\ (forall w ng1 w1,
        run (_resolve_species fuel ng ng_choice) w = (Returned ng1, w1) ->
        ng1 = set_species ng (species ng1))
  /\ (forall w ng1 w1,
        run (_resolve_job fuel ng ng_choice) w = (Returned ng1, w1) ->
        ng1 = set_job ng (job ng1)).
Proof.
  split; [|split; [|split; [|split; [|split]]]].
  - apply resolve_species_known.
  - apply resolve_job_known.
  - intros w ng1 w1 H0 H1 fuel' c'.
    rewrite (run_bind_returned _ _ _ _ _ H0).
    now rewrite (resolve_species_known fuel' ng1 c' H1).
  - intros w ng1 w1 H0 H1 fuel' c'.
    rewrite (run_bind_returned _ _ _ _ _ H0).
    now rewrite (resolve_job_known fuel' ng1 c' H1).
  - intros w ng1 w1. apply resolve_species_frame.
  - intros w ng1 w1. apply resolve_job_frame.
Qed.

End KnownFields.

(** A minotaur berserker stays one under a request for a random species
    and a recommended background, and a human drawn by a first step is
    kept by a second one that asks for a kobold. *)
Lemma resolve_never_reassigns_witness :
  let ng := set_job (set_species newgame_def_init SP_MINOTAUR) JOB_BERSERKER in
  let ng_choice := set_job (set_species newgame_def_init SP_RANDOM) JOB_VIABLE in
  @_resolve_species Sample.permissive 1 ng ng_choice = Ret ng
  /\ @_resolve_job Sample.enums Sample.permissive 1 ng ng_choice = Ret ng
  /\ run (ng1 <- @_resolve_species Sample.permissive 1 newgame_def_init
                   ng_choice ;;
          @_resolve_species Sample.permissive 1 ng1
                   (set_species newgame_def_init SP_KOBOLD))
         (Sample.scripted [])
     = (Returned (set_species newgame_def_init SP_HUMAN),
        skip_raw (Sample.scripted [])).
Proof.
  intros ng ng_choice.
  pose proof (@resolve_never_reassigns Sample.enums Sample.permissive
                1 ng ng_choice) as [Hs [Hj _]].
  pose proof (@resolve_never_reassigns Sample.enums Sample.permissive
                1 newgame_def_init ng_choice) as [_ [_ [Hs2 _]]].
  split; [|split].
  - apply Hs. discriminate.
  - apply Hj. discriminate.
  - apply (Hs2 (Sample.scripted []) (set_species newgame_def_init SP_HUMAN)
               (skip_raw (Sample.scripted []))).
    + vm_compute. reflexivity.
    + discriminate.
Defined.

(** ** Empty pools *)

Section Pools.
Context {EN : Enums} {RU : Rules}.

Lemma good_combination_viable_species (sp : species_type) (j : job_type) :
  is_good_combination sp j false true = true
  <-> species_allowed j sp = CC_UNRESTRICTED.
Proof. unfold is_good_combination; cbn. apply cc_eqb_eq. Qed.

Lemma good_combination_legal_species (sp : species_type) (j : job_type) :
  is_good_combination sp j false false = true
  <-> species_allowed j sp <> CC_BANNED.
Proof.
  unfold is_good_combination; cbn. rewrite negb_true_iff. apply cc_eqb_neq.
Qed.

Lemma good_combination_viable_job (sp : species_type) (j : job_type) :
  is_good_combination sp j true true = true
  <-> job_allowed sp j = CC_UNRESTRICTED.
Proof. unfold is_good_combination; cbn. apply cc_eqb_eq. Qed.

Lemma good_combination_legal_job (sp : species_type) (j : job_type) :
  is_good_combination sp j true false = true
  <-> job_allowed sp j <> CC_BANNED.
Proof.
  unfold is_good_combination; cbn. rewrite negb_true_iff. apply cc_eqb_neq.
Qed.

Lemma not_true_false (b : bool) : ~ b = true -> b = false.
Proof. destruct b; congruence. Qed.

(** With no recommended species for ng.job, a request for a recommended
    species is resolved as a request for a random one. *)
Lemma viable_species_falls_through (fuel : nat) (ng ng_choice : newgame_def) :
  species ng = SP_UNKNOWN -> species ng_choice = SP_VIABLE ->
  (forall sp, In sp species_order ->
     species_allowed (job ng) sp <> CC_UNRESTRICTED) ->
  _resolve_species fuel ng ng_choice = species_case_random fuel ng.
Proof.
  intros Hng Hc Hnone. unfold _resolve_species. rewrite Hng, Hc. cbn [negb].
  change (species_eqb SP_UNKNOWN SP_UNKNOWN) with true. cbn [negb].
  rewrite reservoir_none; [reflexivity|].
  rewrite filter_none; [reflexivity|].
  intros sp Hin. apply not_true_false.
  rewrite good_combination_viable_species. now apply Hnone.
Qed.

Lemma random_species_is_case_random (fuel : nat) (ng ng_choice : newgame_def) :
  species ng = SP_UNKNOWN -> species ng_choice = SP_RANDOM ->
  _resolve_species fuel ng ng_choice = species_case_random fuel ng.
Proof.
  intros Hng Hc. unfold _resolve_species. now rewrite Hng, Hc.
Qed.

Lemma viable_job_falls_through (fuel : nat) (ng ng_choice : newgame_def) :
  job ng = JOB_UNKNOWN -> job ng_choice = JOB_VIABLE ->
  (forall j, In j job_candidates ->
     job_allowed (species ng) j <> CC_UNRESTRICTED) ->
  _resolve_job fuel ng ng_choice = job_case_random fuel ng.
Proof.
  intros Hng Hc Hnone. unfold _resolve_job. rewrite Hng, Hc.
  change (job_eqb JOB_UNKNOWN JOB_UNKNOWN) with true. cbn [negb].
  rewrite reservoir_none; [reflexivity|].
  rewrite filter_none; [reflexivity|].
  intros j Hin. apply not_true_false.
  rewrite good_combination_viable_job. now apply Hnone.
Qed.

Lemma random_job_is_case_random (fuel : nat) (ng ng_choice : newgame_def) :
  job ng = JOB_UNKNOWN -> job ng_choice = JOB_RANDOM ->
  _resolve_job fuel ng ng_choice = job_case_random fuel ng.
Proof.
  intros Hng Hc. unfold _resolve_job. now rewrite Hng, Hc.
Qed.

(** With no legal species for the known ng.job, the random case is the
    fatal exit. *)
Lemma species_case_random_fatal (fuel : nat) (ng : newgame_def) :
  job ng <> JOB_UNKNOWN ->
  (forall sp, In sp species_order -> species_allowed (job ng) sp = CC_BANNED) ->
  species_case_random fuel ng = fail (HEnd 1 "Failed to find legal species.").
Proof.
  intros Hjob Hnone. unfold species_case_random.
  rewrite (proj2 (job_eqb_neq _ _) Hjob).
  rewrite reservoir_none; [reflexivity|].
  rewrite filter_none; [reflexivity|].
  intros sp Hin. apply not_true_false.
  rewrite good_combination_legal_species. intro H. now apply H, Hnone.
Qed.

Lemma job_case_random_fatal (fuel : nat) (ng : newgame_def) :
  species ng <> SP_UNKNOWN ->
  (forall j, In j job_candidates -> job_allowed (species ng) j = CC_BANNED) ->
  job_case_random fuel ng = fail (HEnd 1 "Failed to find legal background.").
Proof.
  intros Hsp Hnone. unfold job_case_random.
  rewrite (proj2 (species_eqb_neq _ _) Hsp).
  rewrite reservoir_none; [reflexivity|].
  rewrite filter_none; [reflexivity|].
  intros j Hin. apply not_true_false.
  rewrite good_combination_legal_job. intro H. now apply H, Hnone.
Qed.

(** C5. A draw with no legal candidate is fatal.  When ng.species is still
    to be resolved against a known ng.job, the request is for a random or
    a recommended species, and every species of [species_order] is banned
    for that job, [_resolve_species] is the program that ends the process
    with exit code 1 and the message "Failed to find legal species.": it
    makes no draw and assigns nothing, and every run stops there with the
    world as it was.  [_resolve_job] does the same with "Failed to find
    legal background." when every job is banned for the known species. *)
Theorem no_legal_candidate_is_fatal (fuel : nat) (ng ng_choice : newgame_def) :
  (species ng = SP_UNKNOWN -> job ng <> JOB_UNKNOWN ->
   species ng_choice = SP_RANDOM \/ species ng_choice = SP_VIABLE ->
   (forall sp, In sp species_order ->
      species_allowed (job ng) sp = CC_BANNED) ->
   _resolve_species fuel ng ng_choice
   = fail (HEnd 1 "Failed to find legal species.")
   /\ forall w, run (_resolve_species fuel ng ng_choice) w
                = (Stopped (HEnd 1 "Failed to find legal species."), w))
  /\
  (job ng = JOB_UNKNOWN -> species ng <> SP_UNKNOWN ->
   job ng_choice = JOB_RANDOM \/ job ng_choice = JOB_VIABLE ->
   (forall j, In j job_candidates ->
      job_allowed (species ng) j = CC_BANNED) ->
   _resolve_job fuel ng ng_choice
   = fail (HEnd 1 "Failed to find legal background.")
   /\ forall w, run (_resolve_job fuel ng ng_choice) w
                = (Stopped (HEnd 1 "Failed to find legal background."), w)).
Proof.
  split.
  - intros Hsp Hjob Hc Hnone.
    assert (E : _resolve_species fuel ng ng_choice
                = fail (HEnd 1 "Failed to find legal species.")).
    { destruct Hc as [Hc|Hc].
      - rewrite random_species_is_case_random by assumption.
        now apply species_case_random_fatal.
      - rewrite viable_species_falls_through; try assumption.
        + now apply species_case_random_fatal.
        + intros sp Hin. rewrite (Hnone sp Hin). discriminate. }
    split; [exact E|]. intro w. now rewrite E.
  - intros Hjob Hsp Hc Hnone.
    assert (E : _resolve_job fuel ng ng_choice
                = fail (HEnd 1 "Failed to find legal background.")).
    { destruct Hc as [Hc|Hc].
      - rewrite random_job_is_case_random by assumption.
        now apply job_case_random_fatal.
      - rewrite viable_job_falls_through; try assumption.
        + now apply job_case_random_fatal.
        + intros j Hin. rewrite (Hnone j Hin). discriminate. }
    split; [exact E|]. intro w. now rewrite E.
Qed.

End Pools.

(** A recommended species for a fighter, and a random background for a
    human, under the rules that ban everything. *)
Lemma no_legal_candidate_is_fatal_witness :
  _resolve_species (RU := Sample.forbidding) 1
    (set_job newgame_def_init JOB_FIGHTER)
    (set_species newgame_def_init SP_VIABLE)
  = fail (HEnd 1 "Failed to find legal species.")
  /\ _resolve_job (EN := Sample.enums) (RU := Sample.forbidding) 1
       (set_species newgame_def_init SP_HUMAN)
       (set_job newgame_def_init JOB_RANDOM)
     = fail (HEnd 1 "Failed to find legal background.").
Proof.
  split.
  - refine (proj1 (proj1 (no_legal_candidate_is_fatal (EN := Sample.enums)
             (RU := Sample.forbidding) 1
             (set_job newgame_def_init JOB_FIGHTER)
             (set_species newgame_def_init SP_VIABLE)) _ _ _ _)).
    + reflexivity.
    + discriminate.
    + right. reflexivity.
    + reflexivity.
  - refine (proj1 (proj2 (no_legal_candidate_is_fatal (EN := Sample.enums)
             (RU := Sample.forbidding) 1
             (set_species newgame_def_init SP_HUMAN)
             (set_job newgame_def_init JOB_RANDOM)) _ _ _ _)).
    + reflexivity.
    + discriminate.
    + left. reflexivity.
    + reflexivity.
Defined.

(** ** Uniform draws of the resolution steps *)

Section ResolutionDraws.
Context {EN : Enums} {RU : Rules}.

(** A recommended species is uniform over the recommended species of
    [species_order]. *)
Lemma resolve_species_viable_uniform (fuel : nat) (ng ng_choice : newgame_def)
    (target : species_type -> bool) :
  species ng = SP_UNKNOWN -> species ng_choice = SP_VIABLE ->
  1 <= List.length
         (filter (fun sp => is_good_combination sp (job ng) false true)
                 species_order) ->
  (pr (_resolve_species fuel ng ng_choice)
      (returns (fun ng' => target (species ng')))
   == natQ (List.length
              (filter target
                 (filter (fun sp => is_good_combination sp (job ng) false true)
                         species_order)))
      / natQ (List.length
                (filter (fun sp => is_good_combination sp (job ng) false true)
                        species_order)))%Q.
Proof.
  intros Hng Hc HM. unfold _resolve_species. rewrite Hng, Hc.
  change (species_eqb SP_UNKNOWN SP_UNKNOWN) with true. cbv iota. cbn [negb].
  apply (draw_then_return
           (fun sp => is_good_combination sp (job ng) false true)
           (fun sp ng => set_species ng sp) species_order ng _
           (fun ng' => target (species ng')) (fun c c' s => eq_refl) HM).
  intros [|n] s' Hn; [lia | reflexivity].
Qed.

(** A random species against a known job is uniform over the species of
    [species_order] that are not banned for it. *)
Lemma resolve_species_random_uniform (fuel : nat) (ng ng_choice : newgame_def)
    (target : species_type -> bool) :
  species ng = SP_UNKNOWN -> species ng_choice = SP_RANDOM ->
  job ng <> JOB_UNKNOWN ->
  1 <= List.length
         (filter (fun sp => is_good_combination sp (job ng) false false)
                 species_order) ->
  (pr (_resolve_species fuel ng ng_choice)
      (returns (fun ng' => target (species ng')))
   == natQ (List.length
              (filter target
                 (filter (fun sp => is_good_combination sp (job ng) false false)
                         species_order)))
      / natQ (List.length
                (filter (fun sp => is_good_combination sp (job ng) false false)
                        species_order)))%Q.
Proof.
  intros Hng Hc Hjob HM.
  rewrite (random_species_is_case_random fuel ng ng_choice Hng Hc).
  unfold species_case_random. rewrite (proj2 (job_eqb_neq _ _) Hjob).
  apply (draw_then_return
           (fun sp => is_good_combination sp (job ng) false false)
           (fun sp ng => set_species ng sp) species_order ng _
           (fun ng' => target (species ng')) (fun c c' s => eq_refl) HM).
  intros [|n] s' Hn; [lia | reflexivity].
Qed.

(** A recommended background is uniform over the recommended jobs. *)
Lemma resolve_job_viable_uniform (fuel : nat) (ng ng_choice : newgame_def)
    (target : job_type -> bool) :
  job ng = JOB_UNKNOWN -> job ng_choice = JOB_VIABLE ->
  1 <= List.length
         (filter (fun j => is_good_combination (species ng) j true true)
                 job_candidates) ->
  (pr (_resolve_job fuel ng ng_choice)
      (returns (fun ng' => target (job ng')))
   == natQ (List.length
              (filter target
                 (filter (fun j => is_good_combination (species ng) j true true)
                         job_candidates)))
      / natQ (List.length
                (filter (fun j => is_good_combination (species ng) j true true)
                        job_candidates)))%Q.
Proof.
  intros Hng Hc HM. unfold _resolve_job. rewrite Hng, Hc.
  change (job_eqb JOB_UNKNOWN JOB_UNKNOWN) with true. cbv iota. cbn [negb].
  apply (draw_then_return
           (fun j => is_good_combination (species ng) j true true)
           (fun j ng => set_job ng j) job_candidates ng _
           (fun ng' => target (job ng')) (fun c c' s => eq_refl) HM).
  intros [|n] s' Hn; [lia | reflexivity].
Qed.

(** A recommended weapon is uniform over the UNRESTRICTED candidates. *)
Lemma resolve_weapon_viable_uniform (ng ng_choice : newgame_def)
    (weapons : list weapon_choice) (target : weapon_type -> bool) :
  1 <= List.length
         (filter (fun choice => cc_eqb (snd choice) CC_UNRESTRICTED) weapons) ->
  (pr (resolve_weapon_switch WPN_VIABLE ng ng_choice weapons)
      (returns (fun ng' => target (weapon ng')))
   == natQ (List.length
              (filter (fun choice => target (fst choice))
                 (filter (fun choice => cc_eqb (snd choice) CC_UNRESTRICTED)
                         weapons)))
      / natQ (List.length
                (filter (fun choice => cc_eqb (snd choice) CC_UNRESTRICTED)
                        weapons)))%Q.
Proof.
  intro HM. unfold resolve_weapon_switch.
  apply (draw_then_return
           (fun choice => cc_eqb (snd choice) CC_UNRESTRICTED)
           (fun choice ng => set_weapon ng (fst choice)) weapons ng _
           (fun ng' => target (weapon ng')) (fun c c' s => eq_refl) HM).
  intros [|n] s' Hn; [lia | reflexivity].
Qed.

(** A random background against a known species is uniform over the jobs
    that are not banned for it, when they are starting jobs as the loop
    asserts. *)
Lemma resolve_job_random_uniform (fuel : nat) (ng ng_choice : newgame_def)
    (target : job_type -> bool) :
  job ng = JOB_UNKNOWN -> job ng_choice = JOB_RANDOM ->
  species ng <> SP_UNKNOWN ->
  (forall j, In j job_candidates ->
     is_good_combination (species ng) j true false = true ->
     is_starting_job j = true) ->
  1 <= List.length
         (filter (fun j => is_good_combination (species ng) j true false)
                 job_candidates) ->
  (pr (_resolve_job fuel ng ng_choice)
      (returns (fun ng' => target (job ng')))
   == natQ (List.length
              (filter target
                 (filter (fun j => is_good_combination (species ng) j true false)
                         job_candidates)))
      / natQ (List.length
                (filter (fun j => is_good_combination (species ng) j true false)
                        job_candidates)))%Q.
Proof.
  intros Hng Hc Hsp Hok HM.
  rewrite (random_job_is_case_random fuel ng ng_choice Hng Hc).
  unfold job_case_random. rewrite (proj2 (species_eqb_neq _ _) Hsp).
  rewrite (reservoir_guard_pr
             (fun j => is_good_combination (species ng) j true false)
             is_starting_job (fun j ng => set_job ng j)
             (HAssert "is_starting_job(job)") job_candidates Hok).
  apply (draw_then_return
           (fun j => is_good_combination (species ng) j true false)
           (fun j ng => set_job ng j) job_candidates ng _
           (fun ng' => target (job ng')) (fun c c' s => eq_refl) HM).
  intros [|n] s' Hn; [lia | reflexivity].
Qed.

(** With no candidate for a recommended draw the request is resolved as a
    request for a random value. *)
Lemma viable_species_as_random (fuel : nat) (ng ng_choice : newgame_def) :
  species ng = SP_UNKNOWN -> species ng_choice = SP_VIABLE ->
  List.length (filter (fun sp => is_good_combination sp (job ng) false true)
                      species_order) = 0 ->
  _resolve_species fuel ng ng_choice = species_case_random fuel ng.
Proof.
  intros Hng Hc HM. unfold _resolve_species. rewrite Hng, Hc.
  change (species_eqb SP_UNKNOWN SP_UNKNOWN) with true. cbn [negb].
  now rewrite (reservoir_none _ _ _ _ _ HM).
Qed.

Lemma viable_job_as_random (fuel : nat) (ng ng_choice : newgame_def) :
  job ng = JOB_UNKNOWN -> job ng_choice = JOB_VIABLE ->
  List.length (filter (fun j => is_good_combination (species ng) j true true)
                      job_candidates) = 0 ->
  _resolve_job fuel ng ng_choice = job_case_random fuel ng.
Proof.
  intros Hng Hc HM. unfold _resolve_job. rewrite Hng, Hc.
  change (job_eqb JOB_UNKNOWN JOB_UNKNOWN) with true. cbn [negb].
  now rewrite (reservoir_none _ _ _ _ _ HM).
Qed.

(** C1. The draws of the resolution functions are uniform.  For each of
    the loops that [_resolve_species], [_resolve_job] and [_resolve_weapon]
    write out (a count raised on each satisfying candidate, the selection
    replaced with probability 1/count), let M be the number of candidates
    that satisfy the loop's predicate.  When M >= 1 the function returns
    with its field holding each satisfying candidate with probability
    exactly 1/M (a set of candidates with probability (number in the
    set)/M): the recommended species, jobs and weapons for a VIABLE
    request, the species and jobs that are not banned for a RANDOM request
    against a known other field (for the jobs, provided they are starting
    jobs, which the body asserts).  When M = 0 the loop selects nothing and
    reports no candidate: for a VIABLE request the function is then the
    program it is for a RANDOM request, run on the ng it was given, and for
    a RANDOM request against a known other field it is the program that
    ends the process with "Failed to find legal ...", no value assigned. *)
Theorem resolution_draws_are_uniform (fuel : nat) (ng ng_choice : newgame_def)
    (weapons : list weapon_choice) :
  let viable_species :=
    filter (fun sp => is_good_combination sp (job ng) false true)
           species_order in
  let legal_species :=
    filter (fun sp => is_good_combination sp (job ng) false false)
           species_order in
  let viable_jobs :=
    filter (fun j => is_good_combination (species ng) j true true)
           job_candidates in
  let legal_jobs :=
    filter (fun j => is_good_combination (species ng) j true false)
           job_candidates in
  let viable_weapons :=
    filter (fun choice => cc_eqb (snd choice) CC_UNRESTRICTED) weapons in
  (species ng = SP_UNKNOWN ->
   (species ng_choice = SP_VIABLE -> 1 <= List.length viable_species ->
    draws_uniformly (fun sp => sp) species viable_species
      (_resolve_species fuel ng ng_choice))
   /\ (species ng_choice = SP_VIABLE -> List.length viable_species = 0 ->
       _resolve_species fuel ng ng_choice
       = _resolve_species fuel ng (set_species ng_choice SP_RANDOM))
   /\ (species ng_choice = SP_RANDOM -> job ng <> JOB_UNKNOWN ->
       1 <= List.length legal_species ->
       draws_uniformly (fun sp => sp) species legal_species
         (_resolve_species fuel ng ng_choice))
   /\ (species ng_choice = SP_RANDOM -> job ng <> JOB_UNKNOWN ->
       List.length legal_species = 0 ->
       _resolve_species fuel ng ng_choice
       = Halt (HEnd 1 "Failed to find legal species.")))
  /\
  (job ng = JOB_UNKNOWN ->
   (job ng_choice = JOB_VIABLE -> 1 <= List.length viable_jobs ->
    draws_uniformly (fun j => j) job viable_jobs
      (_resolve_job fuel ng ng_choice))
   /\ (job ng_choice = JOB_VIABLE -> List.length viable_jobs = 0 ->
       _resolve_job fuel ng ng_choice
       = _resolve_job fuel ng (set_job ng_choice JOB_RANDOM))
   /\ (job ng_choice = JOB_RANDOM -> species ng <> SP_UNKNOWN ->
       (forall j, In j legal_jobs -> is_starting_job j = true) ->
       1 <= List.length legal_jobs ->
       draws_uniformly (fun j => j) job legal_jobs
         (_resolve_job fuel ng ng_choice))
   /\ (job ng_choice = JOB_RANDOM -> species ng <> SP_UNKNOWN ->
       List.length legal_jobs = 0 ->
       _resolve_job fuel ng ng_choice
       = Halt (HEnd 1 "Failed to find legal background.")))
  /\
  (allowed_weapons ng_choice = [] -> weapon ng_choice = WPN_VIABLE ->
   (1 <= List.length viable_weapons ->
    draws_uniformly fst weapon viable_weapons
      (_resolve_weapon ng ng_choice weapons))
   /\ (List.length viable_weapons = 0 ->
       _resolve_weapon ng ng_choice weapons
       = _resolve_weapon ng (set_weapon ng_choice WPN_RANDOM) weapons)).
Proof.
  cbv zeta. split; [|split].
  - intro Hng. split; [|split; [|split]].
    + intros Hc HM. apply draws_uniformly_of_shares. intro target.
      exact (resolve_species_viable_uniform fuel ng ng_choice target
               Hng Hc HM).
    + intros Hc HM.
      rewrite (viable_species_as_random fuel ng ng_choice Hng Hc HM).
      symmetry. now apply random_species_is_case_random.
    + intros Hc Hjob HM. apply draws_uniformly_of_shares. intro target.
      exact (resolve_species_random_uniform fuel ng ng_choice target
               Hng Hc Hjob HM).
    + intros Hc Hjob HM.
      rewrite (random_species_is_case_random fuel ng ng_choice Hng Hc).
      unfold species_case_random.
      rewrite (proj2 (job_eqb_neq _ _) Hjob).
      now rewrite (reservoir_none _ _ _ _ _ HM).
  - intro Hng. split; [|split; [|split]].
    + intros Hc HM. apply draws_uniformly_of_shares. intro target.
      exact (resolve_job_viable_uniform fuel ng ng_choice target Hng Hc HM).
    + intros Hc HM.
      rewrite (viable_job_as_random fuel ng ng_choice Hng Hc HM).
      symmetry. now apply random_job_is_case_random.
    + intros Hc Hsp Hok HM. apply draws_uniformly_of_shares. intro target.
      apply (resolve_job_random_uniform fuel ng ng_choice target
               Hng Hc Hsp); [|exact HM].
      intros j Hin Hgood. apply Hok. now apply filter_In.
    + intros Hc Hsp HM.
      rewrite (random_job_is_case_random fuel ng ng_choice Hng Hc).
      unfold job_case_random.
      rewrite (proj2 (species_eqb_neq _ _) Hsp).
      now rewrite (reservoir_none _ _ _ _ _ HM).
  - intros Hal Hc.
    assert (E : _resolve_weapon ng ng_choice weapons
                = resolve_weapon_switch WPN_VIABLE ng ng_choice weapons).
    { unfold _resolve_weapon. now rewrite Hal, Hc. }
    split.
    + intro HM. apply draws_uniformly_of_shares. intro target. rewrite E.
      exact (resolve_weapon_viable_uniform ng ng_choice weapons target HM).
    + intro HM. rewrite E. unfold _resolve_weapon, resolve_weapon_switch.
      cbn [allowed_weapons weapon set_weapon]. rewrite Hal.
      cbn [List.length Nat.eqb negb bind].
      now rewrite (reservoir_none _ _ _ _ _ HM).
Qed.

End ResolutionDraws.

(** Under the rules that recommend humans and kobolds only, a recommended
    species for a fighter is a kobold with probability 1/2; and of a mace
    and a falchion that are recommended and a spear that is not, a
    recommended weapon is the falchion with probability 1/2; and under
    the rules that allow every combination without recommending one, a
    random background for a human is a berserker with probability 1/24. *)
Lemma resolution_draws_are_uniform_witness :
  (pr (_resolve_species (RU := Sample.two_species) 1
         (set_job newgame_def_init JOB_FIGHTER)
         (set_species newgame_def_init SP_VIABLE))
      (returns (fun ng' => species_eqb SP_KOBOLD (species ng')))
   == 1 / natQ 2)%Q
  /\
  (pr (_resolve_weapon (set_job newgame_def_init JOB_FIGHTER)
         (set_weapon newgame_def_init WPN_VIABLE)
         [(WPN_MACE, CC_UNRESTRICTED); (WPN_SPEAR, CC_RESTRICTED);
          (WPN_FALCHION, CC_UNRESTRICTED)])
      (returns (fun ng' => weapon_eqb WPN_FALCHION (weapon ng')))
   == 1 / natQ 2)%Q
  /\
  (pr (_resolve_job (EN := Sample.enums) (RU := Sample.discouraging) 1
         (set_species newgame_def_init SP_HUMAN)
         (set_job newgame_def_init JOB_RANDOM))
      (returns (fun ng' => job_eqb JOB_BERSERKER (job ng')))
   == 1 / natQ 24)%Q.
Proof.
  pose proof (resolution_draws_are_uniform (EN := Sample.enums)
                (RU := Sample.discouraging) 1
                (set_species newgame_def_init SP_HUMAN)
                (set_job newgame_def_init JOB_RANDOM) [])
    as [_ [Hj _]].
  pose proof (resolution_draws_are_uniform (EN := Sample.enums)
                (RU := Sample.two_species) 1
                (set_job newgame_def_init JOB_FIGHTER)
                (set_species newgame_def_init SP_VIABLE) [])
    as [Hs _].
  pose proof (resolution_draws_are_uniform (EN := Sample.enums)
                (RU := Sample.two_species) 1
                (set_job newgame_def_init JOB_FIGHTER)
                (set_weapon newgame_def_init WPN_VIABLE)
                [(WPN_MACE, CC_UNRESTRICTED); (WPN_SPEAR, CC_RESTRICTED);
                 (WPN_FALCHION, CC_UNRESTRICTED)])
    as [_ [_ Hw]].
  split; [|split].
  - destruct (Hs eq_refl) as [Hv _].
    assert (HM : 1 <= List.length
              (filter (fun sp => is_good_combination (RU := Sample.two_species)
                                   sp JOB_FIGHTER false true)
                      species_order)) by (vm_compute; lia).
    refine (proj2 (Hv eq_refl HM) _ SP_KOBOLD (species_eqb SP_KOBOLD) _ _).
    + vm_compute. repeat constructor; cbn; intuition discriminate.
    + vm_compute. tauto.
    + intro x. unfold species_eqb.
      destruct (species_eq_dec SP_KOBOLD x); split; congruence.
  - destruct (Hw eq_refl eq_refl) as [Hv _].
    assert (HM : 1 <= List.length
              (filter (fun choice : weapon_choice =>
                         cc_eqb (snd choice) CC_UNRESTRICTED)
                 [(WPN_MACE, CC_UNRESTRICTED); (WPN_SPEAR, CC_RESTRICTED);
                  (WPN_FALCHION, CC_UNRESTRICTED)])) by (vm_compute; lia).
    refine (proj2 (Hv HM) _ (WPN_FALCHION, CC_UNRESTRICTED)
              (weapon_eqb WPN_FALCHION) _ _).
    + vm_compute. repeat constructor; cbn; intuition discriminate.
    + vm_compute. tauto.
    + intro x. cbn [fst]. unfold weapon_eqb.
      destruct (weapon_eq_dec WPN_FALCHION x); split; congruence.
  - destruct (Hj eq_refl) as (_ & _ & Hr & _).
    assert (Hsp : species (set_species newgame_def_init SP_HUMAN)
                  <> SP_UNKNOWN) by discriminate.
    assert (Hok : forall j,
              In j (filter (fun j => is_good_combination
                                       (RU := Sample.discouraging)
                                       SP_HUMAN j true false)
                           (job_candidates (EN := Sample.enums))) ->
              is_starting_job j = true).
    { intros j Hin. apply filter_In in Hin. destruct Hin as [Hin _].
      vm_compute in Hin.
      repeat (destruct Hin as [<-|Hin]; [reflexivity|]). destruct Hin. }
    assert (HM : 1 <= List.length
              (filter (fun j => is_good_combination
                                  (RU := Sample.discouraging)
                                  SP_HUMAN j true false)
                      (job_candidates (EN := Sample.enums))))
      by (vm_compute; lia).
    refine (proj2 (Hr eq_refl Hsp Hok HM) _ JOB_BERSERKER
              (job_eqb JOB_BERSERKER) _ _).
    + vm_compute.
      repeat (constructor;
              [intro H;
               repeat (destruct H as [H|H]; [discriminate H|]); exact H|]).
      constructor.
    + vm_compute. tauto.
    + intro x. unfold job_eqb.
      destruct (job_eq_dec JOB_BERSERKER x); split; congruence.
Defined.

(** Under the rules that recommend humans and kobolds only, a recommended
    species for a fighter is a kobold with probability 1/2. *)
Example recommended_kobold_fighter :
  (pr (_resolve_species (RU := Sample.two_species) 1
         (set_job newgame_def_init JOB_FIGHTER)
         (set_species newgame_def_init SP_VIABLE))
      (returns (fun ng' => species_eqb (species ng') SP_KOBOLD))
   == 1 # 2)%Q.
Proof. vm_compute. reflexivity. Qed.

(** ** The fall-through of a recommended draw *)

Section FallThrough.
Context {EN : Enums} {RU : Rules}.

Lemma set_species_overwrite (c c' : species_type) (s : newgame_def) :
  set_species (set_species s c') c = set_species s c.
Proof. reflexivity. Qed.

Lemma set_job_overwrite (c c' : job_type) (s : newgame_def) :
  set_job (set_job s c') c = set_job s c.
Proof. reflexivity. Qed.





End FallThrough.



(** ** The unconstrained draws *)

Section DrawLoops.
Context {EN : Enums} {RU : Rules}.

Lemma is_starting_species_iff (sp : species_type) :
  is_starting_species sp = true <-> In sp species_order.
Proof.
  unfold is_starting_species. rewrite existsb_exists. split.
  - intros (x & Hin & Heq). apply species_eqb_eq in Heq. now subst.
  - intro Hin. exists sp. split; [exact Hin|]. now apply species_eqb_eq.
Qed.

Lemma random_species_loop_once (fuel : nat) (ng : newgame_def) (w : world) :
  run (random_species_loop (S fuel) ng) w
  = (Returned (set_species ng
       (nth (random2_of (List.length species_order) (next_raw w))
            species_order SP_UNKNOWN)),
     skip_raw w).
Proof.
  cbn [random_species_loop]. unfold random2. cbn [bind run].
  set (i := random2_of (List.length species_order) (next_raw w)).
  assert (Hi : i < List.length species_order).
  { apply random2_of_lt. cbn. lia. }
  assert (Hs : is_starting_species (nth i species_order SP_UNKNOWN) = true).
  { apply is_starting_species_iff. now apply nth_In. }
  cbn [species set_species]. rewrite Hs. reflexivity.
Qed.

Lemma random_job_loop_reaches (n : nat) :
  forall (ng : newgame_def) (w : world),
  is_starting_job (job_drawn_at w (tape_pos w + n)) = true ->
  exists fuel0, forall fuel, fuel0 <= fuel ->
    exists ng' w',
      run (random_job_loop fuel ng) w = (Returned ng', w')
      /\ is_starting_job (job ng') = true.
Proof.
  induction n as [|n IH]; intros ng w Hn.
  - exists 1. intros fuel Hf. destruct fuel as [|fuel]; [lia|].
    cbn [random_job_loop]. unfold random2. cbn [bind run].
    rewrite Nat.add_0_r in Hn. unfold job_drawn_at in Hn.
    cbn [job set_job]. unfold next_raw. rewrite Hn. cbn [negb].
    eexists _, _. split; [reflexivity|]. exact Hn.
  - destruct (is_starting_job (job_drawn_at w (tape_pos w))) eqn:Hnow.
    + exists 1. intros fuel Hf. destruct fuel as [|fuel]; [lia|].
      cbn [random_job_loop]. unfold random2. cbn [bind run].
      unfold job_drawn_at in Hnow.
      cbn [job set_job]. unfold next_raw. rewrite Hnow. cbn [negb].
      eexists _, _. split; [reflexivity|]. exact Hnow.
    + destruct (IH (set_job ng (job_drawn_at w (tape_pos w))) (skip_raw w))
        as [fuel0 Hfuel0].
      { cbn [skip_raw tape_pos]. unfold job_drawn_at in *. cbn [tape].
        now rewrite Nat.add_succ_l, <- Nat.add_succ_r. }
      exists (S fuel0). intros fuel Hf. destruct fuel as [|fuel]; [lia|].
      cbn [random_job_loop]. unfold random2. cbn [bind run].
      unfold job_drawn_at in Hnow.
      cbn [job set_job]. unfold next_raw. rewrite Hnow. cbn [negb].
      apply Hfuel0. lia.
Qed.

End DrawLoops.

Section DrawLoopsTerminate.
Context {EN : Enums} {RU : Rules}.

(** C10. The unconstrained draws terminate.  Every entry of
    [species_order] is a starting species, so the do-while of
    [_resolve_species] leaves after its first pass on every tape: with any
    positive loop bound it returns, having made exactly one draw.  The
    do-while of [_resolve_job] returns, for every large enough loop bound,
    on every tape that holds the index of a starting job at some position
    from the current one on. *)
Theorem unconstrained_draws_terminate (ng : newgame_def) (w : world) :
  (forall sp, In sp species_order -> is_starting_species sp = true)
  /\ (forall fuel,
        run (random_species_loop (S fuel) ng) w
        = (Returned (set_species ng
             (nth (random2_of (List.length species_order) (next_raw w))
                  species_order SP_UNKNOWN)),
           skip_raw w))
  /\ (forall fuel ng_choice,
        species ng = SP_UNKNOWN -> job ng = JOB_UNKNOWN ->
        species ng_choice = SP_RANDOM ->
        exists sp,
          run (_resolve_species (S fuel) ng ng_choice) w
          = (Returned (set_species ng sp), skip_raw w)
          /\ is_starting_species sp = true)
  /\ (forall n,
        is_starting_job (job_drawn_at w (tape_pos w + n)) = true ->
        exists fuel0, forall fuel, fuel0 <= fuel ->
          exists ng' w',
            run (random_job_loop fuel ng) w = (Returned ng', w')
            /\ is_starting_job (job ng') = true)
  /\ (forall n ng_choice,
        species ng = SP_UNKNOWN -> job ng = JOB_UNKNOWN ->
        job ng_choice = JOB_RANDOM ->
        is_starting_job (job_drawn_at w (tape_pos w + n)) = true ->
        exists fuel0, forall fuel, fuel0 <= fuel ->
          exists ng' w',
            run (_resolve_job fuel ng ng_choice) w = (Returned ng', w')
            /\ is_starting_job (job ng') = true).
Proof.
  split; [|split; [|split; [|split]]].
  - intros sp Hin. now apply is_starting_species_iff.
  - intro fuel. apply random_species_loop_once.
  - intros fuel c Hsp Hjob Hc.
    rewrite (random_species_is_case_random _ _ _ Hsp Hc).
    unfold species_case_random. rewrite Hjob.
    change (job_eqb JOB_UNKNOWN JOB_UNKNOWN) with true. cbv iota.
    eexists. split; [apply random_species_loop_once|].
    apply is_starting_species_iff, nth_In, random2_of_lt. cbn. lia.
  - intros n Hn. now apply (random_job_loop_reaches n).
  - intros n c Hsp Hjob Hc Hn.
    destruct (random_job_loop_reaches n ng w Hn) as [fuel0 H].
    exists fuel0. intros fuel Hf.
    rewrite (random_job_is_case_random fuel _ _ Hjob Hc).
    unfold job_case_random. rewrite Hsp.
    change (species_eqb SP_UNKNOWN SP_UNKNOWN) with true. cbv iota.
    now apply H.
Qed.

End DrawLoopsTerminate.

(** With 25 jobs of which job 0 cannot be started, on the tape 0, 0, 1 the
    background loop returns after three draws (for every bound of at least
    three passes). *)
Lemma unconstrained_draws_terminate_witness :
  exists fuel0, forall fuel, fuel0 <= fuel ->
    exists ng' w',
      run (random_job_loop (EN := Sample.sparse_enums) fuel newgame_def_init)
          (Sample.drawing [0; 0; 1])
      = (Returned ng', w')
      /\ is_starting_job (job ng') = true.
Proof.
  refine (proj1 (proj2 (proj2 (proj2
    (unconstrained_draws_terminate (EN := Sample.sparse_enums)
       (RU := Sample.permissive) newgame_def_init
       (Sample.drawing [0; 0; 1]))))) 2 _).
  reflexivity.
Defined.

(** ** The order of the two steps *)

Section Order.
Context {EN : Enums} {RU : Rules}.

Lemma species_goes_first_table (ng_choice : newgame_def) :
  species_goes_first ng_choice =
  match carries_viable ng_choice FSpecies, carries_viable ng_choice FJob with
  | false, true => Ret true
  | true, false => Ret false
  | _, _ => coinflip
  end.
Proof.
  unfold species_goes_first, carries_viable.
  destruct (species_eqb (species ng_choice) SP_VIABLE),
           (job_eqb (job ng_choice) JOB_VIABLE); reflexivity.
Qed.

(** C3, as the code has it.  When exactly one of the two requests is VIABLE,
    [_resolve_species_job] always runs the step of the VIABLE field last,
    with no coin flipped: species first when only the job is VIABLE, job
    first when only the species is VIABLE.  When both or neither is VIABLE
    it flips one coin and runs species first on true, job first on false,
    each with probability 1/2. *)
Theorem viable_field_is_resolved_last (ng_choice : newgame_def) :
  (forall f : field,
     carries_viable ng_choice f = true ->
     carries_viable ng_choice (other_field f) = false ->
     resolved_last ng_choice f)
  /\
  (carries_viable ng_choice FSpecies = carries_viable ng_choice FJob ->
   (forall fuel ng,
      _resolve_species_job fuel ng ng_choice
      = Coinflip (fun b => if b then in_order FSpecies fuel ng ng_choice
                           else in_order FJob fuel ng ng_choice))
   /\ (pr (species_goes_first ng_choice) (returns (fun b => b)) == 1 # 2)%Q
   /\ (pr (species_goes_first ng_choice) (returns negb) == 1 # 2)%Q).
Proof.
  split.
  - intros f Hf Ho fuel ng. unfold _resolve_species_job.
    rewrite species_goes_first_table.
    destruct f; cbn [other_field] in *; rewrite Hf, Ho; reflexivity.
  - intro Heq. rewrite species_goes_first_table, <- Heq.
    split; [|split].
    + intros fuel ng. unfold _resolve_species_job.
      rewrite species_goes_first_table, <- Heq.
      destruct (carries_viable ng_choice FSpecies); reflexivity.
    + destruct (carries_viable ng_choice FSpecies); reflexivity.
    + destruct (carries_viable ng_choice FSpecies); reflexivity.
Qed.

End Order.

(** A random species with a recommended background: the background, the
    VIABLE field, is resolved last. *)
Lemma viable_field_is_resolved_last_witness :
  resolved_last (EN := Sample.enums) (RU := Sample.permissive)
    (set_job (set_species newgame_def_init SP_RANDOM) JOB_VIABLE) FJob.
Proof.
  refine (proj1 (viable_field_is_resolved_last (EN := Sample.enums)
                   (RU := Sample.permissive)
                   (set_job (set_species newgame_def_init SP_RANDOM)
                            JOB_VIABLE)) FJob _ _).
  - reflexivity.
  - reflexivity.
Defined.

(** C3 as stated fails: with a random species and a recommended background
    the species is the field without VIABLE, and it is not resolved last.
    The program starts with the species step (a draw from the 27 entries of
    [species_order]), not with the background step (whose first call is
    [one_chance_in(1)]). *)
Lemma non_viable_field_is_not_resolved_last :
  let ng_choice := set_job (set_species newgame_def_init SP_RANDOM) JOB_VIABLE in
  carries_viable ng_choice FJob = true
  /\ carries_viable ng_choice FSpecies = false
  /\ ~ resolved_last (EN := Sample.enums) (RU := Sample.permissive)
         ng_choice FSpecies.
Proof.
  cbv zeta. split; [reflexivity|]. split; [reflexivity|].
  intro H. specialize (H 1 newgame_def_init).
  apply (f_equal first_call) in H. vm_compute in H. discriminate.
Qed.

(** ** The species/background pipeline *)

Section Pipeline.
Context {EN : Enums} {RU : Rules} {PL : Platform}.

Lemma check_job_allowed_returns (ng ng_choice : newgame_def) (w : world)
    (r : newgame_def * newgame_def) (w' : world) :
  run (check_job_allowed ng ng_choice) w = (Returned r, w') ->
  r = (ng, ng_choice) /\ w' = w
  /\ job_allowed (species ng) (job ng) <> CC_BANNED.
Proof.
  unfold check_job_allowed, cc_to_bool. rewrite negb_involutive.
  destruct (cc_eqb (job_allowed (species ng) (job ng)) CC_BANNED) eqn:E;
    cbn [run fail]; intro H; inversion H; subst.
  repeat split. now apply cc_eqb_neq.
Qed.

Lemma check_job_allowed_banned (ng ng_choice : newgame_def) :
  job_allowed (species ng) (job ng) = CC_BANNED ->
  check_job_allowed ng ng_choice
  = fail (HEnd 1 (String.append "Incompatible species and background ("
                    (String.append (_char_description ng) ") selected."))).
Proof.
  intro H. unfold check_job_allowed, cc_to_bool. rewrite H. reflexivity.
Qed.

(** C2. The pipeline never returns a banned pair.  Whatever the random tape
    and the user do, a pair (ng.species, ng.job) with which
    [_choose_species_job] returns is not CC_BANNED under [job_allowed]; and
    when resolution and prompting have ended with a banned pair, the
    function does not return it: the run ends the process with exit code 1
    and the message "Incompatible species and background (...) selected."
    at the check that follows the loop. *)
Theorem returned_pair_is_not_banned (fuel : nat)
    (ng ng_choice defaults : newgame_def) (w : world) :
  (forall ng' ng_choice' w',
     run (_choose_species_job fuel ng ng_choice defaults) w
     = (Returned (ng', ng_choice'), w') ->
     job_allowed (species ng') (job ng') <> CC_BANNED)
  /\
  (forall ng1 ng_choice1 w1,
     run (ng0 <- _resolve_species_job fuel ng ng_choice ;;
          choose_species_job_loop fuel fuel ng0 ng_choice defaults) w
     = (Returned (ng1, ng_choice1), w1) ->
     job_allowed (species ng1) (job ng1) = CC_BANNED ->
     run (_choose_species_job fuel ng ng_choice defaults) w
     = (Stopped (HEnd 1
          (String.append "Incompatible species and background ("
             (String.append (_char_description ng1) ") selected."))), w1)).
Proof.
  split.
  - intros ng' c' w' H. unfold _choose_species_job in H.
    apply run_bind_inv in H. destruct H as (ng0 & w0 & _ & H).
    apply run_bind_inv in H. destruct H as ([ng1 c1] & w1 & _ & H).
    apply check_job_allowed_returns in H. destruct H as (E & _ & Hok).
    inversion E; subst. exact Hok.
  - intros ng1 c1 w1 H Hban. unfold _choose_species_job.
    apply run_bind_inv in H. destruct H as (ng0 & w0 & H0 & H).
    rewrite (run_bind_returned _ _ _ _ _ H0).
    rewrite (run_bind_returned _ _ _ _ _ H).
    now rewrite (check_job_allowed_banned ng1 c1 Hban).
Qed.

End Pipeline.

(** A user who picks menu entry 0 at the species prompt and entry 0 at the
    background prompt gets a human fighter, which the permissive rules
    allow. *)
Lemma returned_pair_is_not_banned_witness :
  exists w',
    run (_choose_species_job (EN := Sample.enums) (RU := Sample.permissive)
           (PL := Sample.platform) 3 newgame_def_init newgame_def_init
           newgame_def_init)
        (Sample.scripted [EvActivate 0; EvActivate 0])
    = (Returned
         (set_job (set_species newgame_def_init SP_HUMAN) JOB_FIGHTER,
          set_job (set_species newgame_def_init SP_HUMAN) JOB_FIGHTER), w')
    /\ job_allowed (Rules := Sample.permissive) SP_HUMAN JOB_FIGHTER
       <> CC_BANNED.
Proof.
  eexists. split.
  - vm_compute. reflexivity.
  - refine (proj1 (returned_pair_is_not_banned (EN := Sample.enums)
             (RU := Sample.permissive) (PL := Sample.platform)
             3 newgame_def_init newgame_def_init newgame_def_init
             (Sample.scripted [EvActivate 0; EvActivate 0]))
             (set_job (set_species newgame_def_init SP_HUMAN) JOB_FIGHTER)
             (set_job (set_species newgame_def_init SP_HUMAN) JOB_FIGHTER)
             _ _).
    vm_compute. reflexivity.
Defined.

(** ** The weapon sub-stage *)

Section WeaponStage.
Context {EN : Enums} {RU : Rules} {PL : Platform}.

Lemma push_unless_banned_legal (ng : newgame_def) (wp : weapon_type)
    (weapons : list weapon_choice) :
  (forall c, In c weapons ->
     snd c = weapon_restriction (fst c) ng /\ snd c <> CC_BANNED) ->
  forall c, In c (push_unless_banned ng wp weapons) ->
     snd c = weapon_restriction (fst c) ng /\ snd c <> CC_BANNED.
Proof.
  intros H c. unfold push_unless_banned.
  destruct (cc_eqb (weapon_restriction wp ng) CC_BANNED) eqn:E; cbn [negb].
  - apply H.
  - intro Hin. apply in_app_or in Hin. destruct Hin as [Hin|[<-|[]]].
    + now apply H.
    + cbn. split; [reflexivity|]. now apply cc_eqb_neq.
Qed.

Lemma fold_push_legal (ng : newgame_def) (g : weapon_type -> weapon_type)
    (startwep : list weapon_type) :
  forall weapons,
  (forall c, In c weapons ->
     snd c = weapon_restriction (fst c) ng /\ snd c <> CC_BANNED) ->
  forall c,
    In c (fold_left (fun weapons wp => push_unless_banned ng (g wp) weapons)
                    startwep weapons) ->
    snd c = weapon_restriction (fst c) ng /\ snd c <> CC_BANNED.
Proof.
  induction startwep as [|wp rest IH]; intros weapons H c; cbn [fold_left].
  - apply H.
  - apply IH. now apply push_unless_banned_legal.
Qed.

(** Every candidate of [_get_weapons] carries its restriction level and is
    not banned. *)
Lemma get_weapons_legal (ng : newgame_def) (c : weapon_choice) :
  In c (_get_weapons ng) ->
  snd c = weapon_restriction (fst c) ng /\ snd c <> CC_BANNED.
Proof.
  unfold _get_weapons. destruct (job_gets_ranged_weapons (job ng)).
  - apply (fold_push_legal ng (fun wp => wp)). intros ? [].
  - apply (fold_push_legal ng
             (fun wp => if job_gets_good_weapons (job ng)
                        then _starting_weapon_upgrade wp (job ng) (species ng)
                        else wp)).
    intros ? [].
Qed.

(** C7. One legal weapon is assigned without a prompt.  When the species is
    not SP_FELID, the job has a weapon choice and [_get_weapons] yields the
    single candidate [wp] (which is then not banned), every run of
    [_choose_weapon] returns true with the world as it was, no draw made
    and no event pumped: the weapon of the ng it returns is [wp], the
    weapon of the request it returns is [wp], and every other field of
    both is the field passed in. *)
Theorem single_weapon_is_assigned (fuel : nat)
    (ng ng_choice defaults : newgame_def)
    (wp : weapon_type) (level : char_choice_restriction) :
  species ng <> SP_FELID ->
  job_has_weapon_choice (job ng) = true ->
  _get_weapons ng = [(wp, level)] ->
  exists ng' ng_choice' : newgame_def,
    _choose_weapon fuel ng ng_choice defaults = Ret (true, ng', ng_choice')
    /\ (forall w, run (_choose_weapon fuel ng ng_choice defaults) w
                  = (Returned (true, ng', ng_choice'), w))
    /\ weapon ng' = wp /\ weapon ng_choice' = wp
    /\ ng' = mk_newgame_def (name ng) (type ng) (filename ng) (map ng)
               (species ng) (job ng) wp (fully_random ng)
               (allowed_combos ng) (allowed_species ng) (allowed_jobs ng)
               (allowed_weapons ng)
    /\ ng_choice'
       = mk_newgame_def (name ng_choice) (type ng_choice)
           (filename ng_choice) (map ng_choice) (species ng_choice)
           (job ng_choice) wp (fully_random ng_choice)
           (allowed_combos ng_choice) (allowed_species ng_choice)
           (allowed_jobs ng_choice) (allowed_weapons ng_choice)
    /\ weapon_restriction wp ng <> CC_BANNED.
Proof.
  intros Hsp Hjob Hw.
  assert (E : _choose_weapon fuel ng ng_choice defaults
              = Ret (true, set_weapon ng wp, set_weapon ng_choice wp)).
  { unfold _choose_weapon.
    rewrite (proj2 (species_eqb_neq _ _) Hsp), Hjob, Hw. reflexivity. }
  exists (set_weapon ng wp), (set_weapon ng_choice wp).
  split; [exact E|]. split; [intro w; now rewrite E|].
  split; [reflexivity|]. split; [reflexivity|].
  split; [reflexivity|]. split; [reflexivity|].
  destruct (get_weapons_legal ng (wp, level)) as [H1 H2].
  - rewrite Hw. now left.
  - cbn in H1, H2. congruence.
Qed.

(** C8. The weapon sub-stage is trivial for a felid and for a job without a
    weapon choice: [_choose_weapon] is then the program that returns true
    with ng and ng_choice as they were, so no weapon is assigned, no draw is
    made and no event is pumped. *)
Theorem weapon_stage_trivial (fuel : nat)
    (ng ng_choice defaults : newgame_def) :
  species ng = SP_FELID \/ job_has_weapon_choice (job ng) = false ->
  _choose_weapon fuel ng ng_choice defaults = Ret (true, ng, ng_choice)
  /\ (forall w, run (_choose_weapon fuel ng ng_choice defaults) w
                = (Returned (true, ng, ng_choice), w)).
Proof.
  intro H.
  assert (E : _choose_weapon fuel ng ng_choice defaults
              = Ret (true, ng, ng_choice)).
  { unfold _choose_weapon. destruct H as [H|H].
    - rewrite H. reflexivity.
    - rewrite H. now destruct (species_eqb (species ng) SP_FELID). }
  split; [exact E|]. intro w. now rewrite E.
Qed.

End WeaponStage.

(** A human fighter under the sample rules, where a fighter's only legal
    weapon is the flail: the flail is in both records that are returned. *)
Lemma single_weapon_is_assigned_witness :
  let ng := set_job (set_species newgame_def_init SP_HUMAN) JOB_FIGHTER in
  exists ng' ng_choice' : newgame_def,
    run (_choose_weapon (EN := Sample.enums) (RU := Sample.permissive)
           (PL := Sample.platform) 1 ng newgame_def_init newgame_def_init)
        (Sample.scripted [])
    = (Returned (true, ng', ng_choice'), Sample.scripted [])
    /\ weapon ng' = WPN_FLAIL /\ weapon ng_choice' = WPN_FLAIL
    /\ species ng' = SP_HUMAN /\ job ng' = JOB_FIGHTER.
Proof.
  intro ng.
  destruct (single_weapon_is_assigned (EN := Sample.enums)
              (RU := Sample.permissive) (PL := Sample.platform)
              1 ng newgame_def_init newgame_def_init
              WPN_FLAIL CC_UNRESTRICTED)
    as (ng' & ng_choice' & _ & Hrun & Hw & Hc & Hng & _).
  - discriminate.
  - reflexivity.
  - reflexivity.
  - exists ng', ng_choice'. split; [apply Hrun|].
    split; [exact Hw|]. split; [exact Hc|].
    rewrite Hng. split; reflexivity.
Defined.

(** A felid fighter: the scenario of the specification. *)
Lemma weapon_stage_trivial_witness :
  let ng := set_job (set_species newgame_def_init SP_FELID) JOB_FIGHTER in
  _choose_weapon (EN := Sample.enums) (RU := Sample.permissive)
    (PL := Sample.platform) 1 ng newgame_def_init newgame_def_init
  = Ret (true, ng, newgame_def_init).
Proof.
  intro ng.
  refine (proj1 (weapon_stage_trivial (EN := Sample.enums)
                   (RU := Sample.permissive) (PL := Sample.platform)
                   1 ng newgame_def_init newgame_def_init _)).
  left. reflexivity.
Defined.

(** ** The reroll loop *)

Section RerollLoop.
Context {EN : Enums} {RU : Rules} {PL : Platform}.

Lemma choose_species_job_loop_done (fuel0 fuel : nat)
    (ng ng_choice defaults : newgame_def) :
  species ng_choice <> SP_UNKNOWN -> job ng_choice <> JOB_UNKNOWN ->
  choose_species_job_loop fuel0 fuel ng ng_choice defaults
  = Ret (ng, ng_choice).
Proof.
  intros Hs Hj.
  destruct fuel; cbn [choose_species_job_loop];
    rewrite (proj2 (species_eqb_neq _ _) Hs), (proj2 (job_eqb_neq _ _) Hj);
    reflexivity.
Qed.

(** Without a prompt the pipeline leaves the request as it was. *)
Lemma choose_species_job_keeps_request (fuel : nat)
    (ng ng_choice defaults : newgame_def) (w : world)
    (ng1 ng_choice1 : newgame_def) (w1 : world) :
  species ng_choice <> SP_UNKNOWN -> job ng_choice <> JOB_UNKNOWN ->
  run (_choose_species_job fuel ng ng_choice defaults) w
  = (Returned (ng1, ng_choice1), w1) ->
  ng_choice1 = ng_choice.
Proof.
  intros Hs Hj H. unfold _choose_species_job in H.
  apply run_bind_inv in H. destruct H as (ng0 & w0 & _ & H).
  rewrite (choose_species_job_loop_done _ _ _ _ _ Hs Hj) in H.
  cbn [bind] in H. apply check_job_allowed_returns in H.
  destruct H as (E & _ & _). now inversion E.
Qed.

(** Without allow-lists the first block of the loop body leaves the request
    as it was. *)
Lemma allow_list_block_none (choice : newgame_def) :
  no_allow_lists choice ->
  (if negb (List.length (allowed_combos choice) =? 0)
   then choose_from_combos choice
   else choose_from_allowed choice) = Ret choice.
Proof.
  intros (Hc & Hs & Hj & Hw). rewrite Hc. cbn [List.length Nat.eqb negb].
  unfold choose_from_allowed. rewrite Hs. cbn [List.length Nat.eqb negb bind].
  rewrite Hj. cbn [List.length Nat.eqb negb bind].
  rewrite Hw. reflexivity.
Qed.

(** What a pass that ends in the [continue] after [_reroll_random] has
    done. *)
Lemma attempt_rerolled_inv (fuel : nat) (ng_reset ng choice defaults : newgame_def)
    (w : world) (ng' choice' defaults' : newgame_def) (w' : world) :
  run (choose_char_attempt fuel ng_reset ng choice defaults) w
  = (Returned (AttemptRerolled ng' choice' defaults'), w') ->
  ng' = ng_reset /\ defaults' = defaults
  /\ exists choice0 w0 ng1 w1,
       run (if negb (List.length (allowed_combos choice) =? 0)
            then choose_from_combos choice
            else choose_from_allowed choice) w = (Returned choice0, w0)
       /\ run (_choose_species_job fuel ng choice0 defaults) w0
          = (Returned (ng1, choice'), w1)
       /\ fully_random choice' = true
       /\ run (_reroll_random fuel ng1) w1 = (Returned true, w').
Proof.
  intro H. unfold choose_char_attempt in H.
  apply run_bind_inv in H. destruct H as (choice0 & w0 & H0 & H).
  apply run_bind_inv in H. destruct H as ([ng1 choice1] & w1 & H1 & H).
  unfold confirm_and_arm in H.
  apply run_bind_inv in H. destruct H as (reroll & w2 & H2 & H).
  destruct reroll.
  - cbn [run] in H. inversion H; subst.
    split; [reflexivity|]. split; [reflexivity|].
    exists choice0, w0, ng1, w1. split; [exact H0|]. split; [exact H1|].
    destruct (fully_random choice').
    + split; [reflexivity | exact H2].
    + cbn [run] in H2. discriminate.
  - apply run_bind_inv in H. destruct H as ([[chosen ng2] choice2] & w3 & _ & H).
    destruct chosen; cbn [run] in H; discriminate.
Qed.

Lemma rejected_inv (fuel : nat) (ng_reset : newgame_def)
    (st st' : loop_state) (w w' : world) :
  rejected fuel ng_reset st w = Some (st', w') ->
  run (choose_char_attempt fuel ng_reset (fst (fst st)) (snd (fst st)) (snd st)) w
  = (Returned (AttemptRerolled (fst (fst st')) (snd (fst st')) (snd st')), w').
Proof.
  destruct st as [[ng choice] defaults]. unfold rejected. cbn [fst snd].
  destruct (run _ w) as [[[ | ng1 c1 d1 | ]|h|] w1]; intro H; try discriminate.
  now inversion H.
Qed.

Lemma after_rejections_frame (fuel : nat) (ng_reset : newgame_def) (N : nat) :
  forall (st st' : loop_state) (w w' : world),
  after_rejections N fuel ng_reset st w = Some (st', w') ->
  snd st' = snd st /\ (1 <= N -> fst (fst st') = ng_reset).
Proof.
  induction N as [|N IH]; intros st st' w w' H; cbn [after_rejections] in H.
  - inversion H; subst. split; [reflexivity | lia].
  - destruct (rejected fuel ng_reset st w) as [[st1 w1]|] eqn:E;
      [|discriminate].
    apply rejected_inv, attempt_rerolled_inv in E.
    destruct E as (Hng & Hd & _).
    destruct (IH _ _ _ _ H) as [IHd IHng].
    split; [congruence|]. intros _.
    destruct N as [|N]; [|apply IHng; lia].
    cbn [after_rejections] in H. injection H as H1 H2.
    rewrite <- H1. exact Hng.
Qed.

Lemma after_rejections_fixed (fuel : nat) (ng_reset choice defaults : newgame_def)
    (N : nat) :
  no_allow_lists choice ->
  species choice <> SP_UNKNOWN -> job choice <> JOB_UNKNOWN ->
  forall (st' : loop_state) (w w' : world),
  after_rejections N fuel ng_reset (ng_reset, choice, defaults) w
  = Some (st', w') ->
  st' = (ng_reset, choice, defaults).
Proof.
  intros Hal Hs Hj. induction N as [|N IH]; intros st' w w' H;
    cbn [after_rejections] in H.
  - now inversion H.
  - destruct (rejected fuel ng_reset (ng_reset, choice, defaults) w)
      as [[st1 w1]|] eqn:E; [|discriminate].
    apply rejected_inv, attempt_rerolled_inv in E. cbn [fst snd] in E.
    destruct E as (Hng & Hd & choice0 & w0 & ng1 & w2 & H0 & H1 & _).
    rewrite (allow_list_block_none choice Hal) in H0. cbn [run] in H0.
    inversion H0; subst choice0 w0.
    apply (choose_species_job_keeps_request _ _ _ _ _ _ _ _ Hs Hj) in H1.
    destruct st1 as [[ng1' c1'] d1']. cbn [fst snd] in *. subst.
    now apply (IH _ _ _ H).
Qed.

(** After a rejected pass the loop goes round again from the state that
    [rejected] gives. *)
Lemma loop_after_rejection (fuel n : nat) (ng_reset : newgame_def)
    (st st' : loop_state) (w w' : world) :
  rejected fuel ng_reset st w = Some (st', w') ->
  run (choose_char_loop fuel (S n) ng_reset
         (fst (fst st)) (snd (fst st)) (snd st)) w
  = run (choose_char_loop fuel n ng_reset
           (fst (fst st')) (snd (fst st')) (snd st')) w'.
Proof.
  intro H. apply rejected_inv in H. cbn [choose_char_loop].
  now rewrite (run_bind_returned _ _ _ _ _ H).
Qed.

End RerollLoop.

Section RerollPasses.
Context {EN : Enums} {RU : Rules} {PL : Platform}.

(** C9, as the code has it.  After a rejection at the confirmation prompt
    the loop goes round again with ng reset to the snapshot [ng_reset]
    taken on entry to [_choose_char] (so its name and game type are those
    of the snapshot) and with defaults as they were; the request is not
    reset but kept as the pass left it.  A pass changes the request only
    by a draw from an allow-list or at a prompt: with no allow-list and
    neither species nor job UNKNOWN, the state at the start of pass N+1 is
    the state at the start of pass 1, for every N.  A key that does not
    reject leads to the weapon sub-stage, and when that returns true the
    loop returns the current ng and request.  Escape or q ends the process
    by [game_ended(game_exit::abort)]; the key is tested as the char in
    which [_reroll_random] has stored it, so whatever key has the low 8
    bits of escape or of q quits as well. *)
Theorem reroll_resets_resolved_record (fuel : nat) (ng_reset : newgame_def) :
  (forall n st w st' w',
     rejected fuel ng_reset st w = Some (st', w') ->
     run (choose_char_loop fuel (S n) ng_reset
            (fst (fst st)) (snd (fst st)) (snd st)) w
     = run (choose_char_loop fuel n ng_reset
              (fst (fst st')) (snd (fst st')) (snd st')) w')
  /\
  (forall N st w st' w',
     after_rejections (S N) fuel ng_reset st w = Some (st', w') ->
     fst (fst st') = ng_reset
     /\ name (fst (fst st')) = name ng_reset
     /\ type (fst (fst st')) = type ng_reset
     /\ snd st' = snd st)
  /\
  (forall N choice defaults w st' w',
     no_allow_lists choice ->
     species choice <> SP_UNKNOWN -> job choice <> JOB_UNKNOWN ->
     after_rejections N fuel ng_reset (ng_reset, choice, defaults) w
     = Some (st', w') ->
     st' = (ng_reset, choice, defaults))
  /\
  (forall ng choice defaults w w1 ng2 choice2 w2,
     run (if fully_random choice then _reroll_random fuel ng else Ret false) w
     = (Returned false, w1) ->
     run (_choose_weapon fuel ng choice defaults) w1
     = (Returned (true, ng2, choice2), w2) ->
     run (confirm_and_arm fuel ng_reset ng choice defaults) w
     = (Returned (AttemptDone ng2 choice2), w2))
  /\
  (forall n ng choice defaults w ng2 choice2 w2,
     run (choose_char_attempt fuel ng_reset ng choice defaults) w
     = (Returned (AttemptDone ng2 choice2), w2) ->
     run (choose_char_loop fuel (S n) ng_reset ng choice defaults) w
     = (Returned (ng2, choice2), w2))
  /\
  (forall fuel' ng choice defaults w keyn,
     fully_random choice = true ->
     hangup w (events_pos w) = false -> next_event w = EvKey keyn ->
     key_is_escape (char_of_int keyn) = true
     \/ toalower (char_of_int keyn) = 113%Z ->
     run (confirm_and_arm (S fuel') ng_reset ng choice defaults) w
     = (Stopped HGameEnded, skip_event w)).
Proof.
  split; [|split; [|split; [|split; [|split]]]].
  - intros n st w st' w'. apply loop_after_rejection.
  - intros N st w st' w' H.
    destruct (after_rejections_frame fuel ng_reset (S N) _ _ _ _ H)
      as [Hd Hng].
    specialize (Hng ltac:(lia)). rewrite Hng. auto.
  - intros N choice defaults w st' w' Hal Hs Hj H.
    now apply (after_rejections_fixed fuel ng_reset choice defaults N Hal Hs Hj
                 st' w w').
  - intros ng choice defaults w w1 ng2 choice2 w2 Hkey Hwpn.
    unfold confirm_and_arm.
    rewrite (run_bind_returned _ _ _ _ _ Hkey). cbv iota.
    now rewrite (run_bind_returned _ _ _ _ _ Hwpn).
  - intros n ng choice defaults w ng2 choice2 w2 H.
    cbn [choose_char_loop]. now rewrite (run_bind_returned _ _ _ _ _ H).
  - intros fuel' ng choice defaults w keyn Hfr Hhup Hev Hq.
    unfold confirm_and_arm, _reroll_random. rewrite Hfr.
    cbn [reroll_key_loop]. unfold seen_hups, pump_events.
    cbn [bind run]. rewrite Hhup. cbn [bind run]. rewrite Hev.
    cbn [bind run].
    assert (E : key_is_escape (char_of_int keyn)
                || (toalower (char_of_int keyn) =? 113)%Z = true).
    { destruct Hq as [Hq|Hq]; rewrite Hq; [reflexivity|].
      rewrite Z.eqb_refl. apply orb_true_r. }
    rewrite E. reflexivity.
Qed.

End RerollPasses.

(** A request for a random species and a random background, rejected twice
    with the n key: the third pass starts from the state the first one
    started from.  And the key 369, stored as the char q, ends the game at
    the confirmation prompt. *)
Lemma reroll_resets_resolved_record_witness :
  let choice :=
    set_fully_random
      (set_job (set_species newgame_def_init SP_RANDOM) JOB_RANDOM) true in
  (exists st' w',
     after_rejections (EN := Sample.enums) (RU := Sample.permissive)
       (PL := Sample.platform) 2 3 newgame_def_init
       (newgame_def_init, choice, newgame_def_init)
       (Sample.scripted [EvKey 110; EvKey 110])
     = Some (st', w')
     /\ st' = (newgame_def_init, choice, newgame_def_init))
  /\ run (confirm_and_arm (EN := Sample.enums) (RU := Sample.permissive)
            (PL := Sample.platform) 1 newgame_def_init
            (set_job (set_species newgame_def_init SP_HUMAN) JOB_MONK)
            choice newgame_def_init)
         (Sample.scripted [EvKey 369])
     = (Stopped HGameEnded, skip_event (Sample.scripted [EvKey 369])).
Proof.
  intro choice.
  pose proof (reroll_resets_resolved_record
                (EN := Sample.enums) (RU := Sample.permissive)
                (PL := Sample.platform) 3 newgame_def_init)
    as (_ & _ & Hfixed & _).
  pose proof (reroll_resets_resolved_record
                (EN := Sample.enums) (RU := Sample.permissive)
                (PL := Sample.platform) 1 newgame_def_init)
    as (_ & _ & _ & _ & _ & Hquit).
  split.
  - assert (H : exists st' w',
      after_rejections (EN := Sample.enums) (RU := Sample.permissive)
        (PL := Sample.platform) 2 3 newgame_def_init
        (newgame_def_init, choice, newgame_def_init)
        (Sample.scripted [EvKey 110; EvKey 110])
      = Some (st', w')).
    { eexists _, _. vm_compute. reflexivity. }
    destruct H as (st' & w' & H). exists st', w'. split; [exact H|].
    refine (Hfixed 2 choice newgame_def_init
              (Sample.scripted [EvKey 110; EvKey 110]) st' w' _ _ _ H).
    + repeat split.
    + discriminate.
    + discriminate.
  - refine (Hquit 0 (set_job (set_species newgame_def_init SP_HUMAN) JOB_MONK)
              choice newgame_def_init (Sample.scripted [EvKey 369]) 369%Z
              eq_refl eq_refl eq_refl _).
    right. reflexivity.
Defined.

(** C9 as stated fails: the request is not restored.  In fully-random mode
    with the background still UNKNOWN, the user picks entry 0 (fighter) at
    the background prompt and then rejects the character with n.  The
    second pass starts with ng reset, but with the request holding the
    fighter of the first pass where it held UNKNOWN. *)
Lemma reroll_keeps_the_prompted_choice :
  let choice :=
    set_fully_random (set_species newgame_def_init SP_RANDOM) true in
  fully_random choice = true
  /\ option_map fst
       (after_rejections (EN := Sample.enums) (RU := Sample.permissive)
          (PL := Sample.platform) 1 3 newgame_def_init
          (newgame_def_init, choice, newgame_def_init)
          (Sample.scripted [EvActivate 0; EvKey 110]))
     = Some (newgame_def_init, set_job choice JOB_FIGHTER, newgame_def_init)
  /\ (newgame_def_init, set_job choice JOB_FIGHTER, newgame_def_init)
     <> (newgame_def_init, choice, newgame_def_init).
Proof.
  cbv zeta. split; [reflexivity|]. split.
  - vm_compute. reflexivity.
  - discriminate.
Qed.

(** ** The pair that [_choose_char] returns *)

Section WholePipeline.
Context {EN : Enums} {RU : Rules} {PL : Platform}.

Lemma set_weapon_same (ng : newgame_def) : set_weapon ng (weapon ng) = ng.
Proof. now destruct ng. Qed.

(** [_resolve_weapon] writes no field but ng.weapon. *)
Lemma resolve_weapon_frame (ng ng_choice : newgame_def)
    (weapons : list weapon_choice) (w : world) (ng1 : newgame_def) (w1 : world) :
  run (_resolve_weapon ng ng_choice weapons) w = (Returned ng1, w1) ->
  ng1 = set_weapon ng (weapon ng1).
Proof.
  assert (Hrand : forall w ng1 w1,
    run (weapon_case_random ng weapons) w = (Returned ng1, w1) ->
    ng1 = set_weapon ng (weapon ng1)).
  { intros w0 ng0 w0' H. unfold weapon_case_random in H.
    apply run_bind_inv in H. destruct H as (choice & w2 & _ & H).
    rewrite run_ret in H. injection H as <- _. reflexivity. }
  intro H. unfold _resolve_weapon in H.
  apply run_bind_inv in H. destruct H as (weapon_ & w0 & _ & H).
  unfold resolve_weapon_switch in H.
  destruct weapon_;
    try (rewrite run_ret in H; injection H as <- _; reflexivity).
  - now apply Hrand in H.
  - apply run_bind_inv in H. destruct H as ([n s'] & w2 & Hr & H).
    apply (reservoir_run_state _ (fun _ => true)
             (fun choice ng => set_weapon ng (fst choice)) HOutOfFuel) in Hr;
      [|reflexivity].
    destruct (negb (n =? 0)).
    + rewrite run_ret in H. injection H as <- _.
      destruct Hr as [->|[c ->]]; [symmetry; apply set_weapon_same|reflexivity].
    + destruct Hr as [->|[c ->]]; [now apply Hrand in H|].
      unfold weapon_case_random in H.
      apply run_bind_inv in H. destruct H as (choice & w3 & _ & H).
      rewrite run_ret in H. injection H as <- _. reflexivity.
Qed.

(** [_choose_weapon] leaves ng.species and ng.job as they were. *)
Lemma choose_weapon_keeps_pair (fuel : nat) (ng ng_choice defaults : newgame_def)
    (w : world) (chosen : bool) (ng1 ng_choice1 : newgame_def) (w1 : world) :
  run (_choose_weapon fuel ng ng_choice defaults) w
  = (Returned (chosen, ng1, ng_choice1), w1) ->
  species ng1 = species ng /\ job ng1 = job ng.
Proof.
  unfold _choose_weapon.
  destruct (species_eqb (species ng) SP_FELID);
    [rewrite run_ret; intro H; injection H as _ <- _ _; auto|].
  destruct (negb (job_has_weapon_choice (job ng)));
    [rewrite run_ret; intro H; injection H as _ <- _ _; auto|].
  cbv zeta.
  destruct (List.length (_get_weapons ng) =? 0); [discriminate|].
  destruct (List.length (_get_weapons ng) =? 1);
    [rewrite run_ret; intro H; injection H as _ <- _ _; auto|].
  intro H. apply run_bind_inv in H. destruct H as (ng2 & w2 & H2 & H).
  apply resolve_weapon_frame in H2.
  assert (E2 : species ng2 = species ng /\ job ng2 = job ng)
    by (rewrite H2; auto).
  destruct (weapon_eqb (weapon ng2) WPN_UNKNOWN).
  - apply run_bind_inv in H. destruct H as ([ret c3] & w3 & _ & H).
    destruct (negb ret).
    + rewrite run_ret in H. injection H as _ <- _ _. exact E2.
    + apply run_bind_inv in H. destruct H as (ng4 & w4 & H4 & H).
      apply resolve_weapon_frame in H4.
      rewrite run_ret in H. injection H as _ <- _ _.
      rewrite H4. exact E2.
  - rewrite run_ret in H. injection H as _ <- _ _. exact E2.
Qed.

Lemma attempt_done_legal (fuel : nat) (ng_reset ng choice defaults : newgame_def)
    (w : world) (ng' choice' : newgame_def) (w' : world) :
  run (choose_char_attempt fuel ng_reset ng choice defaults) w
  = (Returned (AttemptDone ng' choice'), w') ->
  job_allowed (species ng') (job ng') <> CC_BANNED.
Proof.
  intro H. unfold choose_char_attempt in H.
  apply run_bind_inv in H. destruct H as (choice0 & w0 & _ & H).
  apply run_bind_inv in H. destruct H as ([ng1 choice1] & w1 & H1 & H).
  unfold _choose_species_job in H1.
  apply run_bind_inv in H1. destruct H1 as (ng0 & w00 & _ & H1).
  apply run_bind_inv in H1. destruct H1 as ([ng1' c1'] & w01 & _ & H1).
  apply check_job_allowed_returns in H1. destruct H1 as (E & _ & Hok).
  injection E as <- <-.
  unfold confirm_and_arm in H.
  apply run_bind_inv in H. destruct H as (reroll & w2 & _ & H).
  destruct reroll; [rewrite run_ret in H; discriminate|].
  apply run_bind_inv in H. destruct H as ([[chosen ng2] choice2] & w3 & H3 & H).
  apply choose_weapon_keeps_pair in H3. destruct H3 as [Hs Hj].
  destruct chosen; rewrite run_ret in H; [|discriminate].
  injection H as <- _ _. now rewrite Hs, Hj.
Qed.

Lemma choose_char_loop_legal (fuel0 fuel : nat) :
  forall (ng_reset ng choice defaults : newgame_def) (w : world)
         (ng' choice' : newgame_def) (w' : world),
  run (choose_char_loop fuel0 fuel ng_reset ng choice defaults) w
  = (Returned (ng', choice'), w') ->
  job_allowed (species ng') (job ng') <> CC_BANNED.
Proof.
  induction fuel as [|n IH]; intros ng_reset ng c d w ng' c' w' H;
    cbn [choose_char_loop] in H; [discriminate|].
  apply run_bind_inv in H. destruct H as (r & w1 & Hr & H).
  destruct r as [ng1 c1|ng1 c1 d1|ng1 c1 d1].
  - rewrite run_ret in H. injection H as <- _ _.
    now apply attempt_done_legal in Hr.
  - now apply IH in H.
  - now apply IH in H.
Qed.

(** X15. The character is a legal pair.  Whatever the tape and the user
    do, the species and background with which [_choose_char] returns are
    not a banned pair. *)
Lemma choose_char_returns_legal_pair (fuel : nat)
    (ng choice defaults : newgame_def) (w : world)
    (ng' choice' : newgame_def) (w' : world) :
  run (_choose_char fuel ng choice defaults) w = (Returned (ng', choice'), w') ->
  job_allowed (species ng') (job ng') <> CC_BANNED.
Proof.
  unfold _choose_char. intro H.
  apply run_bind_inv in H. destruct H as (choice0 & w0 & _ & H).
  now apply choose_char_loop_legal in H.
Qed.

End WholePipeline.

(** ** Sample runs *)

(** A tutorial game: the request becomes a human fighter with a flail, and
    under the sample rules the flail is the fighter's only legal weapon, so
    no prompt is shown. *)
Example tutorial_character :
  fst (run (_choose_char (EN := Sample.enums) (RU := Sample.permissive)
              (PL := Sample.platform) 3
              (set_type newgame_def_init GAME_TYPE_TUTORIAL)
              newgame_def_init newgame_def_init)
           (Sample.scripted []))
  = Returned
      (set_weapon
         (set_job (set_species (set_type newgame_def_init GAME_TYPE_TUTORIAL)
                     SP_HUMAN) JOB_FIGHTER) WPN_FLAIL,
       set_weapon
         (set_job (set_species newgame_def_init SP_HUMAN) JOB_FIGHTER)
         WPN_FLAIL).
Proof. vm_compute. reflexivity. Qed.

(** A human fighter requested under rules that ban the pair: the check after
    the loop ends the process. *)
Example banned_request_is_fatal :
  fst (run (_choose_species_job (EN := Sample.enums) (RU := Sample.forbidding)
              (PL := Sample.platform) 3 newgame_def_init
              (set_job (set_species newgame_def_init SP_HUMAN) JOB_FIGHTER)
              newgame_def_init)
           (Sample.scripted []))
  = Stopped (HEnd 1
      "Incompatible species and background (species background) selected.").
Proof. vm_compute. reflexivity. Qed.

(** A random species for a gladiator, accepted with y at the confirmation
    prompt.  On the all-zero tape every [one_chance_in] is true, so the
    draw ends on the last species of [species_order].  A gladiator chooses
    among several weapons, and with no weapon requested the weapon prompt
    is shown; the user takes entry 5 (the mace). *)
Example accepted_random_character :
  fst (run (_choose_char (EN := Sample.enums) (RU := Sample.permissive)
              (PL := Sample.platform) 3 newgame_def_init
              (set_fully_random
                 (set_job (set_species newgame_def_init SP_RANDOM)
                          JOB_GLADIATOR) true)
              newgame_def_init)
           (Sample.scripted [EvKey 121; EvActivate 5]))
  = Returned
      (set_weapon
         (set_job (set_species newgame_def_init SP_OCTOPODE) JOB_GLADIATOR)
         WPN_MACE,
       set_weapon
         (set_fully_random
            (set_job (set_species newgame_def_init SP_RANDOM) JOB_GLADIATOR)
            true) WPN_MACE).
Proof. vm_compute. reflexivity. Qed.

(** Escape at the confirmation prompt ends the game. *)
Example escape_at_confirmation :
  fst (run (_choose_char (EN := Sample.enums) (RU := Sample.permissive)
              (PL := Sample.platform) 3 newgame_def_init
              (set_fully_random
                 (set_job (set_species newgame_def_init SP_RANDOM)
                          JOB_RANDOM) true)
              newgame_def_init)
           (Sample.scripted [EvKey 27]))
  = Stopped HGameEnded.
Proof. vm_compute. reflexivity. Qed.

(** * Further properties of the code *)

(** What a returning run of the draw loop reports. *)
Lemma reservoir_returned {C St : Type} (pred ok : C -> bool)
    (f : C -> St -> St) (h : halt) (cands : list C) (s : St) (w : world)
    (n : nat) (s' : St) (w' : world) :
  (forall c c' s, f c (f c' s) = f c s) ->
  run (reservoir pred (fun c s => if ok c then Ret (f c s) else fail h)
         cands 0 s) w = (Returned (n, s'), w') ->
  n = List.length (filter pred cands)
  /\ ((n = 0 /\ s' = s)
      \/ (1 <= n /\ exists c, In c (filter pred cands) /\ ok c = true
                              /\ s' = f c s)).
Proof.
  intros Hov H.
  destruct (reservoir_run pred ok f h Hov cands 0 s w)
    as [(s1 & w1 & Hr & Hs)|(w1 & c & Hr & _)];
    rewrite Hr in H; [|discriminate].
  injection H as <- <- _. split; [reflexivity|].
  destruct Hs as [[-> H0]|(c & Hin & Hok & ->)].
  - left. split; [apply H0; reflexivity|reflexivity].
  - right. split; [|exists c; auto].
    cbn. destruct (filter pred cands); [contradiction|cbn; lia].
Qed.

Section DrawnValues.
Context {EN : Enums} {RU : Rules} {PL : Platform}.

Lemma in_filter_legal_species (j : job_type) (sp : species_type) :
  In sp (filter (fun sp => is_good_combination sp j false false) species_order)
  -> In sp species_order /\ species_allowed j sp <> CC_BANNED.
Proof.
  intro H. apply filter_In in H. destruct H as [Hin H].
  split; [exact Hin|]. now apply good_combination_legal_species.
Qed.

Lemma species_case_random_returned (fuel : nat) (ng : newgame_def) (w : world)
    (ng1 : newgame_def) (w1 : world) :
  job ng <> JOB_UNKNOWN ->
  run (species_case_random fuel ng) w = (Returned ng1, w1) ->
  exists sp, ng1 = set_species ng sp /\ In sp species_order
             /\ species_allowed (job ng) sp <> CC_BANNED.
Proof.
  intros Hj H. unfold species_case_random in H.
  rewrite (proj2 (job_eqb_neq _ _) Hj) in H.
  apply run_bind_inv in H. destruct H as ([n s'] & w2 & Hr & H).
  apply (reservoir_returned _ (fun _ => true)
           (fun sp ng => set_species ng sp) HOutOfFuel) in Hr;
    [|reflexivity].
  destruct Hr as [_ [[-> ->]|(Hn & c & Hin & _ & ->)]]; [discriminate|].
  destruct n; [lia|]. cbn [Nat.eqb] in H.
  rewrite run_ret in H. injection H as <- _.
  apply in_filter_legal_species in Hin. exists c. tauto.
Qed.

(** The recommended draw of [_resolve_species], written out. *)
Lemma resolve_species_viable_eq (fuel : nat) (ng ng_choice : newgame_def) :
  species ng = SP_UNKNOWN -> species ng_choice = SP_VIABLE ->
  _resolve_species fuel ng ng_choice
  = ('(good_choices, ng) <-
       reservoir (fun sp => is_good_combination sp (job ng) false true)
                 (assigning (fun sp ng => set_species ng sp))
                 species_order 0 ng ;;
     if negb (good_choices =? 0) then Ret ng
     else species_case_random fuel ng).
Proof.
  intros Hng Hc. unfold _resolve_species. now rewrite Hng, Hc.
Qed.

(** X1. A species drawn against a known background is legal.  When
    ng.species is unknown, ng.job is known and the request is for a random
    or a recommended species, every run of [_resolve_species] that returns
    has changed ng.species only, to a species of [species_order] that is
    not banned for the job; for a recommended request it is an
    unrestricted one whenever [species_order] holds one. *)
Theorem drawn_species_is_legal (fuel : nat) (ng ng_choice : newgame_def)
    (w : world) (ng1 : newgame_def) (w1 : world) :
  species ng = SP_UNKNOWN -> job ng <> JOB_UNKNOWN ->
  species ng_choice = SP_RANDOM \/ species ng_choice = SP_VIABLE ->
  run (_resolve_species fuel ng ng_choice) w = (Returned ng1, w1) ->
  ng1 = set_species ng (species ng1)
  /\ In (species ng1) species_order
  /\ species_allowed (job ng) (species ng1) <> CC_BANNED
  /\ (species ng_choice = SP_VIABLE ->
      (exists sp, In sp species_order
                  /\ species_allowed (job ng) sp = CC_UNRESTRICTED) ->
      species_allowed (job ng) (species ng1) = CC_UNRESTRICTED).
Proof.
  intros Hsp Hj Hreq H.
  destruct Hreq as [Hreq|Hreq].
  - rewrite (random_species_is_case_random fuel ng ng_choice Hsp Hreq) in H.
    apply species_case_random_returned in H; [|exact Hj].
    destruct H as (sp & -> & Hin & Hok). cbn [species set_species job].
    repeat split; auto. intro E. rewrite Hreq in E. discriminate.
  - rewrite (resolve_species_viable_eq fuel ng ng_choice Hsp Hreq) in H.
    apply run_bind_inv in H. destruct H as ([n s'] & w2 & Hr & H).
    apply (reservoir_returned _ (fun _ => true)
             (fun sp ng => set_species ng sp) HOutOfFuel) in Hr;
      [|reflexivity].
    destruct Hr as [Hlen [[-> ->]|(Hn & c & Hin & _ & ->)]].
    + cbn [Nat.eqb negb] in H.
      apply species_case_random_returned in H; [|exact Hj].
      destruct H as (sp & -> & Hin & Hok). cbn [species set_species job].
      repeat split; auto. intros _ (sp' & Hin' & Hun).
      exfalso.
      assert (1 <= List.length
                (filter (fun sp => is_good_combination sp (job ng) false true)
                        species_order)).
      { apply (filter_some _ _ sp' Hin').
        now apply good_combination_viable_species. }
      lia.
    + destruct n; [lia|]. cbn [Nat.eqb negb] in H.
      rewrite run_ret in H. injection H as <- _.
      apply filter_In in Hin. destruct Hin as [Hin Hv].
      apply good_combination_viable_species in Hv. cbn [species set_species job].
      repeat split; auto. rewrite Hv. discriminate.
Qed.


Lemma job_case_random_returned (fuel : nat) (ng : newgame_def) (w : world)
    (ng1 : newgame_def) (w1 : world) :
  species ng <> SP_UNKNOWN ->
  run (job_case_random fuel ng) w = (Returned ng1, w1) ->
  exists j, ng1 = set_job ng j /\ In j job_candidates
            /\ job_allowed (species ng) j <> CC_BANNED
            /\ is_starting_job j = true.
Proof.
  intros Hsp H. unfold job_case_random in H.
  rewrite (proj2 (species_eqb_neq _ _) Hsp) in H.
  apply run_bind_inv in H. destruct H as ([n s'] & w2 & Hr & H).
  apply (reservoir_returned _ is_starting_job
           (fun j ng => set_job ng j)
           (HAssert "is_starting_job(job)")) in Hr; [|reflexivity].
  destruct Hr as [_ [[-> ->]|(Hn & c & Hin & Hst & ->)]]; [discriminate|].
  destruct n; [lia|]. cbn [Nat.eqb] in H.
  rewrite run_ret in H. injection H as <- _.
  apply filter_In in Hin. destruct Hin as [Hin Hok].
  apply good_combination_legal_job in Hok. exists c. tauto.
Qed.

(** The recommended draw of [_resolve_job], written out. *)
Lemma resolve_job_viable_eq (fuel : nat) (ng ng_choice : newgame_def) :
  job ng = JOB_UNKNOWN -> job ng_choice = JOB_VIABLE ->
  _resolve_job fuel ng ng_choice
  = ('(good_choices, ng) <-
       reservoir (fun j => is_good_combination (species ng) j true true)
                 (assigning (fun j ng => set_job ng j))
                 job_candidates 0 ng ;;
     if negb (good_choices =? 0) then Ret ng
     else job_case_random fuel ng).
Proof.
  intros Hng Hc. unfold _resolve_job. now rewrite Hng, Hc.
Qed.

(** X2. A background drawn against a known species is legal.  When ng.job
    is unknown, ng.species is known and the request is for a random or a
    recommended background, every run of [_resolve_job] that returns has
    changed ng.job only, to one of the jobs 0 .. NUM_JOBS - 1 that is not
    banned for the species; for a recommended request it is an unrestricted
    one whenever there is one.  A job taken from the non-banned pool is a
    starting job (the loop asserts it); a job taken from the recommended
    pool is not checked. *)
Theorem drawn_job_is_legal (fuel : nat) (ng ng_choice : newgame_def)
    (w : world) (ng1 : newgame_def) (w1 : world) :
  job ng = JOB_UNKNOWN -> species ng <> SP_UNKNOWN ->
  job ng_choice = JOB_RANDOM \/ job ng_choice = JOB_VIABLE ->
  run (_resolve_job fuel ng ng_choice) w = (Returned ng1, w1) ->
  ng1 = set_job ng (job ng1)
  /\ In (job ng1) job_candidates
  /\ job_allowed (species ng) (job ng1) <> CC_BANNED
  /\ (job ng_choice = JOB_VIABLE ->
      (exists j, In j job_candidates
                 /\ job_allowed (species ng) j = CC_UNRESTRICTED) ->
      job_allowed (species ng) (job ng1) = CC_UNRESTRICTED)
  /\ (job_allowed (species ng) (job ng1) <> CC_UNRESTRICTED
      \/ job ng_choice = JOB_RANDOM ->
      is_starting_job (job ng1) = true).
Proof.
  intros Hj Hsp Hreq H.
  destruct Hreq as [Hreq|Hreq].
  - rewrite (random_job_is_case_random fuel ng ng_choice Hj Hreq) in H.
    apply job_case_random_returned in H; [|exact Hsp].
    destruct H as (j & -> & Hin & Hok & Hst). cbn [species job set_job].
    repeat split; auto. intro E. rewrite Hreq in E. discriminate.
  - rewrite (resolve_job_viable_eq fuel ng ng_choice Hj Hreq) in H.
    apply run_bind_inv in H. destruct H as ([n s'] & w2 & Hr & H).
    apply (reservoir_returned _ (fun _ => true)
             (fun j ng => set_job ng j) HOutOfFuel) in Hr;
      [|reflexivity].
    destruct Hr as [Hlen [[-> ->]|(Hn & c & Hin & _ & ->)]].
    + cbn [Nat.eqb negb] in H.
      apply job_case_random_returned in H; [|exact Hsp].
      destruct H as (j & -> & Hin & Hok & Hst). cbn [species job set_job].
      repeat split; auto. intros _ (j' & Hin' & Hun).
      exfalso.
      assert (1 <= List.length
                (filter (fun j => is_good_combination (species ng) j true true)
                        job_candidates)).
      { apply (filter_some _ _ j' Hin').
        now apply good_combination_viable_job. }
      lia.
    + destruct n; [lia|]. cbn [Nat.eqb negb] in H.
      rewrite run_ret in H. injection H as <- _.
      apply filter_In in Hin. destruct Hin as [Hin Hv].
      apply good_combination_viable_job in Hv. cbn [species job set_job].
      repeat split; auto.
      * rewrite Hv. discriminate.
      * intros [Hne|E]; [contradiction|]. rewrite Hreq in E. discriminate.
Qed.

End DrawnValues.

Lemma drawn_species_is_legal_witness :
  let ng := set_job newgame_def_init JOB_FIGHTER in
  let ng_choice := set_species newgame_def_init SP_VIABLE in
  fst (run (_resolve_species (RU := Sample.two_species) 1 ng ng_choice)
           (Sample.scripted []))
  = Returned (set_species ng SP_KOBOLD)
  /\ species_allowed (Rules := Sample.two_species) JOB_FIGHTER SP_KOBOLD
     = CC_UNRESTRICTED.
Proof.
  intros ng ng_choice. split; [vm_compute; reflexivity|].
  refine (proj2 (proj2 (proj2
            (drawn_species_is_legal (RU := Sample.two_species) 1 ng ng_choice
               (Sample.scripted []) (set_species ng SP_KOBOLD)
               (snd (run (_resolve_species (RU := Sample.two_species) 1 ng
                            ng_choice) (Sample.scripted [])))
               eq_refl _ (or_intror eq_refl) _))) eq_refl _).
  - discriminate.
  - vm_compute. reflexivity.
  - exists SP_HUMAN. split; [vm_compute; tauto|reflexivity].
Defined.

Lemma drawn_job_is_legal_witness :
  let ng := set_species newgame_def_init SP_HUMAN in
  let ng_choice := set_job newgame_def_init JOB_RANDOM in
  fst (run (_resolve_job (EN := Sample.enums) (RU := Sample.discouraging) 1
              ng ng_choice) (Sample.scripted []))
  = Returned (set_job ng JOB_VENOM_MAGE)
  /\ is_starting_job JOB_VENOM_MAGE = true.
Proof.
  intros ng ng_choice. split; [vm_compute; reflexivity|].
  refine (proj2 (proj2 (proj2 (proj2
            (drawn_job_is_legal (EN := Sample.enums)
               (RU := Sample.discouraging) 1 ng ng_choice
               (Sample.scripted []) (set_job ng JOB_VENOM_MAGE)
               (snd (run (_resolve_job (EN := Sample.enums)
                            (RU := Sample.discouraging) 1 ng ng_choice)
                         (Sample.scripted [])))
               eq_refl _ (or_introl eq_refl) _)))) (or_intror eq_refl)).
  - discriminate.
  - vm_compute. reflexivity.
Defined.


Section ExplicitRequests.
Context {EN : Enums} {RU : Rules} {PL : Platform}.

Lemma resolve_species_explicit (fuel : nat) (ng ng_choice : newgame_def) :
  species ng = SP_UNKNOWN ->
  species ng_choice <> SP_UNKNOWN -> species ng_choice <> SP_RANDOM ->
  species ng_choice <> SP_VIABLE ->
  _resolve_species fuel ng ng_choice
  = Ret (set_species ng (species ng_choice)).
Proof.
  intros Hng H1 H2 H3. unfold _resolve_species. rewrite Hng.
  change (negb (species_eqb SP_UNKNOWN SP_UNKNOWN)) with false. cbv iota.
  destruct (species ng_choice); try reflexivity; congruence.
Qed.

Lemma resolve_job_explicit (fuel : nat) (ng ng_choice : newgame_def) :
  job ng = JOB_UNKNOWN ->
  job ng_choice <> JOB_UNKNOWN -> job ng_choice <> JOB_RANDOM ->
  job ng_choice <> JOB_VIABLE ->
  _resolve_job fuel ng ng_choice = Ret (set_job ng (job ng_choice)).
Proof.
  intros Hng H1 H2 H3. unfold _resolve_job. rewrite Hng.
  change (negb (job_eqb JOB_UNKNOWN JOB_UNKNOWN)) with false. cbv iota.
  destruct (job ng_choice); try reflexivity; congruence.
Qed.

Lemma resolve_pair_explicit (fuel : nat) (ng ng_choice : newgame_def)
    (w : world) :
  species ng = SP_UNKNOWN -> job ng = JOB_UNKNOWN ->
  species ng_choice <> SP_UNKNOWN -> species ng_choice <> SP_RANDOM ->
  species ng_choice <> SP_VIABLE ->
  job ng_choice <> JOB_UNKNOWN -> job ng_choice <> JOB_RANDOM ->
  job ng_choice <> JOB_VIABLE ->
  run (_resolve_species_job fuel ng ng_choice) w
  = (Returned (set_job (set_species ng (species ng_choice)) (job ng_choice)),
     skip_raw w).
Proof.
  intros Hs Hj S1 S2 S3 J1 J2 J3.
  unfold _resolve_species_job. rewrite species_goes_first_table.
  unfold carries_viable.
  rewrite (proj2 (species_eqb_neq _ _) S3), (proj2 (job_eqb_neq _ _) J3).
  unfold coinflip. cbn [bind run].
  destruct (coinflip_of (next_raw w)).
  - unfold species_then_job.
    rewrite (resolve_species_explicit fuel ng ng_choice Hs S1 S2 S3).
    cbn [bind]. rewrite resolve_job_explicit; auto.
  - unfold job_then_species.
    rewrite (resolve_job_explicit fuel ng ng_choice Hj J1 J2 J3).
    cbn [bind]. rewrite resolve_species_explicit; auto.
Qed.

Lemma choose_species_job_explicit (fuel : nat)
    (ng ng_choice defaults : newgame_def) (w : world) :
  species ng = SP_UNKNOWN -> job ng = JOB_UNKNOWN ->
  species ng_choice <> SP_UNKNOWN -> species ng_choice <> SP_RANDOM ->
  species ng_choice <> SP_VIABLE ->
  job ng_choice <> JOB_UNKNOWN -> job ng_choice <> JOB_RANDOM ->
  job ng_choice <> JOB_VIABLE ->
  run (_choose_species_job fuel ng ng_choice defaults) w
  = run (check_job_allowed
           (set_job (set_species ng (species ng_choice)) (job ng_choice))
           ng_choice) (skip_raw w).
Proof.
  intros Hs Hj S1 S2 S3 J1 J2 J3.
  unfold _choose_species_job.
  rewrite (run_bind_returned _ _ _ _ _
             (resolve_pair_explicit fuel ng ng_choice w Hs Hj S1 S2 S3 J1 J2 J3)).
  rewrite choose_species_job_loop_done by assumption.
  reflexivity.
Qed.

(** X3. An explicit request is taken as it is or refused.  When the
    request names an actual species and an actual background and ng holds
    neither, [_resolve_species_job] flips its coin and returns ng with
    exactly that species and background, in either order; and
    [_choose_species_job] shows no menu and either returns that pair with
    the request untouched, when the pair is not banned, or ends the process
    with the "Incompatible species and background" message, when it is. *)
Theorem explicit_request_is_honoured (fuel : nat)
    (ng ng_choice defaults : newgame_def) (w : world) :
  species ng = SP_UNKNOWN -> job ng = JOB_UNKNOWN ->
  species ng_choice <> SP_UNKNOWN -> species ng_choice <> SP_RANDOM ->
  species ng_choice <> SP_VIABLE ->
  job ng_choice <> JOB_UNKNOWN -> job ng_choice <> JOB_RANDOM ->
  job ng_choice <> JOB_VIABLE ->
  let ng1 := set_job (set_species ng (species ng_choice)) (job ng_choice) in
  run (_resolve_species_job fuel ng ng_choice) w = (Returned ng1, skip_raw w)
  /\ (job_allowed (species ng_choice) (job ng_choice) <> CC_BANNED ->
      run (_choose_species_job fuel ng ng_choice defaults) w
      = (Returned (ng1, ng_choice), skip_raw w))
  /\ (job_allowed (species ng_choice) (job ng_choice) = CC_BANNED ->
      run (_choose_species_job fuel ng ng_choice defaults) w
      = (Stopped (HEnd 1
           (String.append "Incompatible species and background ("
              (String.append (_char_description ng1) ") selected."))),
         skip_raw w)).
Proof.
  intros Hs Hj S1 S2 S3 J1 J2 J3 ng1.
  pose proof (resolve_pair_explicit fuel ng ng_choice w Hs Hj S1 S2 S3 J1 J2 J3)
    as Hr.
  split; [exact Hr|].
  rewrite (choose_species_job_explicit fuel ng ng_choice defaults w
             Hs Hj S1 S2 S3 J1 J2 J3).
  fold ng1. split; intro Hok.
  - unfold check_job_allowed, cc_to_bool.
    change (job_allowed (species ng1) (job ng1))
      with (job_allowed (species ng_choice) (job ng_choice)).
    rewrite (proj2 (cc_eqb_neq _ _) Hok). reflexivity.
  - rewrite check_job_allowed_banned; [reflexivity|exact Hok].
Qed.

End ExplicitRequests.

Lemma explicit_request_is_honoured_witness :
  let ng_choice := set_job (set_species newgame_def_init SP_MINOTAUR)
                           JOB_BERSERKER in
  run (_choose_species_job (EN := Sample.enums) (RU := Sample.permissive)
         (PL := Sample.platform) 2 newgame_def_init ng_choice newgame_def_init)
      (Sample.drawing [5])
  = (Returned (ng_choice, ng_choice), skip_raw (Sample.drawing [5])).
Proof.
  intro ng_choice.
  refine (proj1 (proj2
            (explicit_request_is_honoured (EN := Sample.enums)
               (RU := Sample.permissive) (PL := Sample.platform)
               2 newgame_def_init ng_choice newgame_def_init
               (Sample.drawing [5]) eq_refl eq_refl _ _ _ _ _ _)) _);
    discriminate.
Defined.



Lemma asks_nobody_bind {A B : Type} (m : Prog A) (f : A -> Prog B) :
  asks_nobody m -> (forall a, asks_nobody (f a)) -> asks_nobody (bind m f).
Proof.
  intros Hm Hf. induction m as [a|n k IH|k IH|n k IH|k IH|k IH|h];
    cbn [bind asks_nobody] in *; auto; contradiction.
Qed.

Lemma draws_nothing_bind {A B : Type} (m : Prog A) (f : A -> Prog B) :
  draws_nothing m -> (forall a, draws_nothing (f a)) ->
  draws_nothing (bind m f).
Proof.
  intros Hm Hf. induction m as [a|n k IH|k IH|n k IH|k IH|k IH|h];
    cbn [bind draws_nothing] in *; auto; contradiction.
Qed.

(** A program that asks nobody ends the same way for every user, and
    leaves the user's events where they were. *)
Lemma asks_nobody_run {A : Type} (p : Prog A) :
  asks_nobody p ->
  forall w w', same_tape w w' ->
  fst (run p w) = fst (run p w')
  /\ same_tape (snd (run p w)) (snd (run p w'))
  /\ same_user (snd (run p w)) w.
Proof.
  induction p as [a|n k IH|k IH|n k IH|k IH|k IH|h];
    cbn [asks_nobody run]; intros Hp w w' Hw;
    try contradiction;
    try (cbn [fst snd]; unfold same_user; auto; fail).
  - destruct Hw as [Ht Hp']. unfold next_raw. rewrite Ht, Hp'.
    destruct (IH (one_chance_in_of n (tape w' (tape_pos w'))) (Hp _)
                 (skip_raw w) (skip_raw w')) as (E1 & E2 & E3).
    { split; cbn; congruence. }
    split; [exact E1|split; [exact E2|exact E3]].
  - destruct Hw as [Ht Hp']. unfold next_raw. rewrite Ht, Hp'.
    destruct (IH (coinflip_of (tape w' (tape_pos w'))) (Hp _)
                 (skip_raw w) (skip_raw w')) as (E1 & E2 & E3).
    { split; cbn; congruence. }
    split; [exact E1|split; [exact E2|exact E3]].
  - destruct Hw as [Ht Hp']. unfold next_raw. rewrite Ht, Hp'.
    destruct (IH (random2_of n (tape w' (tape_pos w'))) (Hp _)
                 (skip_raw w) (skip_raw w')) as (E1 & E2 & E3).
    { split; cbn; congruence. }
    split; [exact E1|split; [exact E2|exact E3]].
Qed.

(** A program that draws nothing ends the same way on every tape, and
    leaves the tape where it was. *)
Lemma draws_nothing_run {A : Type} (p : Prog A) :
  draws_nothing p ->
  forall w w', same_user w w' ->
  fst (run p w) = fst (run p w')
  /\ same_user (snd (run p w)) (snd (run p w'))
  /\ same_tape (snd (run p w)) w.
Proof.
  induction p as [a|n k IH|k IH|n k IH|k IH|k IH|h];
    cbn [draws_nothing run]; intros Hp w w' Hw;
    try contradiction;
    try (cbn [fst snd]; unfold same_tape; auto; fail).
  - destruct Hw as (He & Hp' & Hh). unfold next_event. rewrite He, Hp'.
    destruct (IH (events w' (events_pos w')) (Hp _)
                 (skip_event w) (skip_event w')) as (E1 & E2 & E3).
    { repeat split; cbn; congruence. }
    split; [exact E1|split; [exact E2|exact E3]].
  - destruct Hw as (He & Hp' & Hh). rewrite Hh, Hp'.
    destruct (IH (hangup w' (events_pos w')) (Hp _) w w') as (E1 & E2 & E3).
    { repeat split; congruence. }
    split; [exact E1|split; [exact E2|exact E3]].
Qed.

Lemma reservoir_asks_nobody {C St : Type} (pred : C -> bool)
    (body : C -> St -> Prog St) (cands : list C) :
  (forall c s, asks_nobody (body c s)) ->
  forall k s, asks_nobody (reservoir pred body cands k s).
Proof.
  intro Hb. induction cands as [|c rest IH]; intros k s; cbn [reservoir].
  - exact I.
  - destruct (pred c); [|apply IH].
    unfold one_chance_in. cbn [bind asks_nobody]. intro b.
    apply asks_nobody_bind; [destruct b; [apply Hb|exact I]|].
    intro s'. apply IH.
Qed.

Section Silence.
Context {EN : Enums} {RU : Rules} {PL : Platform}.

Lemma random_species_loop_asks_nobody (fuel : nat) :
  forall ng, asks_nobody (random_species_loop fuel ng).
Proof.
  induction fuel as [|n IH]; intro ng; cbn [random_species_loop].
  - exact I.
  - unfold random2. cbn [bind asks_nobody]. intro i.
    destruct (negb _); [apply IH|exact I].
Qed.

Lemma random_job_loop_asks_nobody (fuel : nat) :
  forall ng, asks_nobody (random_job_loop fuel ng).
Proof.
  induction fuel as [|n IH]; intro ng; cbn [random_job_loop].
  - exact I.
  - unfold random2. cbn [bind asks_nobody]. intro i.
    destruct (negb _); [apply IH|exact I].
Qed.

Lemma species_case_random_asks_nobody (fuel : nat) (ng : newgame_def) :
  asks_nobody (species_case_random fuel ng).
Proof.
  unfold species_case_random.
  destruct (job_eqb (job ng) JOB_UNKNOWN);
    [apply random_species_loop_asks_nobody|].
  apply asks_nobody_bind.
  - apply reservoir_asks_nobody. intros c s. exact I.
  - intros [n s]. destruct (n =? 0); exact I.
Qed.

Lemma job_case_random_asks_nobody (fuel : nat) (ng : newgame_def) :
  asks_nobody (job_case_random fuel ng).
Proof.
  unfold job_case_random.
  destruct (species_eqb (species ng) SP_UNKNOWN);
    [apply random_job_loop_asks_nobody|].
  apply asks_nobody_bind.
  - apply reservoir_asks_nobody. intros c s.
    destruct (is_starting_job c); exact I.
  - intros [n s]. destruct (n =? 0); exact I.
Qed.

Lemma resolve_species_asks_nobody (fuel : nat) (ng ng_choice : newgame_def) :
  asks_nobody (_resolve_species fuel ng ng_choice).
Proof.
  unfold _resolve_species.
  destruct (negb (species_eqb (species ng) SP_UNKNOWN)); [exact I|].
  destruct (species ng_choice); try exact I.
  - apply species_case_random_asks_nobody.
  - apply asks_nobody_bind.
    + apply reservoir_asks_nobody. intros c s. exact I.
    + intros [n s]. destruct (negb (n =? 0)); [exact I|].
      apply species_case_random_asks_nobody.
Qed.

Lemma resolve_job_asks_nobody (fuel : nat) (ng ng_choice : newgame_def) :
  asks_nobody (_resolve_job fuel ng ng_choice).
Proof.
  unfold _resolve_job.
  destruct (negb (job_eqb (job ng) JOB_UNKNOWN)); [exact I|].
  destruct (job ng_choice); try exact I.
  - apply job_case_random_asks_nobody.
  - apply asks_nobody_bind.
    + apply reservoir_asks_nobody. intros c s. exact I.
    + intros [n s]. destruct (negb (n =? 0)); [exact I|].
      apply job_case_random_asks_nobody.
Qed.

Lemma resolve_species_job_asks_nobody (fuel : nat)
    (ng ng_choice : newgame_def) :
  asks_nobody (_resolve_species_job fuel ng ng_choice).
Proof.
  unfold _resolve_species_job. apply asks_nobody_bind.
  - unfold species_goes_first.
    destruct (_ && _); [exact I|].
    destruct (negb _); [intro b; exact I|exact I].
  - intros [|]; unfold species_then_job, job_then_species;
      (apply asks_nobody_bind;
       [apply resolve_species_asks_nobody || apply resolve_job_asks_nobody|
        intro ng1;
        apply resolve_species_asks_nobody || apply resolve_job_asks_nobody]).
Qed.

Lemma random_element_asks_nobody {T : Type} (what : string) (v : list T) :
  asks_nobody (random_element what v).
Proof.
  unfold random_element, random2. cbn [bind asks_nobody]. intro i.
  destruct (nth_error v i); exact I.
Qed.

Lemma resolve_weapon_asks_nobody (ng ng_choice : newgame_def)
    (weapons : list weapon_choice) :
  asks_nobody (_resolve_weapon ng ng_choice weapons).
Proof.
  assert (Hrand : forall ng, asks_nobody (weapon_case_random ng weapons)).
  { intro ng0. unfold weapon_case_random. apply asks_nobody_bind.
    - apply random_element_asks_nobody.
    - intro c. exact I. }
  unfold _resolve_weapon. apply asks_nobody_bind.
  - destruct (negb _); [apply random_element_asks_nobody|exact I].
  - intro weapon_. unfold resolve_weapon_switch.
    destruct weapon_; try exact I.
    + apply Hrand.
    + apply asks_nobody_bind.
      * apply reservoir_asks_nobody. intros c s. exact I.
      * intros [n s]. destruct (negb (n =? 0)); [exact I|apply Hrand].
Qed.

(** X4. Resolution never talks to the user.  [_resolve_species_job] and
    [_resolve_weapon] end the same way for any two users as long as the
    random tape is the same, and they leave the user's events and hangups
    where they were. *)
Theorem resolution_never_prompts (fuel : nat) (ng ng_choice : newgame_def)
    (weapons : list weapon_choice) (w w' : world) :
  same_tape w w' ->
  (fst (run (_resolve_species_job fuel ng ng_choice) w)
   = fst (run (_resolve_species_job fuel ng ng_choice) w')
   /\ same_user (snd (run (_resolve_species_job fuel ng ng_choice) w)) w)
  /\
  (fst (run (_resolve_weapon ng ng_choice weapons) w)
   = fst (run (_resolve_weapon ng ng_choice weapons) w')
   /\ same_user (snd (run (_resolve_weapon ng ng_choice weapons) w)) w).
Proof.
  intro Hw. split.
  - destruct (asks_nobody_run _
                (resolve_species_job_asks_nobody fuel ng ng_choice) w w' Hw)
      as (E1 & _ & E3). auto.
  - destruct (asks_nobody_run _
                (resolve_weapon_asks_nobody ng ng_choice weapons) w w' Hw)
      as (E1 & _ & E3). auto.
Qed.


Lemma newgame_ui_loop_draws_nothing (fuel : nat) (choice_type : MenuChoices)
    (defaults : newgame_def) :
  forall m, draws_nothing (newgame_ui_loop fuel choice_type defaults m).
Proof.
  induction fuel as [|n IH]; intro m; cbn [newgame_ui_loop];
    destruct (done m); try exact I.
  unfold pump_events. cbn [bind draws_nothing]. intro e. apply IH.
Qed.

Lemma prompt_choice_draws_nothing (fuel : nat) (choice_type : MenuChoices)
    (ng ng_choice defaults : newgame_def) :
  draws_nothing (_prompt_choice fuel choice_type ng ng_choice defaults).
Proof.
  unfold _prompt_choice. apply draws_nothing_bind.
  - apply newgame_ui_loop_draws_nothing.
  - intro m. destruct (end_game m); [exact I|].
    apply draws_nothing_bind.
    + destruct (cancel m); [exact I|intro b; exact I].
    + intros [|]; exact I.
Qed.

Lemma prompt_weapon_loop_draws_nothing (fuel : nat) (defweapon : weapon_type)
    (ng_choice : newgame_def) :
  draws_nothing (prompt_weapon_loop fuel defweapon ng_choice).
Proof.
  induction fuel as [|n IH]; cbn [prompt_weapon_loop]; [exact I|].
  unfold seen_hups, pump_events. cbn [bind draws_nothing].
  intros [|]; [exact I|]. cbn [draws_nothing]. intros [key|id|].
  - destruct (_ || _); [exact I|]. destruct (_ || _); [exact I|exact IH].
  - repeat match goal with
           | |- draws_nothing (if ?b then _ else _) => destruct b
           end; try exact I; exact IH.
  - exact IH.
Qed.

Lemma reroll_key_loop_draws_nothing (fuel : nat) :
  draws_nothing (reroll_key_loop fuel).
Proof.
  induction fuel as [|n IH]; cbn [reroll_key_loop]; [exact I|].
  unfold seen_hups, pump_events. cbn [bind draws_nothing].
  intros [|]; [exact I|]. cbn [draws_nothing]. intros [key|id|];
    [exact I|exact IH|exact IH].
Qed.

Lemma reroll_random_draws_nothing (fuel : nat) (ng : newgame_def) :
  draws_nothing (_reroll_random fuel ng).
Proof.
  unfold _reroll_random. apply draws_nothing_bind.
  - apply reroll_key_loop_draws_nothing.
  - intros [c|]; [|exact I]. apply draws_nothing_bind.
    + destruct (_ || _); [exact I|intro b; exact I].
    + intros [|]; exact I.
Qed.

(** X5. The prompts never draw.  [_prompt_choice], [_prompt_weapon] and
    [_reroll_random] end the same way on any two random tapes as long as
    the user is the same, and they leave the tape where it was. *)
Theorem prompts_never_draw (fuel : nat) (choice_type : MenuChoices)
    (ng ng_choice defaults : newgame_def) (weapons : list weapon_choice)
    (w w' : world) :
  same_user w w' ->
  (fst (run (_prompt_choice fuel choice_type ng ng_choice defaults) w)
   = fst (run (_prompt_choice fuel choice_type ng ng_choice defaults) w')
   /\ same_tape
        (snd (run (_prompt_choice fuel choice_type ng ng_choice defaults) w)) w)
  /\
  (fst (run (_prompt_weapon fuel ng ng_choice defaults weapons) w)
   = fst (run (_prompt_weapon fuel ng ng_choice defaults weapons) w')
   /\ same_tape
        (snd (run (_prompt_weapon fuel ng ng_choice defaults weapons) w)) w)
  /\
  (fst (run (_reroll_random fuel ng) w) = fst (run (_reroll_random fuel ng) w')
   /\ same_tape (snd (run (_reroll_random fuel ng) w)) w).
Proof.
  intro Hw. split; [|split].
  - destruct (draws_nothing_run _
                (prompt_choice_draws_nothing fuel choice_type ng ng_choice
                   defaults) w w' Hw) as (E1 & _ & E3). auto.
  - destruct (draws_nothing_run _
                (prompt_weapon_loop_draws_nothing fuel
                   (_fixup_weapon (weapon defaults) weapons) ng_choice)
                w w' Hw) as (E1 & _ & E3). auto.
  - destruct (draws_nothing_run _ (reroll_random_draws_nothing fuel ng)
                w w' Hw) as (E1 & _ & E3). auto.
Qed.

End Silence.

Lemma resolution_never_prompts_witness :
  let ng_choice := set_job (set_species newgame_def_init SP_RANDOM) JOB_VIABLE in
  let w := Sample.scripted [] in
  let w' := Sample.scripted [EvKey 27; EvActivate 3] in
  same_tape w w'
  /\ fst (run (_resolve_species_job (EN := Sample.enums)
                 (RU := Sample.permissive) 1 newgame_def_init ng_choice) w)
     = fst (run (_resolve_species_job (EN := Sample.enums)
                   (RU := Sample.permissive) 1 newgame_def_init ng_choice) w').
Proof.
  intros ng_choice w w'.
  assert (Hw : same_tape w w') by (split; reflexivity).
  split; [exact Hw|].
  exact (proj1 (proj1 (resolution_never_prompts (EN := Sample.enums)
                         (RU := Sample.permissive) 1 newgame_def_init
                         ng_choice [] w w' Hw))).
Defined.

Lemma prompts_never_draw_witness :
  let w := Sample.scripted [EvActivate 3] in
  let w' := mk_world (fun n => 7 * n + 1) 5 (events w) 0 (hangup w) in
  same_user w w'
  /\ fst (run (_prompt_choice (EN := Sample.enums) (RU := Sample.permissive)
                 (PL := Sample.platform) 2 C_SPECIES newgame_def_init
                 newgame_def_init newgame_def_init) w)
     = fst (run (_prompt_choice (EN := Sample.enums) (RU := Sample.permissive)
                   (PL := Sample.platform) 2 C_SPECIES newgame_def_init
                   newgame_def_init newgame_def_init) w').
Proof.
  intros w w'.
  assert (Hw : same_user w w') by (repeat split; reflexivity).
  split; [exact Hw|].
  exact (proj1 (proj1 (prompts_never_draw (EN := Sample.enums)
                         (RU := Sample.permissive) (PL := Sample.platform)
                         2 C_SPECIES newgame_def_init newgame_def_init
                         newgame_def_init [] w w' Hw))).
Defined.


Section MenuExits.
Context {EN : Enums} {RU : Rules} {PL : Platform}.


(** One event at an open menu: it is ignored, or it closes the menu. *)
Lemma menu_event_step (choice_type : MenuChoices)
    (ng ng_choice defaults : newgame_def) (ev : ui_event) :
  let m := mk_menu ng ng_choice false false false in
  let m' := match ev with
            | EvKey keyn => on_event choice_type keyn m
            | EvActivate id => menu_item_activated choice_type defaults id m
            | EvOther => m
            end in
  m' = m
  \/ (done m' = true
      /\ (end_game m' = true \/ cancel m' = true
          \/ menu_exit choice_type ng ng_choice defaults
               (m_ng m') (m_ng_choice m'))).
Proof.
  cbv zeta. destruct ev as [keyn|id|]; [| |left; reflexivity].
  - unfold on_event. cbn [m_ng m_ng_choice done end_game cancel].
    destruct (keyn =? CK_ENTER)%Z; [left; reflexivity|].
    destruct (_ || _); [right; cbn; auto|].
    destruct (_ || _); [right; cbn; auto|].
    destruct (keyn =? CK_BKSP)%Z; [|left; reflexivity].
    right. cbn [m_ng m_ng_choice done end_game cancel].
    split; [reflexivity|]. right; right. unfold menu_exit.
    right; right; right. split; [reflexivity|].
    destruct choice_type; eexists; split; try reflexivity; auto.
  - unfold menu_item_activated. cbn [m_ng m_ng_choice done end_game cancel].
    destruct (id =? M_VIABLE_CHAR)%Z.
    { right. cbn. split; [reflexivity|]. right; right. left.
      exists true. reflexivity. }
    destruct (id =? M_RANDOM_CHAR)%Z.
    { right. cbn. split; [reflexivity|]. right; right. left.
      exists false. reflexivity. }
    destruct (id =? M_DEFAULT_CHOICE)%Z.
    { destruct (_char_defined defaults) eqn:Hd; [|left; reflexivity].
      right. cbn. split; [reflexivity|]. right; right. right; left.
      split; [exact Hd|reflexivity]. }
    destruct (id =? M_ABORT)%Z.
    { right. cbn. split; [reflexivity|]. right; right. right; right; left.
      split; reflexivity. }
    destruct (id =? M_HELP)%Z; [left; reflexivity|].
    destruct (id =? M_APTITUDES)%Z; [left; reflexivity|].
    destruct (id =? M_VIABLE)%Z.
    { right. cbn [done m_ng m_ng_choice]. split; [reflexivity|].
      right; right. right; right; right. split; [reflexivity|].
      destruct choice_type; eexists; split; try reflexivity; auto. }
    destruct (id =? M_RANDOM)%Z.
    { right. cbn [done m_ng m_ng_choice]. split; [reflexivity|].
      right; right. right; right; right. split; [reflexivity|].
      destruct choice_type; eexists; split; try reflexivity; auto. }
    destruct choice_type.
    + destruct (job_eqb (job ng) JOB_UNKNOWN) eqn:Hj; cbn [orb].
      * right. cbn [done m_ng m_ng_choice]. split; [reflexivity|].
        right; right. right; right; right. split; [reflexivity|].
        eexists; split; [reflexivity|]. apply job_eqb_eq in Hj. auto.
      * destruct (cc_eqb _ CC_BANNED) eqn:Hb; cbn [negb];
          [left; reflexivity|].
        right. cbn [done m_ng m_ng_choice]. split; [reflexivity|].
        right; right. right; right; right. split; [reflexivity|].
        eexists; split; [reflexivity|]. apply cc_eqb_neq in Hb. auto 6.
    + destruct (species_eqb (species ng) SP_UNKNOWN) eqn:Hs; cbn [orb].
      * right. cbn [done m_ng m_ng_choice]. split; [reflexivity|].
        right; right. right; right; right. split; [reflexivity|].
        eexists; split; [reflexivity|]. apply species_eqb_eq in Hs. auto.
      * destruct (cc_eqb _ CC_BANNED) eqn:Hb; cbn [negb];
          [left; reflexivity|].
        right. cbn [done m_ng m_ng_choice]. split; [reflexivity|].
        right; right. right; right; right. split; [reflexivity|].
        eexists; split; [reflexivity|]. apply cc_eqb_neq in Hb. auto 6.
Qed.

Lemma newgame_ui_loop_exits (fuel : nat) (choice_type : MenuChoices)
    (ng ng_choice defaults : newgame_def) :
  forall (w : world) (m' : UINewGameMenu) (w' : world),
  run (newgame_ui_loop fuel choice_type defaults
         (mk_menu ng ng_choice false false false)) w = (Returned m', w') ->
  end_game m' = true \/ cancel m' = true
  \/ menu_exit choice_type ng ng_choice defaults (m_ng m') (m_ng_choice m').
Proof.
  induction fuel as [|n IH]; intros w m' w' H;
    cbn [newgame_ui_loop done] in H; [discriminate|].
  unfold pump_events in H. cbn [bind run] in H.
  destruct (menu_event_step choice_type ng ng_choice defaults (next_event w))
    as [E|[Hd Hex]]; cbv zeta in *.
  - rewrite E in H. now apply IH in H.
  - destruct n; cbn [newgame_ui_loop] in H; rewrite Hd in H;
      rewrite run_ret in H; injection H as <- _; exact Hex.
Qed.

(** X6. What the species/background menu can return.  Whenever
    [_prompt_choice] returns, one of four things has happened: the
    character was marked fully random (ng cleared, request set to
    RANDOM/RANDOM or VIABLE/VIABLE with fully_random); the defined defaults
    were taken (ng cleared, request replaced by defaults but for name and
    type); both fields of ng and of the request were reset to unknown; or
    ng is untouched and only the menu's own field of the request changed,
    to a placeholder, to unknown, or to a selection that is not banned
    against the other field when ng holds it.  A banned entry is never
    stored. *)
Theorem prompt_choice_exits (fuel : nat) (choice_type : MenuChoices)
    (ng ng_choice defaults : newgame_def) (w : world)
    (ng' ng_choice' : newgame_def) (w' : world) :
  run (_prompt_choice fuel choice_type ng ng_choice defaults) w
  = (Returned (ng', ng_choice'), w') ->
  menu_exit choice_type ng ng_choice defaults ng' ng_choice'.
Proof.
  intro H. unfold _prompt_choice in H.
  apply run_bind_inv in H. destruct H as (m & w1 & Hm & H).
  apply newgame_ui_loop_exits in Hm.
  destruct (end_game m); [discriminate|].
  apply run_bind_inv in H. destruct H as (stop & w2 & Hs & H).
  destruct stop; [discriminate|].
  rewrite run_ret in H. injection H as <- <- _.
  destruct (cancel m).
  - rewrite run_ret in Hs. discriminate.
  - destruct Hm as [Hm|[Hm|Hm]]; [discriminate|discriminate|exact Hm].
Qed.

End MenuExits.


Section WeaponCandidates.
Context {EN : Enums} {RU : Rules} {PL : Platform}.


Lemma fold_push_filter (ng : newgame_def) (g : weapon_type -> weapon_type)
    (startwep : list weapon_type) :
  forall weapons,
  fold_left (fun weapons wp => push_unless_banned ng (g wp) weapons)
            startwep weapons
  = weapons
    ++ List.map (fun wp => (wp, weapon_restriction wp ng))
         (filter (fun wp => negb (cc_eqb (weapon_restriction wp ng) CC_BANNED))
                 (List.map g startwep)).
Proof.
  induction startwep as [|wp rest IH]; intro weapons; cbn [fold_left List.map filter].
  - now rewrite app_nil_r.
  - rewrite IH. unfold push_unless_banned.
    destruct (negb (cc_eqb (weapon_restriction (g wp) ng) CC_BANNED)).
    + cbn [List.map]. now rewrite <- app_assoc.
    + reflexivity.
Qed.

Lemma get_weapons_filter (ng : newgame_def) :
  _get_weapons ng
  = List.map (fun wp => (wp, weapon_restriction wp ng))
      (filter (fun wp => negb (cc_eqb (weapon_restriction wp ng) CC_BANNED))
              (starting_weapons ng)).
Proof.
  unfold _get_weapons, starting_weapons.
  destruct (job_gets_ranged_weapons (job ng)); cbv zeta.
  - rewrite (fold_push_filter ng (fun wp => wp)). now rewrite map_id.
  - rewrite (fold_push_filter ng
               (fun wp => if job_gets_good_weapons (job ng)
                          then _starting_weapon_upgrade wp (job ng) (species ng)
                          else wp)).
    reflexivity.
Qed.

Lemma starting_weapons_nodup (ng : newgame_def) :
  NoDup (starting_weapons ng).
Proof.
  unfold starting_weapons.
  destruct (job_gets_ranged_weapons (job ng)).
  - repeat constructor; cbn; intuition discriminate.
  - destruct (job_gets_good_weapons (job ng)); cbn [List.map].
    + unfold _starting_weapon_upgrade.
      destruct (job_eqb (job ng) JOB_FIGHTER
                && (species_size_torso (species ng) <=? SIZE_SMALL)%Z);
        repeat constructor; cbn; intuition discriminate.
    + repeat constructor; cbn; intuition discriminate.
Qed.

Lemma starting_weapons_actual (ng : newgame_def) (wp : weapon_type) :
  In wp (starting_weapons ng) ->
  wp <> WPN_UNKNOWN /\ wp <> WPN_RANDOM /\ wp <> WPN_VIABLE.
Proof.
  unfold starting_weapons.
  destruct (job_gets_ranged_weapons (job ng)).
  - cbn. intuition (subst; discriminate).
  - destruct (job_gets_good_weapons (job ng)); cbn [List.map].
    + unfold _starting_weapon_upgrade.
      destruct (job_eqb (job ng) JOB_FIGHTER
                && (species_size_torso (species ng) <=? SIZE_SMALL)%Z);
        cbn; intuition (subst; discriminate).
    + cbn. intuition (subst; discriminate).
Qed.

(** X7. The weapon candidates.  [_get_weapons] returns exactly the entries
    of its table (the four ranged weapons, or the seven melee weapons,
    upgraded for a job with good weapons) that are not banned for ng, in
    table order, each with its restriction level: no weapon twice, at most
    seven, and never one of the placeholders. *)
Theorem get_weapons_offers_each_legal_weapon_once (ng : newgame_def) :
  _get_weapons ng
  = List.map (fun wp => (wp, weapon_restriction wp ng))
      (filter (fun wp => negb (cc_eqb (weapon_restriction wp ng) CC_BANNED))
              (starting_weapons ng))
  /\ NoDup (List.map fst (_get_weapons ng))
  /\ List.length (_get_weapons ng) <= 7
  /\ (forall wp, In wp (List.map fst (_get_weapons ng)) <->
                 In wp (starting_weapons ng)
                 /\ weapon_restriction wp ng <> CC_BANNED)
  /\ (forall wp, In wp (List.map fst (_get_weapons ng)) ->
                 wp <> WPN_UNKNOWN /\ wp <> WPN_RANDOM /\ wp <> WPN_VIABLE).
Proof.
  assert (Hmem : forall wp, In wp (List.map fst (_get_weapons ng)) <->
                 In wp (starting_weapons ng)
                 /\ weapon_restriction wp ng <> CC_BANNED).
  { intro wp. rewrite get_weapons_filter, map_map. cbn [fst].
    rewrite map_id, filter_In.
    split; intros [Hin H]; (split; [exact Hin|]).
    - apply cc_eqb_neq. now destruct (cc_eqb _ _).
    - apply cc_eqb_neq in H. now rewrite H. }
  split; [apply get_weapons_filter|]. split; [|split; [|split]].
  - rewrite get_weapons_filter, map_map. cbn [fst]. rewrite map_id.
    apply NoDup_filter, starting_weapons_nodup.
  - rewrite get_weapons_filter, length_map.
    etransitivity; [apply filter_length_le|].
    unfold starting_weapons.
    destruct (job_gets_ranged_weapons (job ng)); [cbn; lia|].
    rewrite length_map. cbn. lia.
  - exact Hmem.
  - intros wp Hin. apply Hmem in Hin. destruct Hin as [Hin _].
    now apply starting_weapons_actual in Hin.
Qed.

End WeaponCandidates.

Section WeaponResults.
Context {EN : Enums} {RU : Rules} {PL : Platform}.

Lemma fixup_weapon_cases (wp : weapon_type) (weapons : list weapon_choice) :
  (_fixup_weapon wp weapons = wp
   /\ (wp = WPN_UNKNOWN \/ wp = WPN_RANDOM \/ wp = WPN_VIABLE
       \/ In wp (List.map fst weapons)))
  \/ (_fixup_weapon wp weapons = WPN_UNKNOWN
      /\ ~ In wp (List.map fst weapons)).
Proof.
  unfold _fixup_weapon.
  destruct (weapon_eqb wp WPN_UNKNOWN) eqn:E1;
    [apply weapon_eqb_eq in E1; left; auto|].
  destruct (weapon_eqb wp WPN_RANDOM) eqn:E2;
    [apply weapon_eqb_eq in E2; left; auto|].
  destruct (weapon_eqb wp WPN_VIABLE) eqn:E3;
    [apply weapon_eqb_eq in E3; left; auto|].
  cbn [orb].
  destruct (existsb (fun choice => weapon_eqb wp (fst choice)) weapons) eqn:E.
  - left. split; [reflexivity|]. do 3 right.
    apply existsb_exists in E. destruct E as (c & Hin & Hc).
    apply weapon_eqb_eq in Hc. subst wp. now apply in_map.
  - right. split; [reflexivity|]. intro Hin.
    apply in_map_iff in Hin. destruct Hin as (c & <- & Hin).
    assert (existsb (fun choice => weapon_eqb (fst c) (fst choice)) weapons
            = true).
    { apply existsb_exists. exists c. split; [exact Hin|].
      now apply weapon_eqb_eq. }
    congruence.
Qed.

Lemma weapon_case_random_returned (ng : newgame_def)
    (weapons : list weapon_choice) (w : world) (ng1 : newgame_def)
    (w1 : world) :
  run (weapon_case_random ng weapons) w = (Returned ng1, w1) ->
  exists choice, In choice weapons /\ ng1 = set_weapon ng (fst choice).
Proof.
  unfold weapon_case_random, random_element, random2. cbn [bind run].
  destruct (nth_error weapons _) as [c|] eqn:E; cbn [bind run];
    [|discriminate].
  intro H. injection H as <- _. exists c. split; [|reflexivity].
  now apply nth_error_In in E.
Qed.

(** What [_resolve_weapon] writes to ng.weapon. *)
Lemma resolve_weapon_returned (ng ng_choice : newgame_def)
    (weapons : list weapon_choice) (w : world) (ng1 : newgame_def)
    (w1 : world) :
  run (_resolve_weapon ng ng_choice weapons) w = (Returned ng1, w1) ->
  exists wp, ng1 = set_weapon ng wp
    /\ (In wp (List.map fst weapons)
        \/ (wp = _fixup_weapon (weapon ng_choice) weapons
            /\ (allowed_weapons ng_choice = [] ->
                weapon ng_choice <> WPN_RANDOM
                /\ weapon ng_choice <> WPN_VIABLE))).
Proof.
  intro H. unfold _resolve_weapon in H.
  apply run_bind_inv in H. destruct H as (weapon_ & w0 & H0 & H).
  assert (Hw : allowed_weapons ng_choice = [] -> weapon_ = weapon ng_choice).
  { intro E. rewrite E in H0. cbn in H0. now injection H0 as <- _. }
  assert (Hrand : forall ng0 w ng1 w1,
    run (weapon_case_random ng0 weapons) w = (Returned ng1, w1) ->
    exists wp, ng1 = set_weapon ng0 wp /\ In wp (List.map fst weapons)).
  { intros ng0 wa ng2 wb Hr. apply weapon_case_random_returned in Hr.
    destruct Hr as (c & Hin & ->). exists (fst c).
    split; [reflexivity|now apply in_map]. }
  unfold resolve_weapon_switch in H.
  destruct weapon_ eqn:Ewp;
    try (rewrite run_ret in H; injection H as <- _;
         eexists; split; [reflexivity|]; right; split; [reflexivity|];
         intro E; rewrite <- (Hw E); split; discriminate).
  - apply Hrand in H. destruct H as (wp & -> & Hin). exists wp. auto.
  - apply run_bind_inv in H. destruct H as ([n s'] & w2 & Hr & H).
    apply (reservoir_returned _ (fun _ => true)
             (fun choice ng => set_weapon ng (fst choice)) HOutOfFuel) in Hr;
      [|reflexivity].
    destruct Hr as [_ [[-> ->]|(Hn & c & Hin & _ & ->)]].
    + cbn [Nat.eqb negb] in H. apply Hrand in H.
      destruct H as (wp & -> & Hin). exists wp. auto.
    + destruct n; [lia|]. cbn [Nat.eqb negb] in H.
      rewrite run_ret in H. injection H as <- _.
      exists (fst c). split; [reflexivity|]. left.
      apply filter_In in Hin. now apply in_map.
Qed.

(** What the weapon prompt hands back. *)
Lemma prompt_weapon_loop_returned (fuel : nat) (defweapon : weapon_type)
    (ng_choice : newgame_def) :
  forall (w : world) (ret : bool) (c' : newgame_def) (w' : world),
  run (prompt_weapon_loop fuel defweapon ng_choice) w
  = (Returned (ret, c'), w') ->
  (ret = false /\ c' = ng_choice)
  \/ (ret = true /\ exists wp, c' = set_weapon ng_choice wp).
Proof.
  induction fuel as [|n IH]; intros w ret c' w' H;
    cbn [prompt_weapon_loop] in H; [discriminate|].
  unfold seen_hups, pump_events in H. cbn [bind run] in H.
  destruct (hangup w (events_pos w)).
  { cbn [bind run] in H. injection H as <- <- _. auto. }
  cbn [bind run] in H. destruct (next_event w) as [key|id|].
  - destruct (_ || _); [discriminate|].
    destruct (_ || _).
    + rewrite run_ret in H. injection H as <- <- _. auto.
    + now apply IH in H.
  - repeat match type of H with
           | run (if ?b then _ else _) _ = _ => destruct b
           end;
      try (now apply IH in H);
      rewrite run_ret in H; injection H as <- <- _; eauto.
  - now apply IH in H.
Qed.

(** X8. The weapon sub-stage assigns a legal weapon.  For a species other
    than felid and a job with a weapon choice, every run of
    [_choose_weapon] that returns has written ng.weapon only, and nothing
    of the request but its weapon.  When it returns true, ng.weapon is one
    of the candidates of [_get_weapons], hence not banned, or it is
    WPN_UNKNOWN (the id activated at the prompt was no candidate), or, only
    when the request has a list of allowed weapons, one of the placeholders
    RANDOM and VIABLE.  When it returns false, ng.weapon is WPN_UNKNOWN and
    the request is untouched. *)
Theorem chosen_weapon_is_legal (fuel : nat)
    (ng ng_choice defaults : newgame_def) (w : world)
    (chosen : bool) (ng1 ng_choice1 : newgame_def) (w1 : world) :
  species ng <> SP_FELID -> job_has_weapon_choice (job ng) = true ->
  run (_choose_weapon fuel ng ng_choice defaults) w
  = (Returned (chosen, ng1, ng_choice1), w1) ->
  ng1 = set_weapon ng (weapon ng1)
  /\ (chosen = true ->
      (In (weapon ng1) (List.map fst (_get_weapons ng))
       /\ weapon_restriction (weapon ng1) ng <> CC_BANNED)
      \/ weapon ng1 = WPN_UNKNOWN
      \/ (allowed_weapons ng_choice <> []
          /\ (weapon ng1 = WPN_RANDOM \/ weapon ng1 = WPN_VIABLE)))
  /\ (chosen = false -> weapon ng1 = WPN_UNKNOWN /\ ng_choice1 = ng_choice)
  /\ ng_choice1 = set_weapon ng_choice (weapon ng_choice1).
Proof.
  intros Hsp Hch H. unfold _choose_weapon in H.
  rewrite (proj2 (species_eqb_neq _ _) Hsp), Hch in H. cbn [negb] in H.
  cbv zeta in H.
  assert (Hlegal : forall wp, In wp (List.map fst (_get_weapons ng)) ->
            weapon_restriction wp ng <> CC_BANNED).
  { intros wp Hin. apply in_map_iff in Hin. destruct Hin as (c & <- & Hin).
    apply get_weapons_legal in Hin. destruct Hin as [E Hne]. now rewrite <- E. }
  assert (Hres : forall ng0 c0 w ng2 w2,
    allowed_weapons c0 = allowed_weapons ng_choice ->
    run (_resolve_weapon ng0 c0 (_get_weapons ng)) w = (Returned ng2, w2) ->
    ng2 = set_weapon ng0 (weapon ng2)
    /\ ((In (weapon ng2) (List.map fst (_get_weapons ng))
         /\ weapon_restriction (weapon ng2) ng <> CC_BANNED)
        \/ weapon ng2 = WPN_UNKNOWN
        \/ (allowed_weapons ng_choice <> []
            /\ (weapon ng2 = WPN_RANDOM \/ weapon ng2 = WPN_VIABLE)))).
  { intros ng0 c0 wa ng2 wb Ea Hr. apply resolve_weapon_returned in Hr.
    destruct Hr as (wp & -> & Hwp). cbn [weapon set_weapon].
    split; [reflexivity|].
    destruct Hwp as [Hin|[-> Hpl]]; [left; auto|].
    destruct (fixup_weapon_cases (weapon c0) (_get_weapons ng))
      as [[-> [E|[E|[E|Hin]]]]|[-> _]]; auto.
    - right; right. split; [|auto].
      intro Enil. rewrite <- Ea in Enil. now destruct (Hpl Enil).
    - right; right. split; [|auto].
      intro Enil. rewrite <- Ea in Enil. now destruct (Hpl Enil). }
  destruct (List.length (_get_weapons ng) =? 0); [discriminate|].
  destruct (List.length (_get_weapons ng) =? 1) eqn:E1.
  { rewrite run_ret in H. injection H as <- <- <- _. cbn [weapon set_weapon].
    split; [reflexivity|]. split; [|split; [discriminate|reflexivity]].
    intros _. left.
    assert (Hin : In (fst (nth 0 (_get_weapons ng) (WPN_UNKNOWN, CC_BANNED)))
                     (List.map fst (_get_weapons ng))).
    { apply in_map, nth_In. apply Nat.eqb_eq in E1. lia. }
    auto. }
  apply run_bind_inv in H. destruct H as (ng2 & w2 & H2 & H).
  apply (Hres ng ng_choice) in H2; [|reflexivity]. destruct H2 as [F2 L2].
  destruct (weapon_eqb (weapon ng2) WPN_UNKNOWN) eqn:Eu.
  - apply weapon_eqb_eq in Eu.
    apply run_bind_inv in H. destruct H as ([ret c3] & w3 & H3 & H).
    apply prompt_weapon_loop_returned in H3.
    destruct H3 as [[-> ->]|[-> [wp ->]]]; cbn [negb] in H.
    + rewrite run_ret in H. injection H as <- <- <- _.
      split; [exact F2|]. split; [discriminate|]. split; [auto|].
      symmetry. apply set_weapon_same.
    + apply run_bind_inv in H. destruct H as (ng4 & w4 & H4 & H).
      rewrite run_ret in H. injection H as <- <- <- _.
      apply (Hres ng2 (set_weapon ng_choice wp)) in H4; [|reflexivity].
      destruct H4 as [F4 L4].
      split; [rewrite F4, F2; reflexivity|].
      split; [auto|]. split; [discriminate|]. reflexivity.
  - rewrite run_ret in H. injection H as <- <- <- _.
    split; [exact F2|]. split; [auto|]. split; [discriminate|].
    symmetry. apply set_weapon_same.
Qed.

End WeaponResults.

Lemma chosen_weapon_is_legal_witness :
  let ng := set_job (set_species newgame_def_init SP_HUMAN) JOB_GLADIATOR in
  let w := Sample.scripted [EvActivate 5] in
  fst (run (_choose_weapon (EN := Sample.enums) (RU := Sample.permissive)
              (PL := Sample.platform) 3 ng newgame_def_init newgame_def_init)
           w)
  = Returned (true, set_weapon ng WPN_MACE,
              set_weapon newgame_def_init WPN_MACE)
  /\ (In WPN_MACE
        (List.map fst (_get_weapons (RU := Sample.permissive) ng))
      /\ weapon_restriction (Rules := Sample.permissive) WPN_MACE ng
         <> CC_BANNED
      \/ WPN_MACE = WPN_UNKNOWN
      \/ allowed_weapons newgame_def_init <> []
         /\ (WPN_MACE = WPN_RANDOM \/ WPN_MACE = WPN_VIABLE)).
Proof.
  intros ng w. split; [vm_compute; reflexivity|].
  refine (proj1 (proj2
            (chosen_weapon_is_legal (EN := Sample.enums)
               (RU := Sample.permissive) (PL := Sample.platform)
               3 ng newgame_def_init newgame_def_init w true
               (set_weapon ng WPN_MACE) (set_weapon newgame_def_init WPN_MACE)
               (snd (run (_choose_weapon (EN := Sample.enums)
                            (RU := Sample.permissive) (PL := Sample.platform)
                            3 ng newgame_def_init newgame_def_init) w))
               _ eq_refl _)) eq_refl).
  - discriminate.
  - vm_compute. reflexivity.
Defined.

Section Identity.
Context {EN : Enums} {RU : Rules} {PL : Platform}.

Lemma menu_exit_frame (choice_type : MenuChoices)
    (ng ng_choice defaults ng' ng_choice' : newgame_def) :
  menu_exit choice_type ng ng_choice defaults ng' ng_choice' ->
  clear_character ng' = clear_character ng
  /\ name ng_choice' = name ng_choice /\ type ng_choice' = type ng_choice.
Proof.
  intros [[viable E]|[[_ E]|[[-> ->]|[-> E]]]].
  - destruct viable; injection E as -> ->; auto.
  - injection E as -> ->; auto.
  - auto.
  - destruct choice_type; destruct E as (x & -> & _); auto.
Qed.

Lemma resolve_species_job_frame (fuel : nat) (ng ng_choice : newgame_def)
    (w : world) (ng1 : newgame_def) (w1 : world) :
  run (_resolve_species_job fuel ng ng_choice) w = (Returned ng1, w1) ->
  clear_character ng1 = clear_character ng.
Proof.
  intro H. unfold _resolve_species_job in H.
  apply run_bind_inv in H. destruct H as (b & w0 & _ & H).
  destruct b; unfold species_then_job, job_then_species in H;
    apply run_bind_inv in H; destruct H as (ng0 & w2 & H0 & H).
  - apply resolve_species_frame in H0. apply resolve_job_frame in H.
    rewrite H, H0. reflexivity.
  - apply resolve_job_frame in H0. apply resolve_species_frame in H.
    rewrite H, H0. reflexivity.
Qed.

Lemma prompt_choice_frame (fuel : nat) (choice_type : MenuChoices)
    (ng ng_choice defaults : newgame_def) (w : world)
    (ng' ng_choice' : newgame_def) (w' : world) :
  run (_prompt_choice fuel choice_type ng ng_choice defaults) w
  = (Returned (ng', ng_choice'), w') ->
  clear_character ng' = clear_character ng
  /\ name ng_choice' = name ng_choice /\ type ng_choice' = type ng_choice.
Proof.
  intro H. apply prompt_choice_exits in H.
  now apply menu_exit_frame in H.
Qed.

Lemma choose_species_job_loop_frame (fuel0 fuel : nat) (defaults : newgame_def) :
  forall (ng ng_choice : newgame_def) (w : world)
         (ng' ng_choice' : newgame_def) (w' : world),
  run (choose_species_job_loop fuel0 fuel ng ng_choice defaults) w
  = (Returned (ng', ng_choice'), w') ->
  clear_character ng' = clear_character ng
  /\ name ng_choice' = name ng_choice /\ type ng_choice' = type ng_choice.
Proof.
  induction fuel as [|n IH]; intros ng c w ng' c' w' H;
    cbn [choose_species_job_loop] in H;
    destruct (species_eqb (species c) SP_UNKNOWN || job_eqb (job c) JOB_UNKNOWN);
    try discriminate;
    try (rewrite run_ret in H; injection H as <- <- _; auto; fail).
  apply run_bind_inv in H. destruct H as ([ng1 c1] & w1 & H1 & H).
  assert (F1 : clear_character ng1 = clear_character ng
               /\ name c1 = name c /\ type c1 = type c).
  { destruct (species_eqb (species c) SP_UNKNOWN).
    - now apply prompt_choice_frame in H1.
    - rewrite run_ret in H1. injection H1 as <- <- _. auto. }
  apply run_bind_inv in H. destruct H as (ng2 & w2 & H2 & H).
  apply resolve_species_job_frame in H2.
  apply run_bind_inv in H. destruct H as ([ng3 c3] & w3 & H3 & H).
  assert (F3 : clear_character ng3 = clear_character ng2
               /\ name c3 = name c1 /\ type c3 = type c1).
  { destruct (job_eqb (job c1) JOB_UNKNOWN).
    - now apply prompt_choice_frame in H3.
    - rewrite run_ret in H3. injection H3 as <- <- _. auto. }
  apply run_bind_inv in H. destruct H as (ng4 & w4 & H4 & H).
  apply resolve_species_job_frame in H4.
  apply IH in H. destruct H as (A & B & C).
  destruct F1 as (A1 & B1 & C1). destruct F3 as (A3 & B3 & C3).
  repeat split; congruence.
Qed.

Lemma choose_species_job_frame (fuel : nat)
    (ng ng_choice defaults : newgame_def) (w : world)
    (ng' ng_choice' : newgame_def) (w' : world) :
  run (_choose_species_job fuel ng ng_choice defaults) w
  = (Returned (ng', ng_choice'), w') ->
  clear_character ng' = clear_character ng
  /\ name ng_choice' = name ng_choice /\ type ng_choice' = type ng_choice.
Proof.
  intro H. unfold _choose_species_job in H.
  apply run_bind_inv in H. destruct H as (ng0 & w0 & H0 & H).
  apply resolve_species_job_frame in H0.
  apply run_bind_inv in H. destruct H as ([ng1 c1] & w1 & H1 & H).
  apply choose_species_job_loop_frame in H1.
  apply check_job_allowed_returns in H. destruct H as (E & _ & _).
  injection E as <- <-. destruct H1 as (A & B & C).
  repeat split; congruence.
Qed.

Lemma choose_weapon_frame (fuel : nat) (ng ng_choice defaults : newgame_def)
    (w : world) (chosen : bool) (ng1 ng_choice1 : newgame_def) (w1 : world) :
  run (_choose_weapon fuel ng ng_choice defaults) w
  = (Returned (chosen, ng1, ng_choice1), w1) ->
  ng1 = set_weapon ng (weapon ng1)
  /\ ng_choice1 = set_weapon ng_choice (weapon ng_choice1).
Proof.
  unfold _choose_weapon.
  destruct (species_eqb (species ng) SP_FELID);
    [rewrite run_ret; intro H; injection H as _ <- <- _;
     split; symmetry; apply set_weapon_same|].
  destruct (negb (job_has_weapon_choice (job ng)));
    [rewrite run_ret; intro H; injection H as _ <- <- _;
     split; symmetry; apply set_weapon_same|].
  cbv zeta.
  destruct (List.length (_get_weapons ng) =? 0); [discriminate|].
  destruct (List.length (_get_weapons ng) =? 1);
    [rewrite run_ret; intro H; injection H as _ <- <- _; auto|].
  intro H. apply run_bind_inv in H. destruct H as (ng2 & w2 & H2 & H).
  apply resolve_weapon_frame in H2.
  destruct (weapon_eqb (weapon ng2) WPN_UNKNOWN).
  - apply run_bind_inv in H. destruct H as ([ret c3] & w3 & H3 & H).
    apply prompt_weapon_loop_returned in H3.
    destruct H3 as [[-> ->]|[-> [wp ->]]]; cbn [negb] in H.
    + rewrite run_ret in H. injection H as _ <- <- _.
      split; [exact H2|symmetry; apply set_weapon_same].
    + apply run_bind_inv in H. destruct H as (ng4 & w4 & H4 & H).
      apply resolve_weapon_frame in H4.
      rewrite run_ret in H. injection H as _ <- <- _.
      split; [rewrite H4, H2; reflexivity|reflexivity].
  - rewrite run_ret in H. injection H as _ <- <- _.
    split; [exact H2|symmetry; apply set_weapon_same].
Qed.

Lemma random_element_returned {T : Type} (what : string) (v : list T)
    (w : world) (x : T) (w' : world) :
  run (random_element what v) w = (Returned x, w') ->
  In x v /\ w' = skip_raw w.
Proof.
  unfold random_element, random2. cbn [bind run].
  destruct (nth_error v _) as [y|] eqn:E; cbn [bind run]; [|discriminate].
  intro H. injection H as <- <-. split; [|reflexivity].
  now apply nth_error_In in E.
Qed.

(** The allow-list block changes the species, job and weapon of the request
    only. *)
Lemma choose_from_allowed_frame (choice : newgame_def) (w : world)
    (choice' : newgame_def) (w' : world) :
  run (choose_from_allowed choice) w = (Returned choice', w') ->
  clear_character choice' = clear_character choice.
Proof.
  intro H. unfold choose_from_allowed in H.
  apply run_bind_inv in H. destruct H as (c1 & w1 & H1 & H).
  assert (F1 : clear_character c1 = clear_character choice).
  { destruct (negb (List.length (allowed_species choice) =? 0)).
    - apply run_bind_inv in H1. destruct H1 as (sp & w0 & _ & H1).
      rewrite run_ret in H1. now injection H1 as <- _.
    - rewrite run_ret in H1. now injection H1 as <- _. }
  apply run_bind_inv in H. destruct H as (c2 & w2 & H2 & H).
  assert (F2 : clear_character c2 = clear_character c1).
  { destruct (negb (List.length (allowed_jobs c1) =? 0)).
    - apply run_bind_inv in H2. destruct H2 as (sp & w0 & _ & H2).
      rewrite run_ret in H2. now injection H2 as <- _.
    - rewrite run_ret in H2. now injection H2 as <- _. }
  assert (F3 : clear_character choice' = clear_character c2).
  { destruct (negb (List.length (allowed_weapons c2) =? 0)).
    - apply run_bind_inv in H. destruct H as (sp & w0 & _ & H).
      rewrite run_ret in H. now injection H as <- _.
    - rewrite run_ret in H. now injection H as <- _. }
  congruence.
Qed.

Lemma choose_from_combos_frame (choice : newgame_def) (w : world)
    (choice' : newgame_def) (w' : world) :
  run (choose_from_combos choice) w = (Returned choice', w') ->
  clear_character choice' = clear_character choice.
Proof.
  intro H. unfold choose_from_combos in H.
  apply run_bind_inv in H. destruct H as (combo & w1 & _ & H).
  destruct (split_string "." combo) as [|part0 more].
  { rewrite run_ret in H. now injection H as <- _. }
  apply run_bind_inv in H. destruct H as (c1 & w2 & H1 & H).
  assert (F1 : clear_character c1 = clear_character choice).
  { destruct (String.length (trim_string part0) =? 4).
    - rewrite run_ret in H1. now injection H1 as <- _.
    - destruct (combo_species_scan _ _ _) as [sp found].
      destruct (negb (species_eqb sp SP_UNKNOWN)).
      + apply run_bind_inv in H1. destruct H1 as (temp & w0 & _ & H1).
        rewrite run_ret in H1. injection H1 as <- _.
        destruct found; reflexivity.
      + rewrite run_ret in H1. injection H1 as <- _.
        destruct found; reflexivity. }
  destruct more as [|part1 rest]; rewrite run_ret in H;
    injection H as <- _; [exact F1|].
  rewrite <- F1. reflexivity.
Qed.


Lemma attempt_frame (fuel : nat) (ng_reset ng choice defaults : newgame_def)
    (w : world) (r : attempt_result) (w' : world) :
  run (choose_char_attempt fuel ng_reset ng choice defaults) w
  = (Returned r, w') ->
  match r with
  | AttemptDone ng' choice' =>
      clear_character ng' = clear_character ng
      /\ name choice' = name choice /\ type choice' = type choice
  | AttemptRerolled ng' choice' _ =>
      ng' = ng_reset
      /\ name choice' = name choice /\ type choice' = type choice
  | AttemptChooseAgain ng' choice' _ => ng' = ng_reset /\ choice' = ng_reset
  end.
Proof.
  intro H. unfold choose_char_attempt in H.
  apply run_bind_inv in H. destruct H as (c0 & w0 & H0 & H).
  assert (F0 : clear_character c0 = clear_character choice).
  { destruct (negb (List.length (allowed_combos choice) =? 0)).
    - now apply choose_from_combos_frame in H0.
    - now apply choose_from_allowed_frame in H0. }
  assert (N0 : name c0 = name choice /\ type c0 = type choice).
  { split; [exact (f_equal name F0)|exact (f_equal type F0)]. }
  apply run_bind_inv in H. destruct H as ([ng1 c1] & w1 & H1 & H).
  apply choose_species_job_frame in H1. destruct H1 as (A1 & B1 & C1).
  unfold confirm_and_arm in H.
  apply run_bind_inv in H. destruct H as (reroll & w2 & _ & H).
  destruct reroll.
  - rewrite run_ret in H. injection H as <- _.
    destruct N0. repeat split; congruence.
  - apply run_bind_inv in H.
    destruct H as ([[chosen ng2] c2] & w3 & H3 & H).
    apply choose_weapon_frame in H3. destruct H3 as [A3 B3].
    destruct chosen; rewrite run_ret in H; injection H as <- _.
    + destruct N0. rewrite A3, B3. cbn [name type set_weapon].
      repeat split; try congruence.
      rewrite <- A1. reflexivity.
    + auto.
Qed.

Lemma choose_char_loop_frame (fuel0 fuel : nat) (ng_reset : newgame_def) :
  forall (ng choice defaults : newgame_def) (w : world)
         (ng' choice' : newgame_def) (w' : world),
  run (choose_char_loop fuel0 fuel ng_reset ng choice defaults) w
  = (Returned (ng', choice'), w') ->
  clear_character ng = clear_character ng_reset ->
  clear_character ng' = clear_character ng_reset
  /\ (name choice = name ng_reset -> type choice = type ng_reset ->
      name choice' = name ng_reset /\ type choice' = type ng_reset).
Proof.
  induction fuel as [|n IH]; intros ng c d w ng' c' w' H Hng;
    cbn [choose_char_loop] in H; [discriminate|].
  apply run_bind_inv in H. destruct H as (r & w1 & Hr & H).
  apply attempt_frame in Hr.
  destruct r as [ng1 c1|ng1 c1 d1|ng1 c1 d1].
  - rewrite run_ret in H. injection H as <- <- _.
    destruct Hr as (A & B & C). split; [congruence|].
    intros; split; congruence.
  - destruct Hr as (-> & B & C).
    apply IH in H; [|reflexivity]. destruct H as [A D].
    split; [exact A|]. intros; apply D; congruence.
  - destruct Hr as (-> & ->).
    apply IH in H; [|reflexivity]. destruct H as [A D].
    split; [exact A|]. intros; apply D; reflexivity.
Qed.

(** X9. [_choose_char] writes the character only.  Whatever the tape and
    the user do, the ng with which [_choose_char] returns differs from the
    ng passed in by species, job and weapon at most.  Outside hints mode,
    when the request came in with the name and game type of ng (as
    [choose_game] passes it), it goes out with them too. *)
Theorem choose_char_writes_the_character_only (fuel : nat)
    (ng choice defaults : newgame_def) (w : world)
    (ng' choice' : newgame_def) (w' : world) :
  run (_choose_char fuel ng choice defaults) w
  = (Returned (ng', choice'), w') ->
  clear_character ng' = clear_character ng
  /\ (type ng <> GAME_TYPE_HINTS ->
      name choice = name ng -> type choice = type ng ->
      name choice' = name ng /\ type choice' = type ng).
Proof.
  unfold _choose_char. intro H.
  apply run_bind_inv in H. destruct H as (c0 & w0 & H0 & H).
  apply choose_char_loop_frame in H; [|reflexivity].
  destruct H as [A D]. split; [exact A|].
  intros Hh Hn Ht. apply D.
  - destruct (game_type_eqb (type ng) GAME_TYPE_TUTORIAL).
    + rewrite run_ret in H0. injection H0 as <- _. exact Hn.
    + destruct (game_type_eqb (type ng) GAME_TYPE_HINTS) eqn:E.
      * unfold game_type_eqb in E.
        destruct (game_type_eq_dec (type ng) GAME_TYPE_HINTS);
          [contradiction|discriminate].
      * rewrite run_ret in H0. injection H0 as <- _. exact Hn.
  - destruct (game_type_eqb (type ng) GAME_TYPE_TUTORIAL).
    + rewrite run_ret in H0. injection H0 as <- _. exact Ht.
    + destruct (game_type_eqb (type ng) GAME_TYPE_HINTS) eqn:E.
      * unfold game_type_eqb in E.
        destruct (game_type_eq_dec (type ng) GAME_TYPE_HINTS);
          [contradiction|discriminate].
      * rewrite run_ret in H0. injection H0 as <- _. exact Ht.
Qed.

End Identity.

Lemma choose_char_writes_the_character_only_witness :
  let ng := set_name newgame_def_init "Ada" in
  let choice := set_fully_random
                  (set_job (set_species ng SP_RANDOM) JOB_GLADIATOR) true in
  let w := Sample.scripted [EvKey 121; EvActivate 5] in
  exists ng' choice',
    fst (run (_choose_char (EN := Sample.enums) (RU := Sample.permissive)
                (PL := Sample.platform) 3 ng choice newgame_def_init) w)
    = Returned (ng', choice')
    /\ clear_character ng' = clear_character ng
    /\ name choice' = "Ada".
Proof.
  intros ng choice w.
  exists (set_weapon (set_job (set_species ng SP_OCTOPODE) JOB_GLADIATOR)
                     WPN_MACE),
         (set_weapon choice WPN_MACE).
  split; [vm_compute; reflexivity|].
  pose proof (choose_char_writes_the_character_only (EN := Sample.enums)
                (RU := Sample.permissive) (PL := Sample.platform)
                3 ng choice newgame_def_init w
                (set_weapon (set_job (set_species ng SP_OCTOPODE)
                                     JOB_GLADIATOR) WPN_MACE)
                (set_weapon choice WPN_MACE)
                (snd (run (_choose_char (EN := Sample.enums)
                             (RU := Sample.permissive)
                             (PL := Sample.platform) 3 ng choice
                             newgame_def_init) w))) as H.
  assert (Hrun : run (_choose_char (EN := Sample.enums)
                        (RU := Sample.permissive) (PL := Sample.platform)
                        3 ng choice newgame_def_init) w
                 = (Returned
                      (set_weapon (set_job (set_species ng SP_OCTOPODE)
                                           JOB_GLADIATOR) WPN_MACE,
                       set_weapon choice WPN_MACE),
                    snd (run (_choose_char (EN := Sample.enums)
                                (RU := Sample.permissive)
                                (PL := Sample.platform) 3 ng choice
                                newgame_def_init) w)))
    by (vm_compute; reflexivity).
  destruct (H Hrun) as [A D]. split; [exact A|].
  apply D; [discriminate|reflexivity|reflexivity].
Defined.


Section Confirmation.
Context {EN : Enums} {RU : Rules} {PL : Platform}.

Lemma reroll_key_loop_waits (n : nat) :
  forall (fuel : nat) (w : world) (c : Z),
  n < fuel -> idles_for n w ->
  events w (events_pos w + n) = EvKey c ->
  run (reroll_key_loop fuel) w
  = (Returned (Some (char_of_int c)), skip_events (S n) w).
Proof.
  induction n as [|n IH]; intros fuel w c Hf [Hh Hk] Hc;
    (destruct fuel as [|fuel]; [lia|]);
    cbn [reroll_key_loop]; unfold seen_hups, pump_events; cbn [bind run].
  - pose proof (Hh 0 (Nat.le_refl 0)) as H0. rewrite Nat.add_0_r in H0, Hc.
    rewrite H0. cbn [bind run]. unfold next_event. rewrite Hc. cbn [run].
    unfold skip_event, skip_events. do 2 f_equal. lia.
  - pose proof (Hh 0 (Nat.le_0_l _)) as H0. rewrite Nat.add_0_r in H0.
    rewrite H0. cbn [bind run].
    assert (Hrec : run (reroll_key_loop fuel) (skip_event w)
                   = (Returned (Some (char_of_int c)),
                      skip_events (S (S n)) w)).
    { rewrite (IH fuel (skip_event w) c).
      - unfold skip_events, skip_event. cbn. do 2 f_equal. lia.
      - lia.
      - split.
        + intros i Hi. cbn. replace (S (events_pos w + i))
            with (events_pos w + S i) by lia. apply Hh. lia.
        + intros i Hi k. cbn. replace (S (events_pos w + i))
            with (events_pos w + S i) by lia. apply Hk. lia.
      - cbn. replace (S (events_pos w + n)) with (events_pos w + S n) by lia.
        exact Hc. }
    pose proof (Hk 0 (Nat.lt_0_succ _)) as Hk0. rewrite Nat.add_0_r in Hk0.
    unfold next_event. destruct (events w (events_pos w)) as [k|id|].
    + now destruct (Hk0 k).
    + exact Hrec.
    + exact Hrec.
Qed.

(** The char of a key is the key itself for 0..127, and the same for keys
    that differ by a multiple of 256. *)
Lemma char_of_int_small (keyn : Z) :
  (0 <= keyn < 128)%Z -> char_of_int keyn = keyn.
Proof.
  intro H. unfold char_of_int. cbv zeta.
  change 255%Z with (Z.ones 8). rewrite Z.land_ones by lia.
  change (2 ^ 8)%Z with 256%Z. rewrite Z.mod_small by lia.
  destruct (128 <=? keyn)%Z eqn:E; [apply Z.leb_le in E; lia|].
  now rewrite andb_false_r.
Qed.

Lemma char_of_int_period (keyn k : Z) :
  char_of_int (keyn + 256 * k) = char_of_int keyn.
Proof.
  unfold char_of_int. cbv zeta.
  change 255%Z with (Z.ones 8). rewrite !Z.land_ones by lia.
  change (2 ^ 8)%Z with 256%Z.
  rewrite (Z.mul_comm 256 k), Z_mod_plus_full. reflexivity.
Qed.

(** X10. The confirmation prompt waits for a key.  While no hangup is
    seen, [_reroll_random] passes over every event that is not a key press;
    the first key press decides, as the char [c] in which the handler
    stores it: escape or q ends the game, n, tab, ! and # ask for a reroll,
    every other key accepts the character.  Exactly the events up to that
    key are consumed.  The char is the key itself for the keys 0..127, and
    keys that differ by a multiple of 256 decide alike. *)
Theorem confirmation_waits_for_a_key (fuel n : nat) (ng : newgame_def)
    (w : world) (keyn : Z) :
  n < fuel -> idles_for n w ->
  events w (events_pos w + n) = EvKey keyn ->
  hangup w (events_pos w + S n) = false ->
  let c := char_of_int keyn in
  run (_reroll_random fuel ng) w
  = (if key_is_escape c || (toalower c =? 113)%Z then Stopped HGameEnded
     else Returned ((toalower c =? 110)%Z || (c =? 9)%Z || (c =? 33)%Z
                    || (c =? 35)%Z),
     skip_events (S n) w)
  /\ ((0 <= keyn < 128)%Z -> c = keyn)
  /\ (forall k : Z, char_of_int (keyn + 256 * k) = c).
Proof.
  intros Hf Hidle Hc Hh c. split; [|split].
  - unfold _reroll_random.
    rewrite (run_bind_returned _ _ _ _ _
               (reroll_key_loop_waits n fuel w keyn Hf Hidle Hc)).
    fold c. destruct (key_is_escape c || (toalower c =? 113)%Z).
    + reflexivity.
    + unfold seen_hups. cbn [bind run skip_events events_pos hangup].
      rewrite Hh. reflexivity.
  - apply char_of_int_small.
  - intro k. apply char_of_int_period.
Qed.

End Confirmation.

(** The key 366 is stored as the char 110, n: the character is rejected. *)
Lemma confirmation_waits_for_a_key_witness :
  let w := Sample.scripted [EvOther; EvActivate 4; EvKey 366] in
  run (_reroll_random (PL := Sample.platform) 5 newgame_def_init) w
  = (Returned true, skip_events 3 w).
Proof.
  intro w.
  refine (proj1 (confirmation_waits_for_a_key (PL := Sample.platform) 5 2
                   newgame_def_init w 366 _ _ eq_refl eq_refl)).
  - lia.
  - split.
    + intros i _. reflexivity.
    + intros i Hi k.
      destruct i as [|[|i]]; [discriminate|discriminate|lia].
Defined.

(** The keys 369 and 283 are stored as the chars 113, q, and 27, escape:
    both end the game; where char is signed the key 200 is read back as
    -56. *)
Example keys_are_read_as_chars :
  fst (run (_reroll_random (PL := Sample.platform) 2 newgame_def_init)
           (Sample.scripted [EvKey 369]))
  = Stopped HGameEnded
  /\ fst (run (_reroll_random (PL := Sample.platform) 2 newgame_def_init)
              (Sample.scripted [EvKey 283]))
     = Stopped HGameEnded
  /\ char_of_int (PL := Sample.platform) 200 = (-56)%Z.
Proof. vm_compute. repeat split. Qed.

Lemma random_element_runs {T : Type} (what : string) (v : list T) (w : world) :
  v <> [] ->
  exists x, run (random_element what v) w = (Returned x, skip_raw w)
            /\ nth_error v (random2_of (List.length v) (next_raw w)) = Some x
            /\ In x v.
Proof.
  intro Hv. unfold random_element, random2. cbn [bind run].
  destruct (nth_error v (random2_of (List.length v) (next_raw w)))
    as [x|] eqn:E.
  - exists x. cbn [bind run]. repeat split. now apply nth_error_In in E.
  - exfalso. apply nth_error_None in E.
    assert (1 <= List.length v) by (destruct v; [congruence|cbn; lia]).
    pose proof (random2_of_lt (List.length v) (next_raw w) H). lia.
Qed.

Section AllowLists.
Context {EN : Enums} {RU : Rules} {PL : Platform}.

Lemma length_eqb_nil {T : Type} (v : list T) :
  negb (List.length v =? 0) = false <-> v = [].
Proof. destruct v; cbn; split; congruence. Qed.

Lemma length_eqb_cons {T : Type} (v : list T) :
  negb (List.length v =? 0) = true <-> v <> [].
Proof. destruct v; cbn; split; congruence. Qed.

(** Every run of the allow-list block returns. *)
Lemma choose_from_allowed_runs (choice : newgame_def) (w : world) :
  exists choice' w',
    run (choose_from_allowed choice) w = (Returned choice', w')
    /\ clear_character choice' = clear_character choice
    /\ (if negb (List.length (allowed_species choice) =? 0)
        then In (species choice') (allowed_species choice)
        else species choice' = species choice)
    /\ (if negb (List.length (allowed_jobs choice) =? 0)
        then In (job choice') (allowed_jobs choice)
        else job choice' = job choice)
    /\ (if negb (List.length (allowed_weapons choice) =? 0)
        then In (weapon choice') (allowed_weapons choice)
        else weapon choice' = weapon choice).
Proof.
  unfold choose_from_allowed.
  assert (S1 : exists c1 w1,
    run (if negb (List.length (allowed_species choice) =? 0)
         then sp <- random_element "allowed_species" (allowed_species choice) ;;
              Ret (set_species choice sp)
         else Ret choice) w = (Returned c1, w1)
    /\ c1 = set_species choice (species c1)
    /\ (if negb (List.length (allowed_species choice) =? 0)
        then In (species c1) (allowed_species choice)
        else species c1 = species choice)).
  { destruct (negb (List.length (allowed_species choice) =? 0)) eqn:E.
    - apply length_eqb_cons in E.
      destruct (random_element_runs "allowed_species" _ w E)
        as (x & Hr & _ & Hin).
      exists (set_species choice x), (skip_raw w).
      rewrite (run_bind_returned _ _ _ _ _ Hr). auto.
    - exists choice, w. rewrite run_ret.
      split; [reflexivity|]. split; [symmetry; apply set_species_same|auto]. }
  destruct S1 as (c1 & w1 & R1 & F1 & M1).
  rewrite (run_bind_returned _ _ _ _ _ R1).
  assert (S2 : exists c2 w2,
    run (if negb (List.length (allowed_jobs c1) =? 0)
         then j <- random_element "allowed_jobs" (allowed_jobs c1) ;;
              Ret (set_job c1 j)
         else Ret c1) w1 = (Returned c2, w2)
    /\ c2 = set_job c1 (job c2)
    /\ (if negb (List.length (allowed_jobs c1) =? 0)
        then In (job c2) (allowed_jobs c1)
        else job c2 = job c1)).
  { destruct (negb (List.length (allowed_jobs c1) =? 0)) eqn:E.
    - apply length_eqb_cons in E.
      destruct (random_element_runs "allowed_jobs" _ w1 E)
        as (x & Hr & _ & Hin).
      exists (set_job c1 x), (skip_raw w1).
      rewrite (run_bind_returned _ _ _ _ _ Hr). auto.
    - exists c1, w1. rewrite run_ret.
      split; [reflexivity|]. split; [symmetry; apply set_job_same|auto]. }
  destruct S2 as (c2 & w2 & R2 & F2 & M2).
  rewrite (run_bind_returned _ _ _ _ _ R2).
  assert (S3 : exists c3 w3,
    run (if negb (List.length (allowed_weapons c2) =? 0)
         then wp <- random_element "allowed_weapons" (allowed_weapons c2) ;;
              Ret (set_weapon c2 wp)
         else Ret c2) w2 = (Returned c3, w3)
    /\ c3 = set_weapon c2 (weapon c3)
    /\ (if negb (List.length (allowed_weapons c2) =? 0)
        then In (weapon c3) (allowed_weapons c2)
        else weapon c3 = weapon c2)).
  { destruct (negb (List.length (allowed_weapons c2) =? 0)) eqn:E.
    - apply length_eqb_cons in E.
      destruct (random_element_runs "allowed_weapons" _ w2 E)
        as (x & Hr & _ & Hin).
      exists (set_weapon c2 x), (skip_raw w2).
      rewrite (run_bind_returned _ _ _ _ _ Hr). auto.
    - exists c2, w2. rewrite run_ret.
      split; [reflexivity|]. split; [symmetry; apply set_weapon_same|auto]. }
  destruct S3 as (c3 & w3 & R3 & F3 & M3).
  exists c3, w3. split; [exact R3|].
  assert (A1 : allowed_jobs c1 = allowed_jobs choice
               /\ allowed_weapons c1 = allowed_weapons choice
               /\ job c1 = job choice /\ weapon c1 = weapon choice)
    by (rewrite F1; auto).
  assert (A2 : allowed_weapons c2 = allowed_weapons c1
               /\ species c2 = species c1 /\ weapon c2 = weapon c1)
    by (rewrite F2; auto).
  assert (A3 : species c3 = species c2 /\ job c3 = job c2)
    by (rewrite F3; auto).
  destruct A1 as (A1 & A1' & J1 & W1). destruct A2 as (A2 & A2' & W2).
  destruct A3 as [A3 A3'].
  rewrite A1, J1 in M2. rewrite A2, A1', W2, W1 in M3.
  rewrite A3, A2', A3'.
  split; [rewrite F3, F2, F1; reflexivity|].
  split; [exact M1|]. split; [exact M2|exact M3].
Qed.

(** X11. The allow-list block.  Every run of the block returns: each of
    species, job and weapon of the request is replaced by a member of its
    allow-list when that list is not empty and is left alone when it is
    empty (an index past the end of a list is never drawn), and nothing
    else of the request changes. *)
Theorem allow_list_draws_are_members (choice : newgame_def) (w : world) :
  exists choice' w',
    run (choose_from_allowed choice) w = (Returned choice', w')
    /\ clear_character choice' = clear_character choice
    /\ (allowed_species choice <> [] ->
        In (species choice') (allowed_species choice))
    /\ (allowed_species choice = [] -> species choice' = species choice)
    /\ (allowed_jobs choice <> [] -> In (job choice') (allowed_jobs choice))
    /\ (allowed_jobs choice = [] -> job choice' = job choice)
    /\ (allowed_weapons choice <> [] ->
        In (weapon choice') (allowed_weapons choice))
    /\ (allowed_weapons choice = [] -> weapon choice' = weapon choice).
Proof.
  destruct (choose_from_allowed_runs choice w)
    as (c' & w' & R & F & Ms & Mj & Mw).
  exists c', w'. split; [exact R|]. split; [exact F|].
  repeat split; intro E.
  - apply length_eqb_cons in E. now rewrite E in Ms.
  - apply length_eqb_nil in E. now rewrite E in Ms.
  - apply length_eqb_cons in E. now rewrite E in Mj.
  - apply length_eqb_nil in E. now rewrite E in Mj.
  - apply length_eqb_cons in E. now rewrite E in Mw.
  - apply length_eqb_nil in E. now rewrite E in Mw.
Qed.


(** X12. Allow-lists of actual values are honoured.  When the request has
    no combos and its lists of allowed species and of allowed jobs are not
    empty and hold actual values only, a pass of the loop of [_choose_char]
    that starts with both fields of ng unknown and ends in the return has
    taken species and job from the two lists, as a pair that is not
    banned. *)
Theorem allow_lists_are_honoured (fuel : nat)
    (ng_reset ng choice defaults : newgame_def) (w : world)
    (ng' choice' : newgame_def) (w' : world) :
  species ng = SP_UNKNOWN -> job ng = JOB_UNKNOWN ->
  allowed_combos choice = [] ->
  allowed_species choice <> [] -> allowed_jobs choice <> [] ->
  (forall sp, In sp (allowed_species choice) ->
     sp <> SP_UNKNOWN /\ sp <> SP_RANDOM /\ sp <> SP_VIABLE) ->
  (forall j, In j (allowed_jobs choice) ->
     j <> JOB_UNKNOWN /\ j <> JOB_RANDOM /\ j <> JOB_VIABLE) ->
  run (choose_char_attempt fuel ng_reset ng choice defaults) w
  = (Returned (AttemptDone ng' choice'), w') ->
  In (species ng') (allowed_species choice)
  /\ In (job ng') (allowed_jobs choice)
  /\ job_allowed (species ng') (job ng') <> CC_BANNED
  /\ species choice' = species ng' /\ job choice' = job ng'.
Proof.
  intros Hs Hj Hcombo Hsl Hjl Hsc Hjc H.
  unfold choose_char_attempt in H. rewrite Hcombo in H.
  cbn [List.length Nat.eqb negb] in H.
  destruct (choose_from_allowed_runs choice w)
    as (c0 & w0 & R0 & F0 & Ms & Mj & _).
  rewrite (proj2 (length_eqb_cons _) Hsl) in Ms.
  rewrite (proj2 (length_eqb_cons _) Hjl) in Mj.
  rewrite (run_bind_returned _ _ _ _ _ R0) in H.
  destruct (Hsc _ Ms) as (S1 & S2 & S3). destruct (Hjc _ Mj) as (J1 & J2 & J3).
  apply run_bind_inv in H. destruct H as ([ng1 c1] & w1 & H1 & H).
  rewrite (choose_species_job_explicit fuel ng c0 defaults w0
             Hs Hj S1 S2 S3 J1 J2 J3) in H1.
  apply check_job_allowed_returns in H1. destruct H1 as (E & _ & Hok).
  injection E as -> ->. cbn [species job set_species set_job] in Hok.
  unfold confirm_and_arm in H.
  apply run_bind_inv in H. destruct H as (reroll & w2 & _ & H).
  destruct reroll; [rewrite run_ret in H; discriminate|].
  apply run_bind_inv in H. destruct H as ([[chosen ng2] c2] & w3 & H3 & H).
  apply choose_weapon_frame in H3. destruct H3 as [A3 B3].
  destruct chosen; rewrite run_ret in H; [|discriminate].
  injection H as <- <- _. rewrite A3, B3.
  cbn [species job set_species set_job set_weapon]. auto.
Qed.

End AllowLists.

Lemma allow_lists_are_honoured_witness :
  let choice :=
    mk_newgame_def EmptyString GAME_TYPE_NORMAL EmptyString EmptyString
      SP_UNKNOWN JOB_UNKNOWN WPN_UNKNOWN false []
      [SP_MINOTAUR; SP_TROLL] [JOB_BERSERKER] [] in
  let w := Sample.drawing [1; 0; 0] in
  fst (run (choose_char_attempt (EN := Sample.enums) (RU := Sample.permissive)
              (PL := Sample.platform) 2 newgame_def_init newgame_def_init
              choice newgame_def_init) w)
  = Returned (AttemptDone
                (set_job (set_species newgame_def_init SP_TROLL) JOB_BERSERKER)
                (set_job (set_species choice SP_TROLL) JOB_BERSERKER))
  /\ In SP_TROLL [SP_MINOTAUR; SP_TROLL].
Proof.
  intros choice w. split; [vm_compute; reflexivity|].
  refine (proj1
            (allow_lists_are_honoured (EN := Sample.enums)
               (RU := Sample.permissive) (PL := Sample.platform)
               2 newgame_def_init newgame_def_init choice newgame_def_init w
               (set_job (set_species newgame_def_init SP_TROLL) JOB_BERSERKER)
               (set_job (set_species choice SP_TROLL) JOB_BERSERKER)
               (snd (run (choose_char_attempt (EN := Sample.enums)
                            (RU := Sample.permissive)
                            (PL := Sample.platform) 2 newgame_def_init
                            newgame_def_init choice newgame_def_init) w))
               eq_refl eq_refl eq_refl _ _ _ _ _)).
  - discriminate.
  - discriminate.
  - intros sp [<-|[<-|[]]]; repeat split; discriminate.
  - intros j [<-|[]]; repeat split; discriminate.
  - vm_compute. reflexivity.
Defined.

Section Combos.
Context {EN : Enums} {RU : Rules} {PL : Platform}.


Lemma last_cons_default {T : Type} (l : list T) :
  forall x d, last (x :: l) d = last l x.
Proof.
  induction l as [|y l IH]; intros x d; [reflexivity|].
  change (last (x :: y :: l) d) with (last (y :: l) d).
  rewrite (IH y d), (IH y x). reflexivity.
Qed.

Lemma combo_scan_none (character : string) (ids : list nat) :
  forall sp0,
  (forall i, In i ids ->
     begins_with_name character (species_type_of_int (Z.of_nat i)) = false) ->
  combo_species_scan character ids sp0
  = (last (List.map (fun i => species_type_of_int (Z.of_nat i)) ids) sp0,
     false).
Proof.
  induction ids as [|i rest IH]; intros sp0 Hno; cbn [combo_species_scan].
  - reflexivity.
  - pose proof (Hno i (or_introl eq_refl)) as Hi.
    unfold begins_with_name in Hi. rewrite Hi.
    rewrite IH by (intros j Hj; apply Hno; now right).
    cbn [List.map]. now rewrite last_cons_default.
Qed.

Lemma combo_scan_first (character : string) (pre post : list nat) (i : nat) :
  forall sp0,
  (forall j, In j pre ->
     begins_with_name character (species_type_of_int (Z.of_nat j)) = false) ->
  begins_with_name character (species_type_of_int (Z.of_nat i)) = true ->
  combo_species_scan character (pre ++ i :: post) sp0
  = (species_type_of_int (Z.of_nat i), true).
Proof.
  induction pre as [|j rest IH]; intros sp0 Hno Hi;
    cbn [combo_species_scan app].
  - unfold begins_with_name in Hi. now rewrite Hi.
  - pose proof (Hno j (or_introl eq_refl)) as Hj.
    unfold begins_with_name in Hj. rewrite Hj.
    apply IH; [|exact Hi]. intros k Hk. apply Hno. now right.
Qed.

Lemma seq_split_at (i n : nat) :
  i < n -> seq 0 n = seq 0 i ++ i :: seq (S i) (n - S i).
Proof.
  intro H. replace n with (i + S (n - S i)) at 1 by lia.
  rewrite seq_app. reflexivity.
Qed.

Lemma combo_block_run (choice : newgame_def) (w : world) (combo part0 : string)
    (more : list string) (sp : species_type) (found : bool) :
  nth_error (allowed_combos choice)
    (random2_of (List.length (allowed_combos choice)) (next_raw w))
  = Some combo ->
  split_string "." combo = part0 :: more ->
  String.length (trim_string part0) <> 4 ->
  combo_species_scan (trim_string part0) (seq 0 NUM_SPECIES) SP_UNKNOWN
  = (sp, found) ->
  sp <> SP_UNKNOWN ->
  let base := clear_character choice in
  run (choose_from_combos choice) w
  = (if String.length (trim_string part0)
        <? String.length (species_name sp)
     then Stopped (HOutOfRange "basic_string::substr")
     else Returned
            (combo_request (if found then set_species base sp else base)
               (trim_string part0) sp more),
     skip_raw w).
Proof.
  intros Hnth Hsplit Hlen Hscan Hsp base.
  unfold choose_from_combos, random_element, random2.
  cbn [bind run allowed_combos set_weapon set_job set_species].
  rewrite Hnth. cbn [bind]. rewrite Hsplit.
  rewrite (proj2 (Nat.eqb_neq _ _) Hlen).
  rewrite Hscan. rewrite (proj2 (species_eqb_neq _ _) Hsp). cbn [negb].
  unfold substr_from.
  destruct (String.length (trim_string part0)
            <? String.length (species_name sp)).
  - reflexivity.
  - cbn [bind]. unfold combo_request. destruct more; reflexivity.
Qed.

(** X13. A combo that begins with no species name.  When the character
    part of the drawn combo does not have four letters and begins with the
    name of no species, the search loop leaves its variable at the last
    species, NUM_SPECIES - 1.  The request's species stays unknown and its
    job is read from the character part cut by the length of that last
    species' name; when the part is shorter than that name, the cut is out
    of range and the block ends in std::out_of_range. *)
Theorem combo_without_a_species_name (choice : newgame_def) (w : world)
    (combo part0 : string) (more : list string) (n : nat) :
  nth_error (allowed_combos choice)
    (random2_of (List.length (allowed_combos choice)) (next_raw w))
  = Some combo ->
  split_string "." combo = part0 :: more ->
  String.length (trim_string part0) <> 4 ->
  NUM_SPECIES = S n ->
  (forall i, i < NUM_SPECIES ->
     begins_with_name (trim_string part0) (species_type_of_int (Z.of_nat i))
     = false) ->
  species_type_of_int (Z.of_nat n) <> SP_UNKNOWN ->
  let last_species := species_type_of_int (Z.of_nat n) in
  run (choose_from_combos choice) w
  = (if String.length (trim_string part0)
        <? String.length (species_name last_species)
     then Stopped (HOutOfRange "basic_string::substr")
     else Returned
            (combo_request (clear_character choice) (trim_string part0)
               last_species more),
     skip_raw w).
Proof.
  intros Hnth Hsplit Hlen Hn Hno Hlast last_species.
  apply (combo_block_run choice w combo part0 more last_species false);
    try assumption.
  rewrite combo_scan_none.
  - rewrite Hn, seq_S, map_app. cbn [List.map Nat.add].
    rewrite last_last. reflexivity.
  - intros i Hi. apply in_seq in Hi. apply Hno. lia.
Qed.

(** X14. A combo that begins with a species name.  When the character
    part of the drawn combo does not have four letters, the request gets
    the first species (in enumeration order) whose name the part begins
    with, and its job is read from what follows the name; the previous
    species, job and weapon of the request are dropped, and the weapon is
    the second part of the combo, if any. *)
Theorem combo_with_a_species_name (choice : newgame_def) (w : world)
    (combo part0 : string) (more : list string) (i : nat) :
  nth_error (allowed_combos choice)
    (random2_of (List.length (allowed_combos choice)) (next_raw w))
  = Some combo ->
  split_string "." combo = part0 :: more ->
  String.length (trim_string part0) <> 4 ->
  i < NUM_SPECIES ->
  (forall j, j < i ->
     begins_with_name (trim_string part0) (species_type_of_int (Z.of_nat j))
     = false) ->
  begins_with_name (trim_string part0) (species_type_of_int (Z.of_nat i))
  = true ->
  species_type_of_int (Z.of_nat i) <> SP_UNKNOWN ->
  let sp := species_type_of_int (Z.of_nat i) in
  run (choose_from_combos choice) w
  = (Returned
       (combo_request (set_species (clear_character choice) sp)
          (trim_string part0) sp more),
     skip_raw w).
Proof.
  intros Hnth Hsplit Hlen Hi Hno Hyes Hsp sp.
  rewrite (combo_block_run choice w combo part0 more sp true);
    try assumption.
  - unfold begins_with_name in Hyes. apply andb_prop in Hyes.
    destruct Hyes as [Hle _]. apply Nat.leb_le in Hle.
    fold sp in Hle.
    now rewrite (proj2 (Nat.ltb_ge _ _) Hle).
  - rewrite (seq_split_at i NUM_SPECIES Hi).
    apply combo_scan_first; [|exact Hyes].
    intros j Hj. apply in_seq in Hj. apply Hno. lia.
Qed.

End Combos.

Lemma combo_without_a_species_name_witness :
  let choice :=
    mk_newgame_def EmptyString GAME_TYPE_NORMAL EmptyString EmptyString
      SP_UNKNOWN JOB_UNKNOWN WPN_UNKNOWN false ["Mi"] [] [] [] in
  run (choose_from_combos (EN := Sample.enums) (PL := Sample.platform) choice)
      (Sample.scripted [])
  = (Stopped (HOutOfRange "basic_string::substr"),
     skip_raw (Sample.scripted [])).
Proof.
  intro choice.
  refine (combo_without_a_species_name (EN := Sample.enums)
            (PL := Sample.platform) choice (Sample.scripted [])
            "Mi" "Mi" [] 26 eq_refl eq_refl _ eq_refl _ _).
  - discriminate.
  - intros i _. reflexivity.
  - discriminate.
Defined.

Lemma combo_with_a_species_name_witness :
  let choice :=
    mk_newgame_def EmptyString GAME_TYPE_NORMAL EmptyString EmptyString
      SP_TROLL JOB_MONK WPN_MACE false ["species monk"] [] [] [] in
  run (choose_from_combos (EN := Sample.enums) (PL := Sample.platform) choice)
      (Sample.scripted [])
  = (Returned (set_species (clear_character choice) SP_HUMAN),
     skip_raw (Sample.scripted [])).
Proof.
  intro choice.
  refine (combo_with_a_species_name (EN := Sample.enums)
            (PL := Sample.platform) choice (Sample.scripted [])
            "species monk" "species monk" [] 0 eq_refl eq_refl _ _ _ eq_refl
            _).
  - discriminate.
  - vm_compute. lia.
  - intros j Hj. lia.
  - discriminate.
Defined.

Lemma prompt_choice_exits_witness :
  let ng := set_species newgame_def_init SP_HUMAN in
  let w := Sample.scripted [EvOther; EvActivate (-4); EvActivate 2] in
  fst (run (_prompt_choice (EN := Sample.enums) (RU := Sample.permissive)
              (PL := Sample.platform) 4 C_JOB ng newgame_def_init
              newgame_def_init) w)
  = Returned (ng, set_job newgame_def_init JOB_MONK)
  /\ menu_exit (RU := Sample.permissive) C_JOB ng newgame_def_init
       newgame_def_init ng (set_job newgame_def_init JOB_MONK).
Proof.
  intros ng w. split; [vm_compute; reflexivity|].
  refine (prompt_choice_exits (EN := Sample.enums) (RU := Sample.permissive)
            (PL := Sample.platform) 4 C_JOB ng newgame_def_init
            newgame_def_init w ng (set_job newgame_def_init JOB_MONK)
            (snd (run (_prompt_choice (EN := Sample.enums)
                         (RU := Sample.permissive) (PL := Sample.platform)
                         4 C_JOB ng newgame_def_init newgame_def_init) w))
            _).
  vm_compute. reflexivity.
Defined.

Lemma choose_char_returns_legal_pair_witness :
  let ng := set_type newgame_def_init GAME_TYPE_TUTORIAL in
  let w := Sample.scripted [] in
  exists ng' choice',
    fst (run (_choose_char (EN := Sample.enums) (RU := Sample.two_species)
                (PL := Sample.platform) 3 ng newgame_def_init
                newgame_def_init) w)
    = Returned (ng', choice')
    /\ job_allowed (Rules := Sample.two_species) (species ng') (job ng')
       <> CC_BANNED.
Proof.
  intros ng w.
  exists (set_job (set_species ng SP_HUMAN) JOB_FIGHTER),
         (set_weapon (set_job (set_species newgame_def_init SP_HUMAN)
                              JOB_FIGHTER) WPN_FLAIL).
  split; [vm_compute; reflexivity|].
  refine (choose_char_returns_legal_pair (EN := Sample.enums)
            (RU := Sample.two_species) (PL := Sample.platform)
            3 ng newgame_def_init newgame_def_init w
            (set_job (set_species ng SP_HUMAN) JOB_FIGHTER)
            (set_weapon (set_job (set_species newgame_def_init SP_HUMAN)
                                 JOB_FIGHTER) WPN_FLAIL)
            (snd (run (_choose_char (EN := Sample.enums)
                         (RU := Sample.two_species) (PL := Sample.platform)
                         3 ng newgame_def_init newgame_def_init) w))
            _).
  vm_compute. reflexivity.
Defined.







Section PlainDraws.
Context {EN : Enums} {RU : Rules} {PL : Platform}.


End PlainDraws.



Section MenuContents.
Context {EN : Enums} {EV : EnumValues} {RU : Rules} {PL : Platform}.

Lemma item_ids_app (a b : list menu_entry) :
  item_ids (a ++ b) = item_ids a ++ item_ids b.
Proof. apply flat_map_app. Qed.

Lemma item_letters_app (a b : list menu_entry) :
  item_letters (a ++ b) = item_letters a ++ item_letters b.
Proof. apply flat_map_app. Qed.

Lemma job_skip_test (ng : newgame_def) (j : job_type) :
  negb (species_eqb (species ng) SP_UNKNOWN)
  && cc_eqb (job_allowed (species ng) j) CC_BANNED
  = negb (job_shown ng j).
Proof.
  unfold job_shown. destruct (species_eqb _ _), (cc_eqb _ _); reflexivity.
Qed.

Lemma status_of_level (unknown : bool) (level : char_choice_restriction) :
  (if unknown then ITEM_STATUS_UNKNOWN
   else if cc_eqb level CC_RESTRICTED then ITEM_STATUS_RESTRICTED
   else ITEM_STATUS_ALLOWED)
  = status_of (negb unknown) level.
Proof. destruct unknown, level; reflexivity. Qed.

(** The items one group adds. *)
Lemma job_group_items_spec (ng defaults : newgame_def) (js : list job_type) :
  (forall j, In j js -> j <> JOB_UNKNOWN) ->
  forall (letter : nat) (pos : coord_def),
  let r := job_group_items ng defaults js letter pos in
  item_ids (fst r) = List.map job_to_int (filter (job_shown ng) js)
  /\ item_letters (fst r)
     = seq letter (List.length (filter (job_shown ng) js))
  /\ snd r = letter + List.length (filter (job_shown ng) js)
  /\ (forall e, In e (fst r) ->
        exists l j f p,
          e = GroupItem l (job_to_int j)
                (status_of (negb (species_eqb (species ng) SP_UNKNOWN))
                           (job_allowed (species ng) j))
                (get_job_name j) f p
          /\ In j js /\ job_shown ng j = true).
Proof.
  induction js as [|j rest IH]; intros Hno letter pos; cbn zeta.
  - cbn. split; [reflexivity|]. split; [reflexivity|]. split; [lia|].
    intros e [].
  - cbn [job_group_items filter].
    rewrite (proj2 (job_eqb_neq _ _) (Hno j (or_introl eq_refl))).
    assert (Hrest : forall j0, In j0 rest -> j0 <> JOB_UNKNOWN)
      by (intros j0 H0; apply Hno; now right).
    rewrite job_skip_test, status_of_level.
    destruct (job_shown ng j) eqn:Hshown; cbn [negb].
    + destruct (IH Hrest (S letter) (fst pos, (snd pos + 1)%Z))
        as (A & B & C & D).
      destruct (job_group_items ng defaults rest (S letter)
                  (fst pos, (snd pos + 1)%Z)) as [items letter'].
      cbn [fst snd] in *. cbn [item_ids item_letters flat_map app List.map
                               List.length seq].
      fold (item_ids items). fold (item_letters items).
      rewrite A, B, C.
      split; [reflexivity|]. split; [reflexivity|]. split; [lia|].
      intros e [<-|He].
      * exists letter, j, (job_eqb (job defaults) j
                           || coord_eqb (fst pos, (snd pos + 1)%Z) (0, 1)%Z),
               (fst pos, (snd pos + 1)%Z).
        split; [reflexivity|]. split; [now left|exact Hshown].
      * destruct (D e He) as (l & j0 & f & p & E & Hin & Hs).
        exists l, j0, f, p. split; [exact E|]. split; [now right|exact Hs].
    + destruct (IH Hrest letter pos) as (A & B & C & D).
      split; [exact A|]. split; [exact B|]. split; [exact C|].
      intros e He. destruct (D e He) as (l & j0 & f & p & E & Hin & Hs).
      exists l, j0, f, p. split; [exact E|]. split; [now right|exact Hs].
Qed.


Lemma species_group_items_spec (ng defaults : newgame_def)
    (sps : list species_type) :
  (forall sp, In sp sps -> sp <> SP_UNKNOWN) ->
  forall (letter : nat) (pos : coord_def),
  let r := species_group_items ng defaults sps letter pos in
  item_ids (fst r) = List.map species_to_int (filter (species_shown ng) sps)
  /\ item_letters (fst r)
     = seq letter (List.length (filter (species_shown ng) sps))
  /\ snd r = letter + List.length (filter (species_shown ng) sps)
  /\ (forall e, In e (fst r) ->
        exists l sp f p,
          e = GroupItem l (species_to_int sp)
                (status_of (negb (job_eqb (job ng) JOB_UNKNOWN))
                           (species_allowed (job ng) sp))
                (species_name sp) f p
          /\ In sp sps /\ species_shown ng sp = true).
Proof.
  induction sps as [|sp rest IH]; intros Hno letter pos; cbn zeta.
  - cbn. split; [reflexivity|]. split; [reflexivity|]. split; [lia|].
    intros e [].
  - cbn [species_group_items filter].
    rewrite (proj2 (species_eqb_neq _ _) (Hno sp (or_introl eq_refl))).
    assert (Hrest : forall s0, In s0 rest -> s0 <> SP_UNKNOWN)
      by (intros s0 H0; apply Hno; now right).
    rewrite status_of_level.
    assert (Hskip : forall (X : Type) (a b : X),
      (if job_eqb (job ng) JOB_UNKNOWN && negb (is_starting_species sp)
       then a
       else if negb (job_eqb (job ng) JOB_UNKNOWN)
               && cc_eqb (species_allowed (job ng) sp) CC_BANNED
            then a else b)
      = if species_shown ng sp then b else a).
    { intros X a b. unfold species_shown.
      destruct (job_eqb (job ng) JOB_UNKNOWN), (is_starting_species sp),
               (cc_eqb (species_allowed (job ng) sp) CC_BANNED);
        reflexivity. }
    rewrite Hskip.
    destruct (species_shown ng sp) eqn:Hshown.
    + destruct (IH Hrest (S letter) (fst pos, (snd pos + 1)%Z))
        as (A & B & C & D).
      destruct (species_group_items ng defaults rest (S letter)
                  (fst pos, (snd pos + 1)%Z)) as [items letter'].
      cbn [fst snd] in *. cbn [item_ids item_letters flat_map app List.map
                               List.length seq].
      fold (item_ids items). fold (item_letters items).
      rewrite A, B, C.
      split; [reflexivity|]. split; [reflexivity|]. split; [lia|].
      intros e [<-|He].
      * exists letter, sp, (species_eqb (species defaults) sp
                            || coord_eqb (fst pos, (snd pos + 1)%Z) (0, 1)%Z),
               (fst pos, (snd pos + 1)%Z).
        split; [reflexivity|]. split; [now left|exact Hshown].
      * destruct (D e He) as (l & s0 & f & p & E & Hin & Hs).
        exists l, s0, f, p. split; [exact E|]. split; [now right|exact Hs].
    + destruct (IH Hrest letter pos) as (A & B & C & D).
      split; [exact A|]. split; [exact B|]. split; [exact C|].
      intros e He. destruct (D e He) as (l & s0 & f & p & E & Hin & Hs).
      exists l, s0, f, p. split; [exact E|]. split; [now right|exact Hs].
Qed.

Lemma construct_job_groups_spec (ng defaults : newgame_def)
    (groups : list (job_group * (coord_def * Z))) :
  (forall g j, In g groups -> In j (jobs (fst g)) -> j <> JOB_UNKNOWN) ->
  forall letter : nat,
  let all := flat_map (fun g => jobs (fst g)) groups in
  let menu := construct_job_groups ng defaults groups letter in
  item_ids menu = List.map job_to_int (filter (job_shown ng) all)
  /\ item_letters menu = seq letter (List.length (filter (job_shown ng) all))
  /\ (forall l id st nm f p, In (GroupItem l id st nm f p) menu ->
        exists j,
          id = job_to_int j /\ nm = get_job_name j
          /\ st = status_of (negb (species_eqb (species ng) SP_UNKNOWN))
                            (job_allowed (species ng) j)
          /\ In j all /\ job_shown ng j = true).
Proof.
  induction groups as [|[group [position width]] rest IH];
    intros Hno letter; cbn zeta.
  - cbn. split; [reflexivity|]. split; [reflexivity|].
    intros l id st nm f p [].
  - cbn [construct_job_groups flat_map fst].
    assert (Hg : forall j, In j (jobs group) -> j <> JOB_UNKNOWN)
      by (intros j Hj; apply (Hno (group, (position, width)) j);
          [now left|exact Hj]).
    assert (Hrest : forall g j, In g rest -> In j (jobs (fst g)) ->
                                j <> JOB_UNKNOWN)
      by (intros g j Hin Hj; apply (Hno g j); [now right|exact Hj]).
    rewrite filter_app, length_app, map_app.
    destruct (species_eqb (species ng) SP_UNKNOWN
              || existsb (fun j => negb (cc_eqb (job_allowed (species ng) j)
                                                CC_BANNED)) (jobs group))
      eqn:Eshow.
    + unfold job_group_attach.
      destruct (job_group_items_spec ng defaults (jobs group) Hg letter
                  position) as (A & B & C & D).
      destruct (job_group_items ng defaults (jobs group) letter position)
        as [items letter'].
      cbn [fst snd] in A, B, C, D. subst letter'.
      match goal with
      | |- context [construct_job_groups ng defaults rest ?l'] =>
          destruct (IH Hrest l') as (A' & B' & C')
      | |- context [construct_species_groups ng defaults rest ?l'] =>
          destruct (IH Hrest l') as (A' & B' & C')
      end.
      rewrite item_ids_app, item_letters_app.
      cbn [item_ids item_letters flat_map app].
      fold (item_ids items). fold (item_letters items).
      rewrite A, B, A', B', seq_app.
      split; [reflexivity|]. split; [reflexivity|].
      intros l id st nm f p Hin.
      destruct Hin as [Hin|Hin]; [discriminate|].
      apply in_app_or in Hin. destruct Hin as [Hin|Hin].
      * destruct (D _ Hin) as (l0 & j & f0 & p0 & E & Hj & Hs).
        injection E as -> -> -> -> -> ->.
        exists j. repeat split; try assumption. apply in_or_app. now left.
      * destruct (C' _ _ _ _ _ _ Hin) as (j & E1 & E2 & E3 & Hj & Hs).
        exists j. repeat split; try assumption. apply in_or_app. now right.
    + apply orb_false_elim in Eshow. destruct Eshow as [Es Eex].
      assert (Hnone : filter (job_shown ng) (jobs group) = []).
      { apply filter_none. intros j Hj. unfold job_shown. rewrite Es.
        cbn [orb].
        destruct (negb (cc_eqb (job_allowed (species ng) j) CC_BANNED)) eqn:E;
          [|reflexivity].
        assert (existsb (fun j => negb (cc_eqb (job_allowed (species ng) j)
                                               CC_BANNED)) (jobs group)
                = true) by (apply existsb_exists; eauto).
        congruence. }
      rewrite Hnone. cbn [List.map app List.length Nat.add].
      destruct (IH Hrest letter) as (A' & B' & C').
      split; [exact A'|]. split; [exact B'|].
      intros l id st nm f p Hin.
      destruct (C' _ _ _ _ _ _ Hin) as (j & E1 & E2 & E3 & Hj & Hs).
      exists j. repeat split; try assumption. apply in_or_app. now right.
Qed.

Lemma construct_species_groups_spec (ng defaults : newgame_def)
    (groups : list species_group) :
  (forall g sp, In g groups -> In sp (species_list g) -> sp <> SP_UNKNOWN) ->
  forall letter : nat,
  let all := flat_map species_list groups in
  let menu := construct_species_groups ng defaults groups letter in
  item_ids menu = List.map species_to_int (filter (species_shown ng) all)
  /\ item_letters menu
     = seq letter (List.length (filter (species_shown ng) all))
  /\ (forall l id st nm f p, In (GroupItem l id st nm f p) menu ->
        exists sp,
          id = species_to_int sp /\ nm = species_name sp
          /\ st = status_of (negb (job_eqb (job ng) JOB_UNKNOWN))
                            (species_allowed (job ng) sp)
          /\ In sp all /\ species_shown ng sp = true).
Proof.
  induction groups as [|group rest IH]; intros Hno letter; cbn zeta.
  - cbn. split; [reflexivity|]. split; [reflexivity|].
    intros l id st nm f p [].
  - cbn [construct_species_groups flat_map].
    assert (Hg : forall sp, In sp (species_list group) -> sp <> SP_UNKNOWN)
      by (intros sp Hsp; apply (Hno group sp); [now left|exact Hsp]).
    assert (Hrest : forall g sp, In g rest -> In sp (species_list g) ->
                                 sp <> SP_UNKNOWN)
      by (intros g sp Hin Hsp; apply (Hno g sp); [now right|exact Hsp]).
    rewrite filter_app, length_app, map_app.
    destruct (job_eqb (job ng) JOB_UNKNOWN
              || existsb (fun sp => negb (cc_eqb (species_allowed (job ng) sp)
                                                 CC_BANNED))
                         (species_list group)) eqn:Eshow.
    + unfold species_group_attach.
      destruct (species_group_items_spec ng defaults (species_list group) Hg
                  letter (sg_position group)) as (A & B & C & D).
      destruct (species_group_items ng defaults (species_list group) letter
                  (sg_position group)) as [items letter'].
      cbn [fst snd] in A, B, C, D. subst letter'.
      match goal with
      | |- context [construct_job_groups ng defaults rest ?l'] =>
          destruct (IH Hrest l') as (A' & B' & C')
      | |- context [construct_species_groups ng defaults rest ?l'] =>
          destruct (IH Hrest l') as (A' & B' & C')
      end.
      rewrite item_ids_app, item_letters_app.
      cbn [item_ids item_letters flat_map app].
      fold (item_ids items). fold (item_letters items).
      rewrite A, B, A', B', seq_app.
      split; [reflexivity|]. split; [reflexivity|].
      intros l id st nm f p Hin.
      destruct Hin as [Hin|Hin]; [discriminate|].
      apply in_app_or in Hin. destruct Hin as [Hin|Hin].
      * destruct (D _ Hin) as (l0 & sp & f0 & p0 & E & Hsp & Hs).
        injection E as -> -> -> -> -> ->.
        exists sp. repeat split; try assumption. apply in_or_app. now left.
      * destruct (C' _ _ _ _ _ _ Hin) as (sp & E1 & E2 & E3 & Hsp & Hs).
        exists sp. repeat split; try assumption. apply in_or_app. now right.
    + apply orb_false_elim in Eshow. destruct Eshow as [Ej Eex].
      assert (Hnone : filter (species_shown ng) (species_list group) = []).
      { apply filter_none. intros sp Hsp. unfold species_shown. rewrite Ej.
        destruct (negb (cc_eqb (species_allowed (job ng) sp) CC_BANNED))
          eqn:E; [|reflexivity].
        assert (existsb (fun sp => negb (cc_eqb (species_allowed (job ng) sp)
                                                CC_BANNED))
                        (species_list group) = true)
          by (apply existsb_exists; eauto).
        congruence. }
      rewrite Hnone. cbn [List.map app List.length Nat.add].
      destruct (IH Hrest letter) as (A' & B' & C').
      split; [exact A'|]. split; [exact B'|].
      intros l id st nm f p Hin.
      destruct (C' _ _ _ _ _ _ Hin) as (sp & E1 & E2 & E3 & Hsp & Hs).
      exists sp. repeat split; try assumption. apply in_or_app. now right.
Qed.


(** X17. The menus show the playable entries.  The items of the background
    menu are the jobs of [jobs_order] that are playable for ng (all of
    them when no species is fixed, else those not banned for the species),
    once each and in table order, lettered consecutively from the first
    letter across the groups, each under the name of its job and with the
    status of its restriction level; a group none of whose jobs is
    playable adds no item.  The species menu is built from
    [species_groups] in the same way. *)
Theorem menus_show_the_playable_entries (ng defaults : newgame_def) :
  (let all := flat_map jobs jobs_order in
   let menu := _construct_backgrounds_menu ng defaults in
   item_ids menu = List.map job_to_int (filter (job_shown ng) all)
   /\ item_letters menu = seq 0 (List.length (filter (job_shown ng) all))
   /\ (forall l id st nm f p, In (GroupItem l id st nm f p) menu ->
         exists j,
           id = job_to_int j /\ nm = get_job_name j
           /\ st = status_of (negb (species_eqb (species ng) SP_UNKNOWN))
                             (job_allowed (species ng) j)
           /\ In j all /\ job_shown ng j = true))
  /\
  (let all := flat_map species_list species_groups in
   let menu := _construct_species_menu ng defaults in
   item_ids menu = List.map species_to_int (filter (species_shown ng) all)
   /\ item_letters menu
      = seq 0 (List.length (filter (species_shown ng) all))
   /\ (forall l id st nm f p, In (GroupItem l id st nm f p) menu ->
         exists sp,
           id = species_to_int sp /\ nm = species_name sp
           /\ st = status_of (negb (job_eqb (job ng) JOB_UNKNOWN))
                             (species_allowed (job ng) sp)
           /\ In sp all /\ species_shown ng sp = true)).
Proof.
  split.
  - apply (construct_job_groups_spec ng defaults
             (combine jobs_order jobs_order_layout)).
    intros g j Hg Hj. intros ->.
    revert Hg Hj. cbn [combine jobs_order jobs_order_layout In].
    intuition (subst; cbn in *; intuition discriminate).
  - apply (construct_species_groups_spec ng defaults species_groups).
    intros g sp Hg Hsp. intros ->.
    revert Hg Hsp. cbn [species_groups In].
    intuition (subst; cbn in *; intuition discriminate).
Qed.

End MenuContents.

Section MenuButtons.
Context {EN : Enums} {EV : EnumValues} {RU : Rules} {PL : Platform}.

(** An id that is not negative is none of the MenuOptions. *)
Lemma selection_id (id : Z) :
  (0 <= id)%Z ->
  (id =? M_VIABLE_CHAR)%Z = false /\ (id =? M_RANDOM_CHAR)%Z = false
  /\ (id =? M_DEFAULT_CHOICE)%Z = false /\ (id =? M_ABORT)%Z = false
  /\ (id =? M_HELP)%Z = false /\ (id =? M_APTITUDES)%Z = false
  /\ (id =? M_VIABLE)%Z = false /\ (id =? M_RANDOM)%Z = false.
Proof.
  intro H. unfold M_VIABLE_CHAR, M_RANDOM_CHAR, M_DEFAULT_CHOICE, M_ABORT,
    M_HELP, M_APTITUDES, M_VIABLE, M_RANDOM.
  repeat split; apply Z.eqb_neq; lia.
Qed.

Lemma activate_shown_job (ng ng_choice defaults : newgame_def) (j : job_type) :
  job_type_of_int (job_to_int j) = j -> (0 <= job_to_int j)%Z ->
  job_shown ng j = true ->
  menu_item_activated C_JOB defaults (job_to_int j)
    (mk_menu ng ng_choice false false false)
  = mk_menu ng (set_job ng_choice j) true false false.
Proof.
  intros Hrt Hpos Hshown. unfold menu_item_activated.
  destruct (selection_id _ Hpos) as (E1 & E2 & E3 & E4 & E5 & E6 & E7 & E8).
  rewrite E1, E2, E3, E4, E5, E6, E7, E8.
  cbn [m_ng m_ng_choice end_game cancel]. rewrite Hrt.
  unfold job_shown in Hshown. rewrite Hshown. reflexivity.
Qed.

Lemma activate_shown_species (ng ng_choice defaults : newgame_def)
    (sp : species_type) :
  species_type_of_int (species_to_int sp) = sp -> (0 <= species_to_int sp)%Z ->
  species_shown ng sp = true ->
  menu_item_activated C_SPECIES defaults (species_to_int sp)
    (mk_menu ng ng_choice false false false)
  = mk_menu ng (set_species ng_choice sp) true false false.
Proof.
  intros Hrt Hpos Hshown. unfold menu_item_activated.
  destruct (selection_id _ Hpos) as (E1 & E2 & E3 & E4 & E5 & E6 & E7 & E8).
  rewrite E1, E2, E3, E4, E5, E6, E7, E8.
  cbn [m_ng m_ng_choice end_game cancel]. rewrite Hrt.
  unfold species_shown in Hshown.
  destruct (job_eqb (job ng) JOB_UNKNOWN); [reflexivity|].
  cbn [orb]. rewrite Hshown. reflexivity.
Qed.

Lemma jobs_order_has_no_unknown (g : job_group * (coord_def * Z))
    (j : job_type) :
  In g (combine jobs_order jobs_order_layout) -> In j (jobs (fst g)) ->
  j <> JOB_UNKNOWN.
Proof.
  intros Hg Hj ->. revert Hg Hj.
  cbn [combine jobs_order jobs_order_layout In].
  intuition (subst; cbn in *; intuition discriminate).
Qed.

Lemma species_groups_has_no_unknown (g : species_group) (sp : species_type) :
  In g species_groups -> In sp (species_list g) -> sp <> SP_UNKNOWN.
Proof.
  intros Hg Hsp ->. revert Hg Hsp. cbn [species_groups In].
  intuition (subst; cbn in *; intuition discriminate).
Qed.

(** X18. Every button of the menu works.  Provided the ids of the starting
    jobs and species are not negative and convert back to their
    enumerators, the activation of any item that
    [_construct_backgrounds_menu] or [_construct_species_menu] has added
    for ng closes the menu with that job or species stored in the request
    and nothing else changed: the test that hides a banned entry is the
    test by which [menu_item_activated] refuses it.  Of the options
    [_add_choice_menu_options] adds, the help and aptitude entries leave
    the menu as it is and every other one closes it; the Tab entry is
    there exactly when the defaults define a character, which is when
    [menu_item_activated] accepts it. *)
Theorem every_menu_button_works (ng ng_choice defaults : newgame_def) :
  (forall j, In j (flat_map jobs jobs_order) ->
     job_type_of_int (job_to_int j) = j /\ (0 <= job_to_int j)%Z) ->
  (forall sp, In sp (flat_map species_list species_groups) ->
     species_type_of_int (species_to_int sp) = sp
     /\ (0 <= species_to_int sp)%Z) ->
  let m := mk_menu ng ng_choice false false false in
  (forall id, In id (item_ids (_construct_backgrounds_menu ng defaults)) ->
     exists j, id = job_to_int j
       /\ menu_item_activated C_JOB defaults id m
          = mk_menu ng (set_job ng_choice j) true false false)
  /\
  (forall id, In id (item_ids (_construct_species_menu ng defaults)) ->
     exists sp, id = species_to_int sp
       /\ menu_item_activated C_SPECIES defaults id m
          = mk_menu ng (set_species ng_choice sp) true false false)
  /\
  (forall choice_type o,
     In o (_add_choice_menu_options choice_type ng defaults) ->
     if (opt_id o =? M_HELP)%Z || (opt_id o =? M_APTITUDES)%Z
     then menu_item_activated choice_type defaults (opt_id o) m = m
     else done (menu_item_activated choice_type defaults (opt_id o) m) = true)
  /\
  (forall choice_type,
     (exists o, In o (_add_choice_menu_options choice_type ng defaults)
                /\ opt_id o = M_DEFAULT_CHOICE)
     <-> _char_defined defaults = true).
Proof.
  intros Hjobs Hspecies m.
  destruct (construct_job_groups_spec ng defaults
              (combine jobs_order jobs_order_layout)
              jobs_order_has_no_unknown 0) as (Aj & _ & _).
  destruct (construct_species_groups_spec ng defaults species_groups
              species_groups_has_no_unknown 0) as (As & _ & _).
  change (flat_map (fun g => jobs (fst g))
            (combine jobs_order jobs_order_layout))
    with (flat_map jobs jobs_order) in Aj.
  fold (_construct_backgrounds_menu ng defaults) in Aj.
  fold (_construct_species_menu ng defaults) in As.
  split; [|split; [|split]].
  - intros id Hid. cbv zeta in Aj. rewrite Aj in Hid.
    apply in_map_iff in Hid. destruct Hid as (j & <- & Hj).
    apply filter_In in Hj. destruct Hj as [Hj Hshown].
    destruct (Hjobs j Hj) as [Hrt Hpos].
    exists j. split; [reflexivity|]. now apply activate_shown_job.
  - intros id Hid. cbv zeta in As. rewrite As in Hid.
    apply in_map_iff in Hid. destruct Hid as (sp & <- & Hsp).
    apply filter_In in Hsp. destruct Hsp as [Hsp Hshown].
    destruct (Hspecies sp Hsp) as [Hrt Hpos].
    exists sp. split; [reflexivity|]. now apply activate_shown_species.
  - intros choice_type o Ho. unfold _add_choice_menu_options in Ho.
    cbv zeta in Ho. apply in_app_or in Ho.
    destruct Ho as [Ho|Ho].
    + cbn [In] in Ho.
      destruct Ho as [<-|[<-|[<-|[<-|[<-|[<-|[<-|[]]]]]]]];
        cbn [opt_id];
        try reflexivity;
        try (destruct choice_type; reflexivity).
      * destruct choice_type;
          (destruct (negb _); reflexivity).
      * destruct choice_type;
          (destruct (negb _); reflexivity).
    + destruct (_char_defined defaults) eqn:Hd; [|destruct Ho].
      destruct Ho as [<-|[]]. cbn [opt_id].
      unfold menu_item_activated.
      change (M_DEFAULT_CHOICE =? M_VIABLE_CHAR)%Z with false.
      change (M_DEFAULT_CHOICE =? M_RANDOM_CHAR)%Z with false.
      change (M_DEFAULT_CHOICE =? M_DEFAULT_CHOICE)%Z with true.
      change (M_DEFAULT_CHOICE =? M_HELP)%Z with false.
      change (M_DEFAULT_CHOICE =? M_APTITUDES)%Z with false.
      cbn [orb]. rewrite Hd. reflexivity.
  - intro choice_type. unfold _add_choice_menu_options. cbv zeta. split.
    + intros (o & Ho & Hid). apply in_app_or in Ho. destruct Ho as [Ho|Ho].
      * exfalso. cbn [In] in Ho.
        destruct Ho as [<-|[<-|[<-|[<-|[<-|[<-|[<-|[]]]]]]]];
          cbn [opt_id] in Hid; try discriminate.
        -- destruct (match choice_type with
                     | C_SPECIES => negb (job_eqb (job ng) JOB_UNKNOWN)
                     | C_JOB => negb (species_eqb (species ng) SP_UNKNOWN)
                     end); discriminate.
        -- destruct (match choice_type with
                     | C_SPECIES => negb (job_eqb (job ng) JOB_UNKNOWN)
                     | C_JOB => negb (species_eqb (species ng) SP_UNKNOWN)
                     end); discriminate.
      * destruct (_char_defined defaults); [reflexivity|destruct Ho].
    + intro Hd. rewrite Hd. eexists. split.
      * apply in_or_app. right. left. reflexivity.
      * reflexivity.
Qed.

End MenuButtons.

Lemma every_menu_button_works_witness :
  let ng := set_species newgame_def_init SP_HUMAN in
  In 2%Z (item_ids (_construct_backgrounds_menu (EV := Fixtures.values)
                      (RU := Sample.permissive) (PL := Sample.platform)
                      ng newgame_def_init))
  /\ exists j, 2%Z = job_to_int (EnumValues := Fixtures.values) j
       /\ menu_item_activated (EN := Sample.enums) (RU := Sample.permissive)
            C_JOB newgame_def_init 2
            (mk_menu ng newgame_def_init false false false)
          = mk_menu ng (set_job newgame_def_init j) true false false.
Proof.
  intro ng.
  assert (Hin : In 2%Z (item_ids (_construct_backgrounds_menu
                                    (EV := Fixtures.values)
                                    (RU := Sample.permissive)
                                    (PL := Sample.platform)
                                    ng newgame_def_init)))
    by (vm_compute; tauto).
  split; [exact Hin|].
  refine (proj1 (every_menu_button_works (EN := Sample.enums)
                   (EV := Fixtures.values) (RU := Sample.permissive)
                   (PL := Sample.platform) ng newgame_def_init
                   newgame_def_init _ _) 2%Z Hin).
  - intros j Hj. cbn in Hj.
    repeat (destruct Hj as [<-|Hj];
            [split; [reflexivity|vm_compute; discriminate]|]).
    destruct Hj.
  - intros sp Hsp. cbn in Hsp.
    repeat (destruct Hsp as [<-|Hsp];
            [split; [reflexivity|vm_compute; discriminate]|]).
    destruct Hsp.
Defined.


Lemma boxes_apart_disjoint (a b : coord_def * nat) (cell : coord_def) :
  boxes_apart a b = true ->
  in_box (fst a) (snd a) cell -> in_box (fst b) (snd b) cell -> False.
Proof.
  unfold boxes_apart, in_box. intros H [Ha1 Ha2] [Hb1 Hb2].
  apply orb_prop in H. destruct H as [H|H].
  - apply orb_prop in H. destruct H as [H|H].
    + apply negb_true_iff, Z.eqb_neq in H. congruence.
    + apply Z.ltb_lt in H. lia.
  - apply Z.ltb_lt in H. lia.
Qed.

Lemma NoDup_app_apart {T : Type} (l1 l2 : list T) :
  NoDup l1 -> NoDup l2 -> (forall x, In x l1 -> In x l2 -> False) ->
  NoDup (l1 ++ l2).
Proof.
  induction l1 as [|x l1 IH]; intros H1 H2 Hd; cbn [app]; [exact H2|].
  inversion H1 as [|y l Hx Hl]; subst. constructor.
  - intro Hin. apply in_app_or in Hin. destruct Hin as [Hin|Hin].
    + contradiction.
    + apply (Hd x); [now left|exact Hin].
  - apply IH; [exact Hl|exact H2|].
    intros z Hz1 Hz2. apply (Hd z); [now right|exact Hz2].
Qed.

Section MenuLayout.
Context {EN : Enums} {EV : EnumValues} {RU : Rules} {PL : Platform}.

Lemma job_group_items_cells (ng defaults : newgame_def) (js : list job_type) :
  forall (letter : nat) (pos : coord_def),
  let items := fst (job_group_items ng defaults js letter pos) in
  (forall e, In e items ->
     fst (entry_position e) = fst pos
     /\ (snd pos < snd (entry_position e)
         <= snd pos + Z.of_nat (List.length js))%Z)
  /\ NoDup (List.map entry_position items).
Proof.
  induction js as [|j rest IH]; intros letter pos; cbn zeta.
  - cbn. split; [intros e []|constructor].
  - cbn [job_group_items].
    destruct (job_eqb j JOB_UNKNOWN); [cbn; split; [intros e []|constructor]|].
    destruct (negb (species_eqb (species ng) SP_UNKNOWN)
              && cc_eqb (job_allowed (species ng) j) CC_BANNED).
    + destruct (IH letter pos) as [A B]. split; [|exact B].
      intros e He. destruct (A e He) as [A1 A2]. split; [exact A1|].
      cbn [List.length]. lia.
    + destruct (IH (S letter) (fst pos, (snd pos + 1)%Z)) as [A B].
      destruct (job_group_items ng defaults rest (S letter)
                  (fst pos, (snd pos + 1)%Z)) as [items letter'].
      cbn [fst snd] in *. split.
      * intros e [<-|He].
        -- cbn [entry_position fst snd List.length]. split; [reflexivity|lia].
        -- destruct (A e He) as [A1 A2]. split; [exact A1|].
           cbn [List.length]. lia.
      * cbn [List.map entry_position]. constructor; [|exact B].
        intro Hin. apply in_map_iff in Hin. destruct Hin as (e & E & He).
        destruct (A e He) as [_ A2]. rewrite E in A2. cbn [snd] in A2. lia.
Qed.

Lemma species_group_items_cells (ng defaults : newgame_def)
    (sps : list species_type) :
  forall (letter : nat) (pos : coord_def),
  let items := fst (species_group_items ng defaults sps letter pos) in
  (forall e, In e items ->
     fst (entry_position e) = fst pos
     /\ (snd pos < snd (entry_position e)
         <= snd pos + Z.of_nat (List.length sps))%Z)
  /\ NoDup (List.map entry_position items).
Proof.
  induction sps as [|sp rest IH]; intros letter pos; cbn zeta.
  - cbn. split; [intros e []|constructor].
  - cbn [species_group_items].
    destruct (species_eqb sp SP_UNKNOWN);
      [cbn; split; [intros e []|constructor]|].
    assert (Hskip : let items := fst (species_group_items ng defaults rest
                                        letter pos) in
      (forall e, In e items ->
         fst (entry_position e) = fst pos
         /\ (snd pos < snd (entry_position e)
             <= snd pos + Z.of_nat (List.length (sp :: rest)))%Z)
      /\ NoDup (List.map entry_position items)).
    { destruct (IH letter pos) as [A B]. split; [|exact B].
      intros e He. destruct (A e He) as [A1 A2]. split; [exact A1|].
      cbn [List.length]. lia. }
    destruct (job_eqb (job ng) JOB_UNKNOWN && negb (is_starting_species sp));
      [exact Hskip|].
    destruct (negb (job_eqb (job ng) JOB_UNKNOWN)
              && cc_eqb (species_allowed (job ng) sp) CC_BANNED);
      [exact Hskip|].
    destruct (IH (S letter) (fst pos, (snd pos + 1)%Z)) as [A B].
    destruct (species_group_items ng defaults rest (S letter)
                (fst pos, (snd pos + 1)%Z)) as [items letter'].
    cbn [fst snd] in *. split.
    + intros e [<-|He].
      * cbn [entry_position fst snd List.length]. split; [reflexivity|lia].
      * destruct (A e He) as [A1 A2]. split; [exact A1|].
        cbn [List.length]. lia.
    + cbn [List.map entry_position]. constructor; [|exact B].
      intro Hin. apply in_map_iff in Hin. destruct Hin as (e & E & He).
      destruct (A e He) as [_ A2]. rewrite E in A2. cbn [snd] in A2. lia.
Qed.

Lemma job_group_attach_cells (ng defaults : newgame_def) (group : job_group)
    (position : coord_def) (letter : nat) :
  let entries := fst (job_group_attach ng defaults group position letter) in
  (forall e, In e entries ->
     in_box position (List.length (jobs group)) (entry_position e))
  /\ NoDup (List.map entry_position entries).
Proof.
  unfold job_group_attach.
  destruct (job_group_items_cells ng defaults (jobs group) letter position)
    as [A B].
  destruct (job_group_items ng defaults (jobs group) letter position)
    as [items letter'].
  cbn [fst snd] in *. split.
  - intros e [<-|He].
    + unfold in_box. cbn [entry_position]. split; [reflexivity|lia].
    + destruct (A e He) as [A1 A2]. unfold in_box. split; [exact A1|lia].
  - cbn [List.map entry_position]. constructor; [|exact B].
    intro Hin. apply in_map_iff in Hin. destruct Hin as (e & E & He).
    destruct (A e He) as [_ A2]. rewrite E in A2. lia.
Qed.

Lemma species_group_attach_cells (ng defaults : newgame_def)
    (group : species_group) (letter : nat) :
  let entries := fst (species_group_attach ng defaults group letter) in
  (forall e, In e entries ->
     in_box (sg_position group) (List.length (species_list group))
            (entry_position e))
  /\ NoDup (List.map entry_position entries).
Proof.
  unfold species_group_attach.
  destruct (species_group_items_cells ng defaults (species_list group) letter
              (sg_position group)) as [A B].
  destruct (species_group_items ng defaults (species_list group) letter
              (sg_position group)) as [items letter'].
  cbn [fst snd] in *. split.
  - intros e [<-|He].
    + unfold in_box. cbn [entry_position]. split; [reflexivity|lia].
    + destruct (A e He) as [A1 A2]. unfold in_box. split; [exact A1|lia].
  - cbn [List.map entry_position]. constructor; [|exact B].
    intro Hin. apply in_map_iff in Hin. destruct Hin as (e & E & He).
    destruct (A e He) as [_ A2]. rewrite E in A2. lia.
Qed.


Lemma box_fits_cell (width height : Z) (a : coord_def * nat)
    (cell : coord_def) :
  box_fits width height a = true -> in_box (fst a) (snd a) cell ->
  (0 <= fst cell < width)%Z /\ (0 <= snd cell < height)%Z.
Proof.
  unfold box_fits, in_box. intros H [H1 H2].
  apply andb_prop in H. destruct H as [H Hh].
  apply andb_prop in H. destruct H as [H Hy].
  apply andb_prop in H. destruct H as [Hx0 Hx].
  apply Z.leb_le in Hx0, Hy. apply Z.ltb_lt in Hx, Hh. lia.
Qed.

Lemma construct_job_groups_cells (ng defaults : newgame_def)
    (groups : list (job_group * (coord_def * Z))) :
  ForallOrdPairs (fun a b => boxes_apart a b = true)
                 (List.map job_group_box groups) ->
  forall letter : nat,
  let entries := construct_job_groups ng defaults groups letter in
  (forall e, In e entries ->
     exists g, In g groups
       /\ in_box (fst (job_group_box g)) (snd (job_group_box g))
                 (entry_position e))
  /\ NoDup (List.map entry_position entries).
Proof.
  induction groups as [|[group [position width]] rest IH];
    intros Hap letter; cbn zeta.
  - cbn. split; [intros e []|constructor].
  - cbn [List.map] in Hap. inversion Hap as [|a l Hfirst Hrest]; subst.
    cbn [construct_job_groups].
    assert (Hskip : forall letter,
      let entries := construct_job_groups ng defaults rest letter in
      (forall e, In e entries ->
         exists g, In g ((group, (position, width)) :: rest)
           /\ in_box (fst (job_group_box g)) (snd (job_group_box g))
                     (entry_position e))
      /\ NoDup (List.map entry_position entries)).
    { intro letter0. destruct (IH Hrest letter0) as [A B]. split; [|exact B].
      intros e He. destruct (A e He) as (g & Hg & Hbox).
      exists g. split; [now right|exact Hbox]. }
    destruct (species_eqb (species ng) SP_UNKNOWN || existsb _ (jobs group));
      [|apply Hskip].
    destruct (job_group_attach_cells ng defaults group position letter)
      as [A B].
    destruct (job_group_attach ng defaults group position letter)
      as [entries letter'].
    cbn [fst] in A, B.
    destruct (Hskip letter') as [A' B']. split.
    + intros e He. apply in_app_or in He. destruct He as [He|He].
      * exists (group, (position, width)). split; [now left|].
        exact (A e He).
      * exact (A' e He).
    + rewrite map_app. apply NoDup_app_apart; [exact B|exact B'|].
      intros cell H1 H2.
      apply in_map_iff in H1. destruct H1 as (e1 & <- & He1).
      apply in_map_iff in H2. destruct H2 as (e2 & E2 & He2).
      destruct (IH Hrest letter') as [A'' _].
      destruct (A'' e2 He2) as (g & Hg & Hbox).
      rewrite E2 in Hbox.
      rewrite Forall_forall in Hfirst.
      apply (boxes_apart_disjoint
               (job_group_box (group, (position, width)))
               (job_group_box g) (entry_position e1)).
      * apply Hfirst. now apply in_map.
      * exact (A e1 He1).
      * exact Hbox.
Qed.

Lemma construct_species_groups_cells (ng defaults : newgame_def)
    (groups : list species_group) :
  ForallOrdPairs (fun a b => boxes_apart a b = true)
                 (List.map species_group_box groups) ->
  forall letter : nat,
  let entries := construct_species_groups ng defaults groups letter in
  (forall e, In e entries ->
     exists g, In g groups
       /\ in_box (fst (species_group_box g)) (snd (species_group_box g))
                 (entry_position e))
  /\ NoDup (List.map entry_position entries).
Proof.
  induction groups as [|group rest IH]; intros Hap letter; cbn zeta.
  - cbn. split; [intros e []|constructor].
  - cbn [List.map] in Hap. inversion Hap as [|a l Hfirst Hrest]; subst.
    cbn [construct_species_groups].
    assert (Hskip : forall letter,
      let entries := construct_species_groups ng defaults rest letter in
      (forall e, In e entries ->
         exists g, In g (group :: rest)
           /\ in_box (fst (species_group_box g)) (snd (species_group_box g))
                     (entry_position e))
      /\ NoDup (List.map entry_position entries)).
    { intro letter0. destruct (IH Hrest letter0) as [A B]. split; [|exact B].
      intros e He. destruct (A e He) as (g & Hg & Hbox).
      exists g. split; [now right|exact Hbox]. }
    destruct (job_eqb (job ng) JOB_UNKNOWN || existsb _ (species_list group));
      [|apply Hskip].
    destruct (species_group_attach_cells ng defaults group letter) as [A B].
    destruct (species_group_attach ng defaults group letter)
      as [entries letter'].
    cbn [fst] in A, B.
    destruct (Hskip letter') as [A' B']. split.
    + intros e He. apply in_app_or in He. destruct He as [He|He].
      * exists group. split; [now left|]. exact (A e He).
      * exact (A' e He).
    + rewrite map_app. apply NoDup_app_apart; [exact B|exact B'|].
      intros cell H1 H2.
      apply in_map_iff in H1. destruct H1 as (e1 & <- & He1).
      apply in_map_iff in H2. destruct H2 as (e2 & E2 & He2).
      destruct (IH Hrest letter') as [A'' _].
      destruct (A'' e2 He2) as (g & Hg & Hbox).
      rewrite E2 in Hbox.
      rewrite Forall_forall in Hfirst.
      apply (boxes_apart_disjoint (species_group_box group)
               (species_group_box g) (entry_position e1)).
      * apply Hfirst. now apply in_map.
      * exact (A e1 He1).
      * exact Hbox.
Qed.

(** X19. Every menu entry has a cell of its own.  Whatever ng and the
    rules are, no two entries (group titles and items) of the background
    menu are added at the same position, and every position lies within
    the 3 columns and 20 rows with which [m_main_items] is made; the same
    holds for the species menu. *)
Theorem menu_entries_have_cells_of_their_own (ng defaults : newgame_def) :
  (NoDup (List.map entry_position (_construct_backgrounds_menu ng defaults))
   /\ forall e, In e (_construct_backgrounds_menu ng defaults) ->
        (0 <= fst (entry_position e) < 3)%Z
        /\ (0 <= snd (entry_position e) < 20)%Z)
  /\
  (NoDup (List.map entry_position (_construct_species_menu ng defaults))
   /\ forall e, In e (_construct_species_menu ng defaults) ->
        (0 <= fst (entry_position e) < 3)%Z
        /\ (0 <= snd (entry_position e) < 20)%Z).
Proof.
  split.
  - destruct (construct_job_groups_cells ng defaults
                (combine jobs_order jobs_order_layout)) with (letter := 0)
      as [A B].
    { cbn. repeat constructor. }
    split; [exact B|].
    intros e He. destruct (A e He) as (g & Hg & Hbox).
    apply (box_fits_cell 3 20 (job_group_box g)); [|exact Hbox].
    revert Hg. cbn [combine jobs_order jobs_order_layout In].
    intuition (subst; reflexivity).
  - destruct (construct_species_groups_cells ng defaults species_groups)
      with (letter := 0) as [A B].
    { cbn. repeat constructor. }
    split; [exact B|].
    intros e He. destruct (A e He) as (g & Hg & Hbox).
    apply (box_fits_cell 3 20 (species_group_box g)); [|exact Hbox].
    revert Hg. cbn [species_groups In].
    intuition (subst; reflexivity).
Qed.

End MenuLayout.

(** *** The order of strings *)

Lemma ascii_compare_refl (a : ascii) : Ascii.compare a a = Eq.
Proof. unfold Ascii.compare. apply N.compare_refl. Qed.

Lemma ascii_compare_lt_trans (a b c : ascii) :
  Ascii.compare a b = Lt -> Ascii.compare b c = Lt -> Ascii.compare a c = Lt.
Proof.
  unfold Ascii.compare. rewrite !N.compare_lt_iff. lia.
Qed.

Lemma string_compare_refl (s : string) : String.compare s s = Eq.
Proof.
  induction s as [|a s IH]; cbn [String.compare]; [reflexivity|].
  now rewrite ascii_compare_refl.
Qed.

Lemma string_compare_lt_trans (s1 : string) :
  forall s2 s3,
  String.compare s1 s2 = Lt -> String.compare s2 s3 = Lt ->
  String.compare s1 s3 = Lt.
Proof.
  induction s1 as [|a s1 IH]; intros [|b s2] [|c s3];
    cbn [String.compare]; try congruence.
  destruct (Ascii.compare a b) eqn:Eab; try discriminate;
    destruct (Ascii.compare b c) eqn:Ebc; try discriminate.
  - apply Ascii.compare_eq_iff in Eab, Ebc. subst.
    rewrite ascii_compare_refl. apply IH.
  - apply Ascii.compare_eq_iff in Eab. subst. rewrite Ebc. reflexivity.
  - apply Ascii.compare_eq_iff in Ebc. subst. rewrite Eab. reflexivity.
  - now rewrite (ascii_compare_lt_trans a b c Eab Ebc).
Qed.

Lemma string_ltb_irrefl (s : string) : String.ltb s s = false.
Proof. unfold String.ltb. now rewrite string_compare_refl. Qed.

Lemma string_ltb_trans (s1 s2 s3 : string) :
  String.ltb s1 s2 = true -> String.ltb s2 s3 = true ->
  String.ltb s1 s3 = true.
Proof.
  unfold String.ltb.
  destruct (String.compare s1 s2) eqn:E12; try discriminate.
  destruct (String.compare s2 s3) eqn:E23; try discriminate.
  now rewrite (string_compare_lt_trans s1 s2 s3 E12 E23).
Qed.

(** Two strings neither of which is below the other are equal. *)
Lemma string_ltb_total (s1 s2 : string) :
  String.ltb s1 s2 = false -> String.ltb s2 s1 = false -> s1 = s2.
Proof.
  unfold String.ltb. rewrite (String.compare_antisym s1 s2).
  destruct (String.compare s2 s1) eqn:E; cbn [CompOpp]; try discriminate.
  intros _ _. symmetry. now apply String.compare_eq_iff.
Qed.

(** X20. The comparison handed to std::sort is a strict weak ordering:
    no map is below itself, the relation is transitive, and so is "neither
    is below the other", which holds exactly when two maps have the same
    ORDER and the same description. *)
Theorem cmp_map_by_order_is_a_strict_weak_ordering :
  (forall m, _cmp_map_by_order m m = false)
  /\ (forall m1 m2 m3,
        _cmp_map_by_order m1 m2 = true -> _cmp_map_by_order m2 m3 = true ->
        _cmp_map_by_order m1 m3 = true)
  /\ (forall m1 m2,
        _cmp_map_by_order m1 m2 = false /\ _cmp_map_by_order m2 m1 = false
        <-> order m1 = order m2 /\ desc_or_name m1 = desc_or_name m2)
  /\ (forall m1 m2 m3,
        _cmp_map_by_order m1 m2 = false -> _cmp_map_by_order m2 m1 = false ->
        _cmp_map_by_order m2 m3 = false -> _cmp_map_by_order m3 m2 = false ->
        _cmp_map_by_order m1 m3 = false /\ _cmp_map_by_order m3 m1 = false).
Proof.
  assert (Hirr : forall m, _cmp_map_by_order m m = false).
  { intro m. unfold _cmp_map_by_order.
    rewrite Z.ltb_irrefl, Z.eqb_refl, string_ltb_irrefl. reflexivity. }
  assert (Heq : forall m1 m2,
    _cmp_map_by_order m1 m2 = false /\ _cmp_map_by_order m2 m1 = false
    <-> order m1 = order m2 /\ desc_or_name m1 = desc_or_name m2).
  { intros m1 m2. unfold _cmp_map_by_order. split.
    - intros [H1 H2].
      apply orb_false_elim in H1, H2.
      destruct H1 as [L1 A1], H2 as [L2 A2].
      apply Z.ltb_ge in L1, L2.
      assert (E : order m1 = order m2) by lia.
      rewrite E, Z.eqb_refl in A1, A2. cbn [andb] in A1, A2.
      split; [exact E|]. now apply string_ltb_total.
    - intros [E1 E2]. rewrite E1, E2.
      rewrite Z.ltb_irrefl, Z.eqb_refl, string_ltb_irrefl. auto. }
  split; [exact Hirr|]. split; [|split; [exact Heq|]].
  - intros m1 m2 m3. unfold _cmp_map_by_order. intros H12 H23.
    apply orb_prop in H12, H23.
    destruct H12 as [L12|A12], H23 as [L23|A23].
    + apply Z.ltb_lt in L12, L23.
      rewrite (proj2 (Z.ltb_lt _ _)) by lia. reflexivity.
    + apply Z.ltb_lt in L12. apply andb_prop in A23.
      destruct A23 as [E23 _]. apply Z.eqb_eq in E23.
      rewrite (proj2 (Z.ltb_lt _ _)) by lia. reflexivity.
    + apply Z.ltb_lt in L23. apply andb_prop in A12.
      destruct A12 as [E12 _]. apply Z.eqb_eq in E12.
      rewrite (proj2 (Z.ltb_lt _ _)) by lia. reflexivity.
    + apply andb_prop in A12, A23.
      destruct A12 as [E12 S12], A23 as [E23 S23].
      apply Z.eqb_eq in E12, E23.
      rewrite (proj2 (Z.eqb_eq _ _)) by lia.
      rewrite (string_ltb_trans _ _ _ S12 S23).
      cbn [andb]. apply orb_true_r.
  - intros m1 m2 m3 A B C D.
    destruct (proj1 (Heq m1 m2) (conj A B)) as [E1 E2].
    destruct (proj1 (Heq m2 m3) (conj C D)) as [E3 E4].
    apply Heq. split; congruence.
Qed.

Lemma cmp_map_by_order_is_a_strict_weak_ordering_witness :
  let m1 := mk_map_def "sprint_a" 1 "Sprint I" in
  let m2 := mk_map_def "sprint_b" 1 "Sprint II" in
  let m3 := mk_map_def "sprint_c" 2 "Arena" in
  _cmp_map_by_order m1 m2 = true /\ _cmp_map_by_order m2 m3 = true
  /\ _cmp_map_by_order m1 m3 = true.
Proof.
  intros m1 m2 m3.
  assert (H12 : _cmp_map_by_order m1 m2 = true) by reflexivity.
  assert (H23 : _cmp_map_by_order m2 m3 = true) by reflexivity.
  split; [exact H12|]. split; [exact H23|].
  exact (proj1 (proj2 cmp_map_by_order_is_a_strict_weak_ordering)
               m1 m2 m3 H12 H23).
Defined.



Lemma string_empty_iff (s : string) : string_empty s = true <-> s = EmptyString.
Proof. destruct s; cbn; split; congruence. Qed.

Section GameModeMaps.
Context {EN : Enums} {EV : EnumValues} {RU : Rules} {PL : Platform}
        {LV : Levels}.

Lemma resolve_gamemode_map_returned (ng ng_choice : newgame_def)
    (maps : list map_def) (w : world) (ng' : newgame_def) (w' : world) :
  run (_resolve_gamemode_map ng ng_choice maps) w = (Returned ng', w') ->
  ng' = set_map ng (map ng')
  /\ (if String.eqb (map ng_choice) "random" || string_empty (map ng_choice)
      then exists m, In m maps /\ map ng' = map_name m
      else map ng' = map ng_choice).
Proof.
  unfold _resolve_gamemode_map.
  destruct (String.eqb (map ng_choice) "random" || string_empty (map ng_choice)).
  - intro H. apply run_bind_inv in H. destruct H as (m & w1 & Hm & H).
    apply random_element_returned in Hm. destruct Hm as [Hin _].
    rewrite run_ret in H. injection H as <- _.
    split; [reflexivity|]. exists m. auto.
  - rewrite run_ret. intro H. injection H as <- _. auto.
Qed.

(** What the map prompt hands back. *)
Lemma prompt_gamemode_map_loop_returned (fuel : nat) (defaults : newgame_def)
    (maps : list map_def) (ng ng_choice : newgame_def) :
  forall (w : world) (cancel : bool) (ng' ng_choice' : newgame_def)
         (w' : world),
  run (prompt_gamemode_map_loop fuel defaults maps ng ng_choice) w
  = (Returned (cancel, ng', ng_choice'), w') ->
  (ng' = ng /\ ng_choice' = ng_choice)
  \/ (cancel = false
      /\ (ng', ng_choice') = _set_default_choice ng ng_choice defaults)
  \/ (cancel = false /\ ng' = ng
      /\ ng_choice' = set_map ng_choice EmptyString)
  \/ (cancel = false /\ ng' = ng
      /\ exists m, In m maps /\ ng_choice' = set_map ng_choice (map_name m)).
Proof.
  induction fuel as [|n IH]; intros w cancel ng' c' w' H;
    cbn [prompt_gamemode_map_loop] in H; [discriminate|].
  unfold seen_hups, pump_events in H. cbn [bind run] in H.
  destruct (hangup w (events_pos w)).
  { cbn [bind run] in H. injection H as <- <- <- _. auto. }
  cbn [bind run] in H. destruct (next_event w) as [keyn|id|].
  - destruct (_ || _); [discriminate|].
    destruct (CASE_ESCAPE keyn).
    { rewrite run_ret in H. injection H as <- <- <- _. auto. }
    destruct (keyn =? 32)%Z.
    { rewrite run_ret in H. injection H as <- <- <- _. auto. }
    now apply IH in H.
  - destruct (id =? M_ABORT)%Z.
    { rewrite run_ret in H. injection H as <- <- <- _. auto. }
    destruct (id =? M_APTITUDES)%Z; [now apply IH in H|].
    destruct (id =? M_HELP)%Z; [now apply IH in H|].
    destruct (id =? M_DEFAULT_CHOICE)%Z.
    { cbn [_set_default_choice] in H. rewrite run_ret in H.
      injection H as <- <- <- _. right; left. auto. }
    destruct (id =? M_RANDOM)%Z.
    { rewrite run_ret in H. injection H as <- <- <- _.
      right; right; left. auto. }
    destruct (id <? 0)%Z; [discriminate|].
    destruct (nth_error maps (Z.to_nat id)) as [m|] eqn:E; [|discriminate].
    rewrite run_ret in H. injection H as <- <- <- _.
    right; right; right. repeat split. exists m.
    split; [now apply nth_error_In in E|reflexivity].
  - now apply IH in H.
Qed.

(** X21. The map of a sprint or tutorial game.  With no map tagged for
    the game type, [_choose_gamemode_map] ends the process with exit code
    1 and "No <type> maps found.", whatever was requested.  With exactly
    one map, an empty request and no pinned map in play, that map is taken
    without a prompt.  And whenever the function returns, ng.map is the
    map of the request, unless that is empty or "random", in which case it
    is the name of one of the maps found; nothing else of ng has changed
    but, possibly, its character. *)
Theorem choose_gamemode_map_outcomes (fuel : nat)
    (ng ng_choice defaults : newgame_def) (w : world) :
  let type_name := gametype_to_str (type ng_choice) in
  let maps := find_maps_for_tag type_name in
  (maps = [] ->
   run (_choose_gamemode_map fuel ng ng_choice defaults) w
   = (Stopped (HEnd 1 (String.append "No "
                         (String.append type_name " maps found."))), w))
  /\
  (forall m, maps = [m] -> map ng_choice = EmptyString ->
     type ng_choice <> GAME_TYPE_SPRINT ->
     fst (run (_choose_gamemode_map fuel ng ng_choice defaults) w)
     = Returned (set_map ng (map_name m), set_map ng_choice (map_name m)))
  /\
  (forall ng' ng_choice' w',
     run (_choose_gamemode_map fuel ng ng_choice defaults) w
     = (Returned (ng', ng_choice'), w') ->
     clear_character ng' = clear_character (set_map ng (map ng'))
     /\ (if String.eqb (map ng_choice') "random"
            || string_empty (map ng_choice')
         then exists m, In m maps /\ map ng' = map_name m
         else map ng' = map ng_choice')).
Proof.
  intros type_name maps. split; [|split].
  - intro E. unfold _choose_gamemode_map. fold type_name. fold maps.
    rewrite E. reflexivity.
  - intros m E Hmap Hty. unfold _choose_gamemode_map.
    fold type_name. fold maps. rewrite E, Hmap.
    cbn [List.length Nat.eqb string_empty Nat.ltb Nat.leb nth].
    unfold game_type_eqb.
    destruct (game_type_eq_dec (type ng_choice) GAME_TYPE_SPRINT);
      [contradiction|].
    cbn [andb bind map set_map]. unfold _resolve_gamemode_map.
    cbn [map set_map].
    destruct (String.eqb (map_name m) "random" || string_empty (map_name m)).
    + unfold random_element, random2. cbn [bind run List.length].
      change (random2_of 1 (next_raw w)) with 0. reflexivity.
    + reflexivity.
  - intros ng' c' w' H. unfold _choose_gamemode_map in H.
    fold type_name in H. fold maps in H.
    destruct (List.length maps =? 0); [discriminate|].
    apply run_bind_inv in H. destruct H as ([ng1 c1] & w1 & H1 & H).
    apply run_bind_inv in H. destruct H as (ng2 & w2 & H2 & H).
    rewrite run_ret in H. injection H as <- <- _.
    apply resolve_gamemode_map_returned in H2. destruct H2 as [F2 M2].
    split; [|exact M2].
    assert (F1 : clear_character ng1 = clear_character ng).
    { destruct (string_empty (map ng_choice)).
      - destruct (_ && _).
        + rewrite run_ret in H1. now injection H1 as <- _.
        + destruct (1 <? List.length maps).
          * unfold _prompt_gamemode_map in H1.
            apply run_bind_inv in H1.
            destruct H1 as ([[cancel ng3] c3] & w3 & H3 & H1).
            apply run_bind_inv in H1. destruct H1 as (stop & w4 & _ & H1).
            destruct stop; [discriminate|].
            rewrite run_ret in H1. injection H1 as <- <- _.
            apply prompt_gamemode_map_loop_returned in H3.
            destruct H3 as [[-> _]|[[_ E]|[(_ & -> & _)|(_ & -> & _)]]];
              try reflexivity.
            now injection E as -> _.
          * rewrite run_ret in H1. now injection H1 as <- _.
      - rewrite run_ret in H1. now injection H1 as <- _. }
    rewrite F2 at 1. 
    change (clear_character (set_map ng1 (map ng2)))
      with (set_map (clear_character ng1) (map ng2)).
    rewrite F1. reflexivity.
Qed.


(** X22. The pinned sprint map.  [_choose_gamemode_map] compares the game
    type itself with the truth value of "a sprint map is pinned"
    ([ng_choice.type == !crawl_state.sprint_map.empty()]); for a sprint
    game that is a comparison of the int value of GAME_TYPE_SPRINT with 0
    or 1.  So unless GAME_TYPE_SPRINT has the value 0 or 1, the pinned map
    is never taken: the function is the same program whatever map is
    pinned. *)
Theorem pinned_sprint_map_is_not_used (fuel : nat)
    (ng ng_choice defaults : newgame_def) (pinned : string) :
  game_type_to_int GAME_TYPE_SPRINT <> 0%Z ->
  game_type_to_int GAME_TYPE_SPRINT <> 1%Z ->
  _choose_gamemode_map (LV := with_sprint_map LV pinned)
    fuel ng ng_choice defaults
  = _choose_gamemode_map (LV := LV) fuel ng ng_choice defaults.
Proof.
  intros H0 H1.
  assert (Hcond : forall s : string,
    game_type_eqb (type ng_choice) GAME_TYPE_SPRINT
    && (game_type_to_int (type ng_choice)
        =? (if negb (string_empty s) then 1 else 0))%Z = false).
  { intro s. unfold game_type_eqb.
    destruct (game_type_eq_dec (type ng_choice) GAME_TYPE_SPRINT) as [E|E];
      [|reflexivity].
    rewrite E. cbn [andb]. apply Z.eqb_neq.
    destruct (negb (string_empty s)); assumption. }
  unfold _choose_gamemode_map.
  cbn [gametype_to_str find_maps_for_tag sprint_map with_sprint_map].
  rewrite (Hcond pinned), (Hcond sprint_map).
  reflexivity.
Qed.

End GameModeMaps.

Lemma choose_gamemode_map_outcomes_witness :
  let w := Sample.scripted [] in
  find_maps_for_tag (Levels := MapFixtures.levels)
    (gametype_to_str (Levels := MapFixtures.levels) GAME_TYPE_NORMAL) = []
  /\ run (_choose_gamemode_map (EV := Fixtures.values)
            (PL := Sample.platform) (LV := MapFixtures.levels)
            3 newgame_def_init newgame_def_init newgame_def_init) w
     = (Stopped (HEnd 1 "No game maps found."), w).
Proof.
  intro w. split; [reflexivity|].
  exact (proj1 (choose_gamemode_map_outcomes (EV := Fixtures.values)
                  (PL := Sample.platform) (LV := MapFixtures.levels)
                  3 newgame_def_init newgame_def_init newgame_def_init w)
               eq_refl).
Defined.

Lemma pinned_sprint_map_is_not_used_witness :
  let ng_choice := set_type newgame_def_init GAME_TYPE_SPRINT in
  _choose_gamemode_map (EV := Fixtures.values) (PL := Sample.platform)
    (LV := with_sprint_map MapFixtures.levels "sprint_mu")
    3 newgame_def_init ng_choice newgame_def_init
  = _choose_gamemode_map (EV := Fixtures.values) (PL := Sample.platform)
      (LV := MapFixtures.levels)
      3 newgame_def_init ng_choice newgame_def_init.
Proof.
  intro ng_choice.
  apply (pinned_sprint_map_is_not_used (EV := Fixtures.values)
           (PL := Sample.platform) (LV := MapFixtures.levels));
    discriminate.
Defined.


Section PlayerNames.
Context {EN : Enums} {EV : EnumValues} {RU : Rules} {PL : Platform}
        {LV : Levels} {NM : Names}.

Lemma random_name_tries_returned (n : nat) :
  forall (w : world) (nm : string) (w' : world),
  run (random_name_tries n) w = (Returned nm, w') ->
  nm = EmptyString \/ save_exists (get_save_filename nm) = false.
Proof.
  induction n as [|n IH]; intros w nm w' H; cbn [random_name_tries] in H.
  - rewrite run_ret in H. injection H as <- _. now left.
  - apply run_bind_inv in H. destruct H as (x & w1 & _ & H).
    destruct (save_exists (get_save_filename x)) eqn:E; cbn [negb] in H.
    + now apply IH in H.
    + rewrite run_ret in H. injection H as <- _. now right.
Qed.

(** While every name made collides with a save, the tries go on; after
    the last one the result is the empty string. *)
Lemma random_name_tries_collide (n : nat) :
  forall w : world,
  (forall w0 nm w1, run make_name w0 = (Returned nm, w1) ->
     save_exists (get_save_filename nm) = true) ->
  forall (nm : string) (w' : world),
  run (random_name_tries n) w = (Returned nm, w') -> nm = EmptyString.
Proof.
  induction n as [|n IH]; intros w Hall nm w' H; cbn [random_name_tries] in H.
  - rewrite run_ret in H. now injection H as <- _.
  - apply run_bind_inv in H. destruct H as (x & w1 & Hx & H).
    rewrite (Hall _ _ _ Hx) in H. cbn [negb] in H.
    now apply (IH w1 Hall) in H.
Qed.

(** X23. A random name does not collide.  Whenever [_random_name]
    returns, the name is the empty string or a name for which no save
    exists; and when every name that [make_name] makes collides with a
    save, it is the empty string. *)
Theorem random_name_does_not_collide (w : world) (nm : string) (w' : world) :
  run _random_name w = (Returned nm, w') ->
  (nm = EmptyString \/ save_exists (get_save_filename nm) = false)
  /\ ((forall w0 nm0 w1, run make_name w0 = (Returned nm0, w1) ->
         save_exists (get_save_filename nm0) = true) ->
      nm = EmptyString).
Proof.
  intro H. split.
  - now apply random_name_tries_returned in H.
  - intro Hall. now apply (random_name_tries_collide 100 w Hall) in H.
Qed.

(** One key at the name prompt keeps the invariant. *)
Lemma choose_name_key_inv (ng0 choice0 : newgame_def) (key : Z)
    (s : name_prompt) (w : world) (s' : name_prompt) (w' : world) :
  np_done s = false ->
  name_prompt_inv ng0 choice0 s ->
  run (choose_name_key key s) w = (Returned s', w') ->
  name_prompt_inv ng0 choice0 s'.
Proof.
  intros Hd (I1 & I2 & I3) H. unfold choose_name_key in H.
  destruct (np_overwrite_prompt s) eqn:Eo; cbn [negb] in H.
  - rewrite run_ret in H. injection H as <- _.
    unfold name_prompt_inv.
    cbn [np_ng np_choice np_overwrite_prompt np_done np_cancel].
    split; [exact I1|]. split; [exact I2|].
    intros _. apply I3. now left.
  - destruct (putkey (np_reader s) key) as [reader key'].
    destruct (negb (key' =? -1)%Z).
    + destruct (key_is_escape key').
      * rewrite run_ret in H. injection H as <- _.
        unfold name_prompt_inv.
        cbn [np_ng np_choice np_overwrite_prompt np_done np_cancel].
        split; [exact I1|]. split; [exact I2|].
        intros [E|[_ E]]; discriminate.
      * apply run_bind_inv in H. destruct H as (nm & w1 & _ & H).
        destruct (is_good_name (reader_buf reader) true).
        -- rewrite run_ret in H. injection H as <- _.
           unfold name_prompt_inv.
           cbn [np_ng np_choice np_overwrite_prompt np_done np_cancel].
           split; [|split].
           ++ rewrite I1. reflexivity.
           ++ rewrite I2. reflexivity.
           ++ intros _. split; reflexivity.
        -- rewrite run_ret in H. injection H as <- _.
           unfold name_prompt_inv.
           cbn [np_ng np_choice np_overwrite_prompt np_done np_cancel].
           split; [exact I1|]. split; [rewrite I2; reflexivity|].
           rewrite Hd. intros [E|[E _]]; discriminate.
    + rewrite run_ret in H. injection H as <- _.
      unfold name_prompt_inv.
      cbn [np_ng np_choice np_overwrite_prompt np_done np_cancel].
      split; [exact I1|]. split; [exact I2|].
      rewrite Hd. intros [E|[E _]]; discriminate.
Qed.

Lemma choose_name_loop_inv (ng0 choice0 : newgame_def) (fuel : nat) :
  forall (s : name_prompt) (w : world) (s' : name_prompt) (w' : world),
  name_prompt_inv ng0 choice0 s ->
  run (choose_name_loop fuel s) w = (Returned s', w') ->
  name_prompt_inv ng0 choice0 s'
  /\ (np_done s' = true \/ hangup w' (events_pos w') = true).
Proof.
  induction fuel as [|n IH]; intros s w s' w' Hinv H;
    cbn [choose_name_loop] in H;
    destruct (np_done s) eqn:Hd;
    try (rewrite run_ret in H; injection H as <- <-; auto; fail);
    try discriminate.
  unfold seen_hups, pump_events in H. cbn [bind run] in H.
  destruct (hangup w (events_pos w)) eqn:Hh.
  - cbn [bind run] in H. injection H as <- <-. auto.
  - cbn [bind run] in H.
    apply run_bind_inv in H. destruct H as (s1 & w1 & H1 & H).
    apply (IH s1 w1); [|exact H].
    destruct (next_event w) as [key|id|].
    + now apply (choose_name_key_inv ng0 choice0 key s (skip_event w) s1 w1).
    + rewrite run_ret in H1. now injection H1 as <- _.
    + rewrite run_ret in H1. now injection H1 as <- _.
Qed.

Lemma choose_name_returned (fuel : nat) (ng choice : newgame_def)
    (w : world) (ng' choice' : newgame_def) (w' : world) :
  run (_choose_name fuel ng choice) w = (Returned (ng', choice'), w') ->
  exists s, ng' = np_ng s /\ choice' = np_choice s
    /\ name_prompt_inv ng choice s
    /\ np_done s = true /\ np_cancel s = false.
Proof.
  intro H. unfold _choose_name in H.
  apply run_bind_inv in H. destruct H as (s & w1 & Hs & H).
  apply (choose_name_loop_inv ng choice) in Hs.
  - destruct Hs as [Hinv Hend].
    apply run_bind_inv in H. destruct H as (stop & w2 & Hstop & H).
    destruct stop; [discriminate|].
    rewrite run_ret in H. injection H as <- <- _.
    exists s. destruct (np_cancel s) eqn:Hc.
    + rewrite run_ret in Hstop. discriminate.
    + unfold seen_hups in Hstop. cbn [run] in Hstop.
      injection Hstop as Hh _.
      destruct Hend as [Hd|Hh']; [|congruence]. auto.
  - unfold name_prompt_inv.
    cbn [np_ng np_choice np_overwrite_prompt np_done np_cancel].
    split; [now destruct ng|]. split; [now destruct choice|].
    intros [E|[E _]]; discriminate.
Qed.

(** X24. What the name prompt returns.  Whenever [_choose_name] returns,
    ng holds the name of the request and the file of its save; ng differs
    from the ng passed in by name and filename only, and the request from
    the one passed in by its name only. *)
Theorem choose_name_takes_the_name (fuel : nat) (ng choice : newgame_def)
    (w : world) (ng' choice' : newgame_def) (w' : world) :
  run (_choose_name fuel ng choice) w = (Returned (ng', choice'), w') ->
  name ng' = name choice'
  /\ filename ng' = get_save_filename (name choice')
  /\ ng' = set_filename (set_name ng (name ng')) (filename ng')
  /\ choice' = set_name choice (name choice').
Proof.
  intro H. apply choose_name_returned in H.
  destruct H as (s & -> & -> & (I1 & I2 & I3) & Hd & Hc).
  destruct (I3 (or_intror (conj Hd Hc))) as [E1 E2].
  split; [exact E1|]. split; [exact E2|]. split; [exact I1|exact I2].
Qed.

Lemma choose_gamemode_map_frame (fuel : nat)
    (ng ng_choice defaults : newgame_def) (w : world)
    (ng' ng_choice' : newgame_def) (w' : world) :
  run (_choose_gamemode_map fuel ng ng_choice defaults) w
  = (Returned (ng', ng_choice'), w') ->
  clear_character ng' = clear_character (set_map ng (map ng'))
  /\ name ng_choice' = name ng_choice /\ type ng_choice' = type ng_choice.
Proof.
  intro H. unfold _choose_gamemode_map in H.
  destruct (List.length _ =? 0); [discriminate|].
  apply run_bind_inv in H. destruct H as ([ng1 c1] & w1 & H1 & H).
  apply run_bind_inv in H. destruct H as (ng2 & w2 & H2 & H).
  rewrite run_ret in H. injection H as <- <- _.
  apply resolve_gamemode_map_returned in H2. destruct H2 as [F2 _].
  assert (F1 : clear_character ng1 = clear_character ng
               /\ name c1 = name ng_choice /\ type c1 = type ng_choice).
  { destruct (string_empty (map ng_choice)).
    - destruct (_ && _).
      + rewrite run_ret in H1. injection H1 as <- <-. auto.
      + destruct (1 <? List.length _).
        * unfold _prompt_gamemode_map in H1.
          apply run_bind_inv in H1.
          destruct H1 as ([[cancel ng3] c3] & w3 & H3 & H1).
          apply run_bind_inv in H1. destruct H1 as (stop & w4 & _ & H1).
          destruct stop; [discriminate|].
          rewrite run_ret in H1. injection H1 as <- <- _.
          apply prompt_gamemode_map_loop_returned in H3.
          destruct H3 as [[-> ->]|[[_ E]|[(_ & -> & ->)|(_ & -> & m & _ & ->)]]];
            auto.
          injection E as -> ->. auto.
        * rewrite run_ret in H1. injection H1 as <- <-. auto.
    - rewrite run_ret in H1. injection H1 as <- <-. auto. }
  destruct F1 as (A & B & C). split; [|auto].
  rewrite F2 at 1.
  change (clear_character (set_map ng1 (map ng2)))
    with (set_map (clear_character ng1) (map ng2)).
  rewrite A. reflexivity.
Qed.

(** X25. What [choose_game] returns.  Whenever [choose_game] returns, it
    returns false with an ng whose name is not empty, whose name and game
    type are those of the request that is returned (and written to the
    options file), and whose species and background are not a banned
    pair.  Outside hints mode the game type is the one requested and a
    name that was requested is the name played: the menus, the reroll loop
    and the weapon stage never change them, so the second assignment of
    name and type in [choose_game] changes nothing.  For a game that is
    neither sprint nor tutorial, ng.map is the map of the request. *)
Theorem choose_game_returns_the_requested_game (dgamelaunch : bool)
    (fuel : nat) (ng choice defaults : newgame_def) (w : world)
    (r : bool) (ng' choice' : newgame_def) (w' : world) :
  run (choose_game dgamelaunch fuel ng choice defaults) w
  = (Returned (r, ng', choice'), w') ->
  r = false
  /\ name ng' <> EmptyString
  /\ name ng' = name choice' /\ type ng' = type choice'
  /\ job_allowed (species ng') (job ng') <> CC_BANNED
  /\ (type choice <> GAME_TYPE_HINTS ->
      type ng' = type choice
      /\ (name choice <> EmptyString -> name ng' = name choice))
  /\ (type choice <> GAME_TYPE_SPRINT -> type choice <> GAME_TYPE_TUTORIAL ->
      map ng' = map choice).
Proof.
  intro H. unfold choose_game in H.
  set (ng0 := set_map (set_type (set_name ng (name choice)) (type choice))
                      (map choice)) in H.
  apply run_bind_inv in H. destruct H as ([ng1 c1] & w1 & H1 & H).
  apply run_bind_inv in H. destruct H as ([ng2 c2] & w2 & H2 & H).
  apply run_bind_inv in H. destruct H as ([ng3 c3] & w3 & H3 & H).
  destruct (string_empty (name ng3)) eqn:Hempty; [discriminate|].
  destruct (negb (is_good_name (name ng3) false && _ && _)) eqn:Hassert;
    [discriminate|].
  rewrite run_ret in H. injection H as <- <- <- _.
  apply negb_false_iff in Hassert.
  apply andb_prop in Hassert. destruct Hassert as [Hassert _].
  apply andb_prop in Hassert. destruct Hassert as [_ Hpair].
  (* the map stage *)
  assert (F1 : clear_character ng1 = clear_character (set_map ng0 (map ng1))
               /\ name c1 = name choice /\ type c1 = type choice
               /\ (type choice <> GAME_TYPE_SPRINT ->
                   type choice <> GAME_TYPE_TUTORIAL -> map ng1 = map choice)).
  { destruct (game_type_eqb (type ng0) GAME_TYPE_SPRINT
              || game_type_eqb (type ng0) GAME_TYPE_TUTORIAL) eqn:Emode.
    - apply choose_gamemode_map_frame in H1. destruct H1 as (A & B & C).
      repeat split; try assumption.
      intros Hs Ht. exfalso. apply orb_prop in Emode.
      unfold game_type_eqb in Emode. cbn [type ng0 set_map set_type] in Emode.
      destruct Emode as [E|E];
        [destruct (game_type_eq_dec (type choice) GAME_TYPE_SPRINT)
        |destruct (game_type_eq_dec (type choice) GAME_TYPE_TUTORIAL)];
        (contradiction || discriminate).
    - rewrite run_ret in H1. injection H1 as <- <-.
      repeat split; reflexivity. }
  destruct F1 as (A1 & B1 & C1 & M1).
  assert (N1 : name ng1 = name choice /\ type ng1 = type choice).
  { split; [exact (f_equal name A1)|exact (f_equal type A1)]. }
  destruct N1 as [N1 T1].
  (* the character *)
  assert (Hlegal : job_allowed (species ng2) (job ng2) <> CC_BANNED).
  { unfold _choose_char in H2.
    apply run_bind_inv in H2. destruct H2 as (c0 & w0 & _ & H2).
    now apply choose_char_loop_legal in H2. }
  assert (F2 : clear_character ng2 = clear_character ng1
               /\ (type ng1 <> GAME_TYPE_HINTS ->
                   name c2 = name ng1 /\ type c2 = type ng1)).
  { unfold _choose_char in H2.
    apply run_bind_inv in H2. destruct H2 as (c0 & w0 & H0 & H2).
    apply choose_char_loop_frame in H2; [|reflexivity].
    destruct H2 as [A D]. split; [exact A|].
    intro Hh. apply D.
    - destruct (game_type_eqb (type ng1) GAME_TYPE_TUTORIAL).
      + rewrite run_ret in H0. injection H0 as <- _. cbn. congruence.
      + destruct (game_type_eqb (type ng1) GAME_TYPE_HINTS) eqn:E.
        * unfold game_type_eqb in E.
          destruct (game_type_eq_dec (type ng1) GAME_TYPE_HINTS);
            [contradiction|discriminate].
        * rewrite run_ret in H0. injection H0 as <- _. congruence.
    - destruct (game_type_eqb (type ng1) GAME_TYPE_TUTORIAL).
      + rewrite run_ret in H0. injection H0 as <- _. cbn. congruence.
      + destruct (game_type_eqb (type ng1) GAME_TYPE_HINTS) eqn:E.
        * unfold game_type_eqb in E.
          destruct (game_type_eq_dec (type ng1) GAME_TYPE_HINTS);
            [contradiction|discriminate].
        * rewrite run_ret in H0. injection H0 as <- _. congruence. }
  destruct F2 as [A2 D2].
  (* the name *)
  set (ng2' := set_type (set_name ng2 (name c2)) (type c2)) in H3.
  assert (F3 : name ng3 = name c3 /\ type ng3 = type c3
               /\ species ng3 = species ng2 /\ job ng3 = job ng2
               /\ map ng3 = map ng2 /\ type c3 = type c2
               /\ (name c2 <> EmptyString -> name c3 = name c2)).
  { destruct (negb dgamelaunch && string_empty (name c2)) eqn:Ename.
    - apply choose_name_returned in H3.
      destruct H3 as (s & -> & -> & (E3 & E4 & I3) & Hd & Hc).
      destruct (I3 (or_intror (conj Hd Hc))) as [E1 _].
      apply andb_prop in Ename. destruct Ename as [_ Ename].
      apply string_empty_iff in Ename.
      rewrite E3, E4. cbn [name type species job map set_filename set_name
                           set_type ng2'].
      repeat split; try reflexivity.
      + rewrite E3 in E1. exact E1.
      + congruence.
    - rewrite run_ret in H3. injection H3 as <- <-.
      repeat split; reflexivity. }
  destruct F3 as (E1 & E2 & E3 & E4 & E5 & E6 & E7).
  split; [reflexivity|].
  split; [intro E; rewrite E in Hempty; discriminate|].
  split; [exact E1|]. split; [exact E2|].
  split.
  - rewrite E3, E4. exact Hlegal.
  - split.
    + intro Hh. rewrite T1 in D2. destruct (D2 Hh) as [Dn Dt].
      split; [congruence|]. intro Hn. rewrite E1, E7; congruence.
    + intros Hs Ht. rewrite E5.
      pose proof (f_equal map A2) as Em. cbn [map clear_character set_weapon
                                              set_job set_species] in Em.
      rewrite Em. now apply M1.
Qed.

End PlayerNames.

Lemma random_name_does_not_collide_witness :
  let w := Sample.scripted [] in
  run (_random_name (NM := NameFixtures.names)) w = (Returned "Zed", w)
  /\ ("Zed" = EmptyString
      \/ save_exists (Names := NameFixtures.names)
           (get_save_filename (Names := NameFixtures.names) "Zed") = false).
Proof.
  intro w.
  assert (H : run (_random_name (NM := NameFixtures.names)) w
              = (Returned "Zed", w)) by reflexivity.
  split; [exact H|].
  exact (proj1 (random_name_does_not_collide (NM := NameFixtures.names)
                  w "Zed" w H)).
Defined.

Lemma choose_name_takes_the_name_witness :
  let w := Sample.scripted [EvKey 65; EvOther; EvKey 108; EvKey 13] in
  exists ng' choice',
    fst (run (_choose_name (PL := Sample.platform) (NM := NameFixtures.names)
                6 newgame_def_init newgame_def_init) w)
    = Returned (ng', choice')
    /\ name ng' = "Al" /\ filename ng' = "Al.cs" /\ name choice' = "Al".
Proof.
  intro w.
  exists (set_filename (set_name newgame_def_init "Al") "Al.cs"),
         (set_name newgame_def_init "Al").
  split; [vm_compute; reflexivity|].
  pose proof (choose_name_takes_the_name (PL := Sample.platform)
                (NM := NameFixtures.names) 6 newgame_def_init
                newgame_def_init w
                (set_filename (set_name newgame_def_init "Al") "Al.cs")
                (set_name newgame_def_init "Al")
                (snd (run (_choose_name (PL := Sample.platform)
                             (NM := NameFixtures.names) 6 newgame_def_init
                             newgame_def_init) w))) as H.
  assert (Hrun : run (_choose_name (PL := Sample.platform)
                        (NM := NameFixtures.names) 6 newgame_def_init
                        newgame_def_init) w
                 = (Returned
                      (set_filename (set_name newgame_def_init "Al") "Al.cs",
                       set_name newgame_def_init "Al"),
                    snd (run (_choose_name (PL := Sample.platform)
                                (NM := NameFixtures.names) 6 newgame_def_init
                                newgame_def_init) w)))
    by (vm_compute; reflexivity).
  destruct (H Hrun) as (E1 & E2 & _ & _).
  split; [reflexivity|]. split; [exact E2|reflexivity].
Defined.

Lemma choose_game_returns_the_requested_game_witness :
  let choice := set_name (set_job (set_species newgame_def_init SP_MINOTAUR)
                                  JOB_BERSERKER) "Ada" in
  let w := Sample.drawing [1] in
  fst (run (choose_game (EN := Sample.enums) (EV := Fixtures.values)
              (RU := Sample.permissive) (PL := Sample.platform)
              (LV := MapFixtures.levels) (NM := NameFixtures.names)
              false 3 newgame_def_init choice newgame_def_init) w)
  = Returned (false, choice, choice)
  /\ name choice <> EmptyString
  /\ job_allowed (Rules := Sample.permissive) SP_MINOTAUR JOB_BERSERKER
     <> CC_BANNED.
Proof.
  intros choice w. split; [vm_compute; reflexivity|].
  pose proof (choose_game_returns_the_requested_game (EN := Sample.enums)
                (EV := Fixtures.values) (RU := Sample.permissive)
                (PL := Sample.platform) (LV := MapFixtures.levels)
                (NM := NameFixtures.names)
                false 3 newgame_def_init choice newgame_def_init w
                false choice choice
                (snd (run (choose_game (EN := Sample.enums)
                             (EV := Fixtures.values)
                             (RU := Sample.permissive)
                             (PL := Sample.platform)
                             (LV := MapFixtures.levels)
                             (NM := NameFixtures.names)
                             false 3 newgame_def_init choice
                             newgame_def_init) w))) as H.
  assert (Hrun : run (choose_game (EN := Sample.enums) (EV := Fixtures.values)
                        (RU := Sample.permissive) (PL := Sample.platform)
                        (LV := MapFixtures.levels) (NM := NameFixtures.names)
                        false 3 newgame_def_init choice newgame_def_init) w
                 = (Returned (false, choice, choice),
                    snd (run (choose_game (EN := Sample.enums)
                                (EV := Fixtures.values)
                                (RU := Sample.permissive)
                                (PL := Sample.platform)
                                (LV := MapFixtures.levels)
                                (NM := NameFixtures.names)
                                false 3 newgame_def_init choice
                                newgame_def_init) w)))
    by (vm_compute; reflexivity).
  destruct (H Hrun) as (_ & Hn & _ & _ & Hp & _).
  split; [exact Hn|exact Hp].
Defined.
